(** * Storage manager and statistics toolkit of mcp-azure-devops-analytics

    A shallow embedding of [src/storageManager.ts] (the namespaced TTL record
    store, the dataset chunker and the session tracker) and of the statistics
    and forecasting helpers of [advancedAnalytics.ts], [metricsAggregator.ts],
    the historical data collector ([HistoricalDataCollector]) and the
    deployment metrics collector ([DeploymentMetricsCollector]).

    Part I holds the model and the notions the statements use; Part II holds
    the lemmas and the theorems on the record store, the datasets, the
    sessions, the percentiles, the trends and the forecast; Part III holds
    further properties of the same classes: the other statistics helpers,
    the classifiers, the sweep of expired records and more round trips.

    Modelling conventions, shared by every definition below.

    - Instants are integers: milliseconds since the epoch, the value of
      [Date.now()].  An ISO string written by [toISOString] and read back by
      [new Date(s)] denotes the same millisecond, so the string form is not
      represented; an invalid time value makes [toISOString] throw.
    - The clock is a function from the number of readings made so far to the
      instant read; the world carries the reading counter.  Nothing is
      assumed about it unless a theorem says so.
    - A namespace directory is a finite map from the base name of a record
      file (without the [.json] suffix) to its content; a content that does
      not parse is [None].  The sidecar [index.json] is kept apart from the
      record files and a name is not normalised as a path.  The source
      opens [path.join(dir, name + ".json")], so the two agree on the names
      that [file_name] describes: not [index], and no path separator.  The
      statements on reads by a caller's identifier say so ([plain_lookup],
      [ordinary_name]).
    - JavaScript objects used as dictionaries are finite maps or association
      lists; JSON numbers inside payloads are integers.  The key index is a
      plain object: the assignment [index[key] = id] records nothing for
      the key [__proto__] ([index_assign]), and a read [index[key]] of a
      name of [Object.prototype] finds the inherited property, so
      [ordinary_name] leaves those names out.
    - The md5 digest, [JSON.stringify(..).length] and the ISO rendering of an
      instant inside a payload are library functions, taken as fields of the
      environment.
    - The numbers of the statistics helpers are rationals, with the
      non-finite results of a division kept apart.  The percentile of
      [Rounded], the averages and the two trends round every operation to
      binary64 ([Binary64]: nearest, ties to even, with subnormal numbers
      and overflow); [Math.sqrt] and [Math.pow] are parameters.  The other
      helpers use the exact operations.
    - The method [list] is called [list_records] here. *)

From Stdlib Require Import ZArith QArith Qround Qabs Qpower Lqa Ascii String List Lia
  Permutation Sorted.
From stdpp Require Import base gmap strings list pretty functions.

Local Open Scope string_scope.
Local Open Scope Z_scope.

#[local] Set Warnings "-register-all".

(** ** JSON values *)

Inductive json : Type :=
  | JNull
  | JBool (b : bool)
  | JNum (n : Z)
  | JStr (s : string)
  | JArr (l : list json)
  | JObj (l : list (string * json)).

(** [Record<string, any>]: an association list with at most one binding per
    name; [obj_set] is the assignment [o[k] = v]. *)
Abbreviation object := (list (string * json)).

Fixpoint obj_get (o : object) (k : string) : option json :=
  match o with
  | [] => None
  | (k', v) :: o' => if decide (k' = k) then Some v else obj_get o' k
  end.

Fixpoint obj_set (o : object) (k : string) (v : json) : object :=
  match o with
  | [] => [(k, v)]
  | (k', v') :: o' =>
      if decide (k' = k) then (k, v) :: o' else (k', v') :: obj_set o' k v
  end.

(** Object spread [{...a, ...b}]: the bindings of [b] assigned onto [a]. *)
Definition obj_assign (a b : object) : object :=
  fold_left (fun acc kv => obj_set acc (fst kv) (snd kv)) b a.

(** The own enumerable properties that [{...v}] copies out of a value. *)
Definition spread (v : json) : object :=
  match v with
  | JObj l => l
  | JArr l => imap (fun i x => (pretty i, x)) l
  | JStr s =>
      imap (fun i c => (pretty i, JStr (String c EmptyString))) (list_ascii_of_string s)
  | _ => []
  end.

(** [a !== b] is false only for two equal primitives: arrays and objects
    read from two different files are never identical. *)
Definition strict_eq (a b : json) : bool :=
  match a, b with
  | JNull, JNull => true
  | JBool x, JBool y => bool_decide (x = y)
  | JNum x, JNum y => bool_decide (x = y)
  | JStr x, JStr y => bool_decide (x = y)
  | _, _ => false
  end.

(** ** Array.prototype.sort

    The sort of the language is stable: of two elements that the comparator
    does not order, the one that came first stays first. *)

Section ArraySort.
Context {A : Type} (R : A -> A -> Prop) `{forall x y, Decision (R x y)}.

Fixpoint insert_stable (x : A) (l : list A) : list A :=
  match l with
  | [] => [x]
  | y :: l' => if decide (R x y) then x :: y :: l' else y :: insert_stable x l'
  end.

Definition Array_sort (l : list A) : list A := foldr insert_stable [] l.

End ArraySort.

(** ** Stored records *)

Inductive StoredType := cache | analysis | report | mapping | session.

Global Instance StoredType_eq_dec : EqDecision StoredType.
Proof. solve_decision. Defined.

Record StoredData := mkStoredData {
  id : string;
  type : StoredType;
  timestamp : Z;
  expiresAt : option Z;
  metadata : object;
  data : json
}.

(** ** The world: directories, indexes and the clock counter *)

Inductive exn :=
  | RangeError          (* Invalid time value *)
  | TypeError           (* not iterable, property of null *)
  | ENOENT              (* no such file *)
  | SyntaxError         (* JSON.parse *)
  | Error (msg : string).

Inductive outcome (A : Type) :=
  | Ret (a : A)
  | Throw (e : exn).
Arguments Ret {A} a.
Arguments Throw {A} e.

Record World := mkWorld {
  files : StoredType -> gmap string (option StoredData);
  indexFile : StoredType -> option (option (gmap string string));
  tick : nat
}.

Definition M (A : Type) : Type := World -> outcome A * World.

Definition ret {A} (a : A) : M A := fun w => (Ret a, w).
Definition throw {A} (e : exn) : M A := fun w => (Throw e, w).
Definition bind {A B} (m : M A) (k : A -> M B) : M B :=
  fun w => match m w with
           | (Ret a, w') => k a w'
           | (Throw e, w') => (Throw e, w')
           end.
Definition try_catch {A} (m : M A) (h : exn -> M A) : M A :=
  fun w => match m w with
           | (Ret a, w') => (Ret a, w')
           | (Throw e, w') => h e w'
           end.

Declare Scope io_scope.
Delimit Scope io_scope with io.
Notation "x <- c1 ;; c2" := (bind c1 (fun x => c2))
  (at level 100, c1 at next level, right associativity) : io_scope.
Notation "c1 ;;; c2" := (bind c1 (fun _ => c2))
  (at level 100, right associativity) : io_scope.
Local Open Scope io_scope.

(** The environment of one [StorageManager]: the library functions it calls,
    the clock, and the [maxCacheAge] of its configuration. *)
Record Env := mkEnv {
  md5 : string -> string;            (* createHash('md5').update(k).digest('hex') *)
  stringify_length : json -> Z;      (* JSON.stringify(v).length *)
  isoString : Z -> string;           (* new Date(t).toISOString() *)
  clock : nat -> Z;
  maxCacheAge : Z
}.

(** [config.maxCacheAge || 24 * 60 * 60 * 1000] *)
Definition config_maxCacheAge (c : option Z) : Z :=
  match c with
  | Some a => if decide (a = 0) then 24 * 60 * 60 * 1000 else a
  | None => 24 * 60 * 60 * 1000
  end.

(** Time passing between two calls: the clock is read [n] times by others. *)
Definition advance (n : nat) (w : World) : World :=
  mkWorld (files w) (indexFile w) (tick w + n).

Section StorageManager.
Variable env : Env.

(** *** Primitives: clock and file system *)

Definition Date_now : M Z :=
  fun w => (Ret (clock env (tick w)), mkWorld (files w) (indexFile w) (S (tick w))).

(** A time value is valid up to 8.64e15 ms either side of the epoch. *)
Definition valid_time (t : Z) : bool := Z.abs t <=? 8640000000000000.

Definition toISOString (t : Z) : M Z :=
  if valid_time t then ret t else throw RangeError.

Definition fileExists (ns : StoredType) (name : string) : M bool :=
  fun w => (Ret (bool_decide (is_Some (files w ns !! name))), w).

Definition readFile (ns : StoredType) (name : string) : M (option StoredData) :=
  fun w => match files w ns !! name with
           | Some c => (Ret c, w)
           | None => (Throw ENOENT, w)
           end.

Definition JSON_parse {A} (content : option A) : M A :=
  match content with
  | Some v => ret v
  | None => throw SyntaxError
  end.

Definition writeFile (ns : StoredType) (name : string) (r : StoredData) : M unit :=
  fun w => (Ret tt,
            mkWorld (<[ns := <[name := Some r]> (files w ns)]> (files w))
                    (indexFile w) (tick w)).

Definition unlink (ns : StoredType) (name : string) : M unit :=
  fun w => match files w ns !! name with
           | Some _ =>
               (Ret tt, mkWorld (<[ns := delete name (files w ns)]> (files w))
                                (indexFile w) (tick w))
           | None => (Throw ENOENT, w)
           end.

Definition readdir (ns : StoredType) : M (list string) :=
  fun w => (Ret (fst <$> map_to_list (files w ns)), w).

Definition indexExists (ns : StoredType) : M bool :=
  fun w => (Ret (bool_decide (is_Some (indexFile w ns))), w).

Definition readIndex (ns : StoredType) : M (option (gmap string string)) :=
  fun w => match indexFile w ns with
           | Some c => (Ret c, w)
           | None => (Throw ENOENT, w)
           end.

Definition writeIndex (ns : StoredType) (index : gmap string string) : M unit :=
  fun w => (Ret tt,
            mkWorld (files w) (<[ns := Some (Some index)]> (indexFile w)) (tick w)).

(** *** Helper methods ([storageManager.ts], lines 376-416) *)

(** [`${hash.substring(0, 8)}-${Date.now()}`] *)
Definition generateId (key : string) : M string :=
  let hash := md5 env key in
  now <- Date_now ;;
  ret (substring 0 8 hash +:+ "-" +:+ pretty now).

(** [index[key] || null], and [null] when the index is absent or unreadable. *)
Definition findIdByKey (ns : StoredType) (key : string) : M (option string) :=
  ex <- indexExists ns ;;
  if negb ex then ret None
  else
    try_catch
      (c <- readIndex ns ;;
       index <- JSON_parse c ;;
       ret (match index !! key with
            | Some i => if decide (i = EmptyString) then None else Some i
            | None => None
            end))
      (fun _ => ret None).

(** The assignment [index[key] = id] on an object made by [JSON.parse] or
    by [{}].  It defines or overwrites the property [key], except for the
    name [__proto__] when the object has no property of its own under that
    name: the assignment then reaches the setter of [Object.prototype],
    which ignores a string, and the object is left as it was. *)
Definition index_assign (index : gmap string string) (key id : string)
    : gmap string string :=
  if bool_decide (key = "__proto__" /\ index !! key = None) then index
  else <[key := id]> index.

(** [index[key] = id], starting from [{}] when the index is absent or
    unreadable. *)
Definition updateIndex (ns : StoredType) (id key : string) (metadata : object) : M unit :=
  ex <- indexExists ns ;;
  index <- (if ex
            then try_catch (c <- readIndex ns ;; JSON_parse c) (fun _ => ret ∅)
            else ret ∅) ;;
  writeIndex ns (index_assign index key id).

(** *** store (lines 54-91)

    The three clock readings are those of [generateId], of [timestamp] and
    of [expiresAt]; [ttl ? .. : ..] takes the default for an absent ttl and
    for a ttl of zero. *)

Definition store (ns : StoredType) (key : string) (data : json)
    (metadata : object) (ttl : option Z) : M string :=
  id <- generateId key ;;
  timestamp <- Date_now ;;
  expiresAt <-
    (match ttl with
     | Some t =>
         if decide (t = 0)
         then (now <- Date_now ;; toISOString (now + maxCacheAge env))
         else (now <- Date_now ;; toISOString (now + t))
     | None => (now <- Date_now ;; toISOString (now + maxCacheAge env))
     end) ;;
  let storedData :=
    {| id := id;
       type := ns;
       timestamp := timestamp;
       expiresAt := Some expiresAt;
       metadata :=
         obj_set (obj_set metadata "key" (JStr key))
                 "size" (JNum (stringify_length env data));
       data := data |} in
  writeFile ns id storedData ;;;
  updateIndex ns id key metadata ;;;
  ret id.

(** *** retrieve (lines 96-121)

    The identifier is tried as a file name first, then as a key of the index;
    whatever is thrown on the way makes the result [null]. *)

Definition retrieve (ns : StoredType) (keyOrId : string) : M (option StoredData) :=
  try_catch
    (ex <- fileExists ns keyOrId ;;
     target <- (if ex then ret (Some keyOrId) else findIdByKey ns keyOrId) ;;
     match target with
     | None => ret None
     | Some name =>
         content <- readFile ns name ;;
         storedData <- JSON_parse content ;;
         match expiresAt storedData with
         | Some e =>
             now <- Date_now ;;
             if e <? now
             then (unlink ns name ;;; ret None)
             else ret (Some storedData)
         | None => ret (Some storedData)
         end
     end)
    (fun _ => ret None).

(** *** list (lines 126-174) *)

(** Every entry of [filter] must be strictly equal to the metadata field. *)
Definition matches_filter (filter : object) (item : StoredData) : bool :=
  forallb (fun kv =>
             match obj_get (metadata item) (fst kv) with
             | Some v => strict_eq v (snd kv)
             | None => false
             end) filter.

(** One turn of the scan: [None] stands for [continue]. *)
Definition list_step (ns : StoredType) (filter : option object) (file : string)
    : M (option StoredData) :=
  try_catch
    (content <- readFile ns file ;;
     item <- JSON_parse content ;;
     expired <-
       (match expiresAt item with
        | Some e => (now <- Date_now ;; ret (e <? now))
        | None => ret false
        end) ;;
     if (expired : bool) then (unlink ns file ;;; ret None)
     else
       match filter with
       | Some f => if matches_filter f item then ret (Some item) else ret None
       | None => ret (Some item)
       end)
    (fun _ => ret None).

Fixpoint list_loop (ns : StoredType) (filter : option object)
    (dirents : list string) (items : list StoredData) : M (list StoredData) :=
  match dirents with
  | [] => ret items
  | file :: rest =>
      r <- list_step ns filter file ;;
      list_loop ns filter rest
        (match r with Some item => items ++ [item] | None => items end)
  end.

(** [items.sort((a, b) => time(b.timestamp) - time(a.timestamp))] *)
Definition newest_first (a b : StoredData) : Prop := timestamp b <= timestamp a.

#[global] Instance newest_first_dec a b : Decision (newest_first a b).
Proof. unfold newest_first. apply _. Defined.

Definition list_records (ns : StoredType) (filter : option object)
    : M (list StoredData) :=
  dirents <- readdir ns ;;
  items <- list_loop ns filter dirents [] ;;
  ret (Array_sort newest_first items).

(** *** Datasets (lines 179-234) *)

(** [for (let i = 0; i < data.length; i += chunkSize)]: [None] when the
    fuel runs out before the loop ends. *)
Fixpoint storeDataset_loop (fuel : nat) (key : string) (data : list json)
    (chunkSize : nat) (metadata : object) (datasetId : string)
    (i : nat) (chunks : list string) : M (option (list string)) :=
  match fuel with
  | O => ret None
  | S fuel' =>
      if bool_decide (i < length data)%nat then
        let chunk := take chunkSize (drop i data) in
        chunkId <-
          store cache (key +:+ "-chunk-" +:+ pretty i) (JArr chunk)
            (obj_set
               (obj_set
                  (obj_set metadata "datasetId" (JStr datasetId))
                  "chunkIndex" (JNum (Z.of_nat (i / chunkSize))))
               "totalChunks"
               (JNum (Z.of_nat ((length data + chunkSize - 1) / chunkSize))))
            None ;;
        storeDataset_loop fuel' key data chunkSize metadata datasetId
          (i + chunkSize) (chunks ++ [chunkId])
      else ret (Some chunks)
  end.

Definition manifest_of (datasetId key : string) (totalItems chunkSize : nat)
    (chunks : list string) (metadata : object) : json :=
  JObj [("datasetId", JStr datasetId);
        ("key", JStr key);
        ("totalItems", JNum (Z.of_nat totalItems));
        ("chunkSize", JNum (Z.of_nat chunkSize));
        ("chunks", JArr (JStr <$> chunks));
        ("metadata", JObj metadata)].

Definition storeDataset (key : string) (data : list json) (chunkSize : nat)
    (metadata : object) : M (option string) :=
  datasetId <- generateId ("dataset-" +:+ key) ;;
  r <- storeDataset_loop (S (length data)) key data chunkSize metadata
         datasetId 0 [] ;;
  match r with
  | None => ret None
  | Some chunks =>
      store cache ("dataset-" +:+ key)
        (manifest_of datasetId key (length data) chunkSize chunks metadata)
        metadata None ;;;
      ret (Some datasetId)
  end.

(** [v.chunks]: reading a property of [null] throws, a missing property is
    [undefined]. *)
Definition get_chunks (v : json) : M (option json) :=
  match v with
  | JNull => throw TypeError
  | JObj o => ret (obj_get o "chunks")
  | _ => ret None
  end.

(** The elements a [for .. of] or a call spread takes out of a value. *)
Definition iterate (v : option json) : M (list json) :=
  match v with
  | Some (JArr l) => ret l
  | Some (JStr s) =>
      ret ((fun c => JStr (String c EmptyString)) <$> list_ascii_of_string s)
  | _ => throw TypeError
  end.

(** The string a template literal makes of a value. *)
Fixpoint js_toString (v : json) : string :=
  match v with
  | JNull => "null"
  | JBool true => "true"
  | JBool false => "false"
  | JNum n => pretty n
  | JStr s => s
  | JArr l =>
      (fix join (l : list json) : string :=
         match l with
         | [] => EmptyString
         | x :: l' =>
             (match x with JNull => EmptyString | _ => js_toString x end)
             +:+ (match l' with [] => EmptyString | _ => "," +:+ join l' end)
         end) l
  | JObj _ => "[object Object]"
  end.

Fixpoint retrieveDataset_loop (chunkIds : list json) (acc : list json)
    : M (list json) :=
  match chunkIds with
  | [] => ret acc
  | chunkId :: rest =>
      chunk <- retrieve cache (js_toString chunkId) ;;
      match chunk with
      | Some c =>
          items <- iterate (Some (data c)) ;;
          retrieveDataset_loop rest (acc ++ items)
      | None => retrieveDataset_loop rest acc
      end
  end.

Definition retrieveDataset (key : string) : M (option (list json)) :=
  manifest <- retrieve cache ("dataset-" +:+ key) ;;
  match manifest with
  | None => ret None
  | Some m =>
      chunks <- get_chunks (data m) ;;
      chunkIds <- iterate chunks ;;
      items <- retrieveDataset_loop chunkIds [] ;;
      ret (Some items)
  end.

(** *** Sessions (lines 256-285)

    [updateSession] writes the merged record under the name of the session
    id, whichever file the record was read from. *)

Definition createSession (sessionType : string) (initialData : json) : M string :=
  sessionId <- generateId ("session-" +:+ sessionType) ;;
  createdAt <- Date_now ;;
  store session sessionId
    (JObj [("sessionId", JStr sessionId);
           ("sessionType", JStr sessionType);
           ("state", JStr "active");
           ("steps", JArr []);
           ("data", initialData);
           ("createdAt", JStr (isoString env createdAt))])
    [("sessionType", JStr sessionType)] None ;;;
  ret sessionId.

Definition updateSession (sessionId : string) (updates : json) : M unit :=
  found <- retrieve session sessionId ;;
  match found with
  | None => throw (Error ("Session " +:+ sessionId +:+ " not found"))
  | Some s =>
      lastUpdated <- Date_now ;;
      let merged :=
        obj_set (obj_assign (spread (data s)) (spread updates))
                "lastUpdated" (JStr (isoString env lastUpdated)) in
      writeFile session sessionId
        {| id := id s; type := type s; timestamp := timestamp s;
           expiresAt := expiresAt s; metadata := metadata s;
           data := JObj merged |}
  end.

End StorageManager.

(** ** What a call does, in closed form

    The statements below describe a call by the record it finds and the
    world it leaves.  [resolve] is the file that [retrieve] opens for an
    identifier: the file of that name if there is one, else the one the
    key index points at. *)

Definition index_lookup (w : World) (ns : StoredType) (key : string) : option string :=
  match indexFile w ns with
  | Some (Some index) =>
      match index !! key with
      | Some i => if decide (i = EmptyString) then None else Some i
      | None => None
      end
  | _ => None
  end.

Definition resolve (w : World) (ns : StoredType) (keyOrId : string) : option string :=
  if bool_decide (is_Some (files w ns !! keyOrId)) then Some keyOrId
  else index_lookup w ns keyOrId.

(** The identifiers for which a directory is the finite map above.
    [retrieve] opens the path [<type>/<keyOrId>.json]: that is a record
    file of the directory when the identifier holds no path separator and
    is not [index], whose file is the key index itself.  An identifier
    looked up in the index is a property name of an object: the names that
    every object inherits from [Object.prototype] are not looked up in the
    map.  The statements about arbitrary identifiers are made for ordinary
    names, and for an index that points at a record file. *)
Definition Object_prototype_names : list string :=
  ["constructor"; "__defineGetter__"; "__defineSetter__"; "hasOwnProperty";
   "__lookupGetter__"; "__lookupSetter__"; "isPrototypeOf"; "propertyIsEnumerable";
   "toString"; "valueOf"; "__proto__"; "toLocaleString"].

Definition is_separator (c : ascii) : bool :=
  bool_decide (c = "/"%char) || bool_decide (c = ascii_of_nat 92).

Definition has_separator (s : string) : bool :=
  existsb is_separator (list_ascii_of_string s).

Definition file_name (s : string) : Prop :=
  s <> "index" /\ has_separator s = false.

Definition ordinary_name (s : string) : Prop :=
  file_name s /\ s ∉ Object_prototype_names.

Definition plain_lookup (w : World) (ns : StoredType) (keyOrId : string) : Prop :=
  ordinary_name keyOrId /\
  match index_lookup w ns keyOrId with
  | Some name => file_name name
  | None => True
  end.

#[global] Instance file_name_dec s : Decision (file_name s).
Proof. unfold file_name. apply _. Defined.

#[global] Instance ordinary_name_dec s : Decision (ordinary_name s).
Proof. unfold ordinary_name. apply _. Defined.

#[global] Instance plain_lookup_dec w ns s : Decision (plain_lookup w ns s).
Proof. unfold plain_lookup. destruct (index_lookup w ns s); apply _. Defined.

(** [new Date(r.expiresAt) < now]; a record without [expiresAt] never expires. *)
Definition expired_at (now : Z) (r : StoredData) : bool :=
  match expiresAt r with
  | Some e => e <? now
  | None => false
  end.

(** Reading the file [name]: the record returned, and the world afterwards
    (the clock was read if the record has an expiry, and the file is gone if
    that expiry has passed). *)
Definition read_live (env : Env) (w : World) (ns : StoredType) (name : string)
    : option StoredData :=
  match files w ns !! name with
  | Some (Some r) => if expired_at (clock env (tick w)) r then None else Some r
  | _ => None
  end.

Definition after_read (env : Env) (w : World) (ns : StoredType) (name : string) : World :=
  match files w ns !! name with
  | Some (Some r) =>
      match expiresAt r with
      | Some e =>
          mkWorld
            (if e <? clock env (tick w)
             then <[ns := delete name (files w ns)]> (files w)
             else files w)
            (indexFile w) (S (tick w))
      | None => w
      end
  | _ => w
  end.

Definition live_record (env : Env) (w : World) (ns : StoredType) (keyOrId : string)
    : option StoredData :=
  match resolve w ns keyOrId with
  | Some name => read_live env w ns name
  | None => None
  end.

Definition after_retrieve (env : Env) (w : World) (ns : StoredType) (keyOrId : string)
    : World :=
  match resolve w ns keyOrId with
  | Some name => after_read env w ns name
  | None => w
  end.

(** The lifetime [store] gives a record: [ttl] when it is truthy. *)
Definition lifetime (env : Env) (ttl : option Z) : Z :=
  match ttl with
  | Some t => if decide (t = 0) then maxCacheAge env else t
  | None => maxCacheAge env
  end.

(** The id that [generateId] makes of a key at the instant [now], and the
    record and the world that a successful [store] leaves. *)
Definition gen_id (env : Env) (key : string) (now : Z) : string :=
  substring 0 8 (md5 env key) +:+ "-" +:+ pretty now.

Definition index_or_empty (w : World) (ns : StoredType) : gmap string string :=
  match indexFile w ns with
  | Some (Some index) => index
  | _ => ∅
  end.

Definition stored_record (env : Env) (w : World) (ns : StoredType) (key : string)
    (payload : json) (meta : object) (ttl : option Z) : StoredData :=
  {| id := gen_id env key (clock env (tick w));
     type := ns;
     timestamp := clock env (S (tick w));
     expiresAt := Some (clock env (S (S (tick w))) + lifetime env ttl);
     metadata :=
       obj_set (obj_set meta "key" (JStr key)) "size"
         (JNum (stringify_length env payload));
     data := payload |}.

Definition after_store (env : Env) (w : World) (ns : StoredType) (key : string)
    (payload : json) (meta : object) (ttl : option Z) : World :=
  let r := stored_record env w ns key payload meta ttl in
  mkWorld (<[ns := <[id r := Some r]> (files w ns)]> (files w))
          (<[ns := Some (Some (index_assign (index_or_empty w ns) key (id r)))]>
             (indexFile w))
          (S (S (S (tick w)))).

(** A clock that never runs backwards. *)
Definition monotone (clk : nat -> Z) : Prop :=
  forall a b : nat, (a <= b)%nat -> clk a <= clk b.

(** What one turn of the scan of [list] keeps. *)
Definition scan_keep (env : Env) (w : World) (ns : StoredType) (filter : option object)
    (file : string) : option StoredData :=
  match read_live env w ns file with
  | Some item =>
      match filter with
      | Some f => if matches_filter f item then Some item else None
      | None => Some item
      end
  | None => None
  end.

(** The record [updateSession] writes back. *)
Definition merged_session (env : Env) (s : StoredData) (updates : json) (now : Z)
    : StoredData :=
  {| id := id s; type := type s; timestamp := timestamp s;
     expiresAt := expiresAt s; metadata := metadata s;
     data := JObj (obj_set (obj_assign (spread (data s)) (spread updates))
                     "lastUpdated" (JStr (isoString env now))) |}.

(** The chunks that [retrieveDataset] finds, in manifest order: each
    identifier is looked up in the world left by the previous lookups. *)
Fixpoint surviving_chunks (env : Env) (w : World) (chunkIds : list string)
    : list StoredData :=
  match chunkIds with
  | [] => []
  | chunkId :: rest =>
      let others := surviving_chunks env (after_retrieve env w cache chunkId) rest in
      match live_record env w cache chunkId with
      | Some chunk => chunk :: others
      | None => others
      end
  end.

(** The items of a chunk record whose payload is an array. *)
Definition chunk_items (chunk : StoredData) : list json :=
  match data chunk with
  | JArr l => l
  | _ => []
  end.

Definition holds_array (chunk : StoredData) : Prop := exists l, data chunk = JArr l.

(** What a hexadecimal md5 digest looks like, and its first eight digits. *)
Definition is_hex_digit (c : ascii) : bool :=
  let n := nat_of_ascii c in
  ((48 <=? n)%nat && (n <=? 57)%nat) || ((97 <=? n)%nat && (n <=? 102)%nat).

Definition hex_digest (s : string) : Prop :=
  String.length s = 32%nat /\
  Forall (fun c => is_hex_digit c = true) (list_ascii_of_string s).

Definition hash8 (env : Env) (key : string) : string := substring 0 8 (md5 env key).

(** The key of the chunk that starts at offset [i]. *)
Definition chunk_key (key : string) (i : nat) : string := key +:+ "-chunk-" +:+ pretty i.

(** The offsets [i, i + chunkSize, ..] below [n] that the loop of
    [storeDataset] visits. *)
Fixpoint offsets (fuel n chunkSize i : nat) : list nat :=
  match fuel with
  | O => []
  | S fuel' =>
      if bool_decide (i < n)%nat then i :: offsets fuel' n chunkSize (i + chunkSize) else []
  end.

(** The ids that the loop of [storeDataset] gets for the chunks at the
    offsets [offs] when the clock has been read [t] times before: every
    [store] reads the clock three times, first of all for the id. *)
Fixpoint chunk_ids (env : Env) (key : string) (t : nat) (offs : list nat) : list string :=
  match offs with
  | [] => []
  | j :: rest =>
      gen_id env (chunk_key key j) (clock env t) :: chunk_ids env key (S (S (S t))) rest
  end.

(** The ids of the records that [storeDataset] writes in the world [w]: the
    chunks, then the manifest. *)
Definition dataset_ids (env : Env) (w : World) (key : string) (n chunkSize : nat)
    : list string :=
  let offs := offsets (S n) n chunkSize 0 in
  chunk_ids env key (S (tick w)) offs
  ++ [gen_id env ("dataset-" +:+ key) (clock env (S (tick w) + 3 * length offs))].

(** The chunk at offset [j] is on disk under [chunkId], with an expiry
    computed from the clock reading number [t], at or after [since]. *)
Definition chunk_stored (env : Env) (items : list json) (chunkSize : nat)
    (since : nat) (w' : World) (j : nat) (chunkId : string) : Prop :=
  exists r t,
    files w' cache !! chunkId = Some (Some r) /\
    data r = JArr (take chunkSize (drop j items)) /\
    (since <= t)%nat /\
    expiresAt r = Some (clock env t + maxCacheAge env).

(** The chunk at offset [j] can be read back under [chunkId] at any time. *)
Definition chunk_readable (env : Env) (items : list json) (chunkSize : nat)
    (w : World) (j : nat) (chunkId : string) : Prop :=
  exists r,
    files w cache !! chunkId = Some (Some r) /\
    data r = JArr (take chunkSize (drop j items)) /\
    forall t, expired_at (clock env t) r = false.

(** ** A concrete environment, for running the model *)

Module Demo.

(** A stand-in digest: 32 hexadecimal digits, the first eight of which
    depend on every character of the key. *)
Definition hex_char (n : N) : Ascii.ascii :=
  match (n mod 16)%N with
  | 0%N => "0" | 1%N => "1" | 2%N => "2" | 3%N => "3"
  | 4%N => "4" | 5%N => "5" | 6%N => "6" | 7%N => "7"
  | 8%N => "8" | 9%N => "9" | 10%N => "a" | 11%N => "b"
  | 12%N => "c" | 13%N => "d" | 14%N => "e" | _ => "f"
  end%char.

Fixpoint mix (s : string) (acc : N) : N :=
  match s with
  | EmptyString => acc
  | String c s' => mix s' ((acc * 31 + N_of_ascii c) mod 4294967296)%N
  end.

Definition toy_md5 (k : string) : string :=
  let h := mix k 7 in
  String (hex_char (h / 268435456))
    (String (hex_char (h / 16777216))
       (String (hex_char (h / 1048576))
          (String (hex_char (h / 65536))
             (String (hex_char (h / 4096))
                (String (hex_char (h / 256))
                   (String (hex_char (h / 16))
                      (String (hex_char h) "0123456789abcdef01234567"))))))).

Definition env0 (clk : nat -> Z) : Env :=
  {| md5 := toy_md5;
     stringify_length := fun _ => 2;
     isoString := fun t => pretty t;
     clock := clk;
     maxCacheAge := config_maxCacheAge None |}.

Definition w0 : World :=
  {| files := fun _ => ∅; indexFile := fun _ => None; tick := 0 |}.

(** The md5 digests of the five keys under which [storeDataset] stores the
    eight-item dataset [ds22422721] in chunks of two; every other key gets
    the stand-in digest.  The digests of the chunks at the offsets 2 and 6
    start with the same eight digits. *)
Definition md5_table : list (string * string) :=
  [("dataset-ds22422721", "139ffe820287e34742fbe52fa7f0d0c7");
   ("ds22422721-chunk-0", "8e991df63ae1874ce42ea9404d40dbdb");
   ("ds22422721-chunk-2", "10f93ea7eab21a7449dd27f7a37acc04");
   ("ds22422721-chunk-4", "dad87afea7557c7b19bb56870c364adc");
   ("ds22422721-chunk-6", "10f93ea7cb5bf1cd2546eec6eccfe7a3")].

Definition md5_of_table (k : string) : string :=
  match list_find (fun kv => fst kv = k) md5_table with
  | Some (_, (_, digest)) => digest
  | None => toy_md5 k
  end.

Definition env1 (clk : nat -> Z) : Env :=
  {| md5 := md5_of_table;
     stringify_length := fun _ => 2;
     isoString := fun t => pretty t;
     clock := clk;
     maxCacheAge := config_maxCacheAge None |}.

(** A clock that advances a millisecond per reading. *)
Definition ticking : nat -> Z := fun n => 1700000000000 + Z.of_nat n.

(** More clocks: one that stands still, one that jumps far ahead after ten
    readings, and one that stops advancing after a second. *)
Definition frozen : nat -> Z := fun _ => 1700000000000.

Definition jumping : nat -> Z :=
  fun n => if (n <? 10)%nat then 1700000000000 + Z.of_nat n else 1800000000000.

Definition steady : nat -> Z := fun n => 1700000000000 + Z.of_nat (Nat.min n 1000).

(** A five-item dataset stored in chunks of two, and the same world once the
    file of its second chunk is removed. *)
Definition dataset_world : World :=
  snd (storeDataset (env0 ticking) "ds" (JNum <$> [1; 2; 3; 4; 5]) 2 [] w0).

Definition dataset_world_without_second_chunk : World :=
  snd (unlink cache "896914db-1700000000004" dataset_world).

End Demo.

(** ** JavaScript numbers: the exact operations

    The statistics helpers work on [number]s.  Finite values are rationals;
    the three non-finite values that a division can produce are kept, so
    that [x / 0] behaves as in the source.  The operations of this module
    are exact; [Binary64] below rounds their results.  The sign of zero is
    not represented. *)

Module JsNum.
Local Open Scope Q_scope.

Inductive jsnum := Fin (q : Q) | PosInf | NegInf | NaN.

Definition Qsign (q : Q) : comparison := q ?= 0.

Definition add (a b : jsnum) : jsnum :=
  match a, b with
  | NaN, _ | _, NaN => NaN
  | Fin x, Fin y => Fin (x + y)
  | PosInf, NegInf | NegInf, PosInf => NaN
  | PosInf, _ | _, PosInf => PosInf
  | NegInf, _ | _, NegInf => NegInf
  end.

Definition opp (a : jsnum) : jsnum :=
  match a with
  | Fin x => Fin (- x)
  | PosInf => NegInf
  | NegInf => PosInf
  | NaN => NaN
  end.

Definition sub (a b : jsnum) : jsnum := add a (opp b).

Definition signed_inf (c : comparison) : jsnum :=
  match c with Gt => PosInf | Lt => NegInf | Eq => NaN end.

Definition sign_of (a : jsnum) : comparison :=
  match a with
  | Fin x => Qsign x
  | PosInf => Gt
  | NegInf => Lt
  | NaN => Eq
  end.

Definition mul_sign (c d : comparison) : comparison :=
  match c, d with
  | Eq, _ | _, Eq => Eq
  | Gt, Gt | Lt, Lt => Gt
  | _, _ => Lt
  end.

Definition mul (a b : jsnum) : jsnum :=
  match a, b with
  | NaN, _ | _, NaN => NaN
  | Fin x, Fin y => Fin (x * y)
  | _, _ => signed_inf (mul_sign (sign_of a) (sign_of b))
  end.

(** The divisor zero is the positive zero. *)
Definition div (a b : jsnum) : jsnum :=
  match a, b with
  | NaN, _ | _, NaN => NaN
  | Fin x, Fin y =>
      match Qsign y with
      | Eq => signed_inf (Qsign x)
      | _ => Fin (x / y)
      end
  | Fin _, _ => Fin 0
  | _, Fin y =>
      match Qsign y with
      | Lt => opp a
      | _ => a
      end
  | _, _ => NaN
  end.

Definition ltb (a b : jsnum) : bool :=
  match a, b with
  | NaN, _ | _, NaN => false
  | Fin x, Fin y => match x ?= y with Lt => true | _ => false end
  | NegInf, NegInf => false
  | NegInf, _ => true
  | _, PosInf => match a with PosInf => false | _ => true end
  | _, _ => false
  end.

Definition gtb (a b : jsnum) : bool := ltb b a.

Definition of_nat (n : nat) : jsnum := Fin (inject_Z (Z.of_nat n)).

(** [values.reduce((a, b) => a + b, 0)] *)
Definition sum (values : list jsnum) : jsnum := fold_left add values (Fin 0).

End JsNum.

(** ** JavaScript numbers: rounding to binary64

    Every arithmetic operation of the language returns the number nearest
    to the exact result, ties going to the even significand. *)

Module Binary64.
Import JsNum.
Local Open Scope Q_scope.

(** The exponent of the binade of a positive rational:
    [2 ^ ilog2 q <= q < 2 ^ (ilog2 q + 1)]. *)
Definition ilog2 (q : Q) : Z :=
  let e0 := (Z.log2 (Qnum q) - Z.log2 (Zpos (Qden q)))%Z in
  if Qle_bool (2 ^ e0) q then e0 else (e0 - 1)%Z.

(** The nearest integer, the even one of two that are equally near. *)
Definition round_half_even (m : Q) : Z :=
  let f := Qfloor m in
  match Qcompare (m - inject_Z f) (1 # 2) with
  | Lt => f
  | Gt => (f + 1)%Z
  | Eq => if Z.even f then f else (f + 1)%Z
  end.

(** The number nearest to a rational: a multiple of [2 ^ E] with at most 53
    significant bits, where [E] is at least -1074 (below [2 ^ -1022] the
    numbers are subnormal); a result of magnitude [2 ^ 1024] or more is an
    infinity. *)
Definition round64 (q : Q) : jsnum :=
  if Qeq_bool q 0 then Fin 0
  else
    let E := Z.max (ilog2 (Qabs q) - 52) (-1074) in
    let v := inject_Z (round_half_even (q / 2 ^ E)) * 2 ^ E in
    if Qle_bool (2 ^ 1024) (Qabs v)
    then (if Qle_bool 0 q then PosInf else NegInf)
    else Fin (Qred v).

(** Half the distance from 1 to the next number, and half the least
    positive number: the relative and the absolute bound of one rounding. *)
Definition eps : Q := 2 ^ (-53).
Definition eta : Q := 2 ^ (-1075).

(** An operation of the language on two numbers: the exact result, rounded. *)
Definition rnd (a : jsnum) : jsnum :=
  match a with
  | Fin q => round64 q
  | _ => a
  end.

Definition add (a b : jsnum) : jsnum := rnd (JsNum.add a b).
Definition sub (a b : jsnum) : jsnum := rnd (JsNum.sub a b).
Definition mul (a b : jsnum) : jsnum := rnd (JsNum.mul a b).
Definition div (a b : jsnum) : jsnum := rnd (JsNum.div a b).

(** A decimal literal of the source denotes the nearest number. *)
Definition literal (q : Q) : jsnum := round64 q.

(** [values.reduce((a, b) => a + b, 0)] *)
Definition sum (values : list jsnum) : jsnum := fold_left add values (Fin 0).

(** [Math.ceil] *)
Definition Math_ceil (a : jsnum) : jsnum :=
  match a with
  | Fin q => Fin (inject_Z (Qceiling q))
  | _ => a
  end.

(** [l[i]] for a number [i]: there is an element only at an integer index
    within the array. *)
Definition index_by_number {A} (l : list A) (i : jsnum) : option A :=
  match i with
  | Fin q =>
      if Qeq_bool q (inject_Z (Qfloor q)) && Qle_bool 0 q
      then l !! Z.to_nat (Qfloor q) else None
  | _ => None
  end.

End Binary64.

(** ** Statistics and forecasting helpers *)

Module Stats.
Import JsNum.
Local Open Scope Q_scope.

#[export] Instance Qle_dec (x y : Q) : Decision (x <= y).
Proof.
  destruct (Qlt_le_dec y x) as [H | H]; [right | left; exact H].
  apply Qlt_not_le, H.
Defined.

#[export] Instance Qlt_dec (x y : Q) : Decision (x < y).
Proof.
  destruct (Qlt_le_dec x y) as [H | H]; [left; exact H | right].
  apply Qle_not_lt, H.
Defined.

Inductive direction := increasing | decreasing | stable.

(** [Math.floor(values.length / 2)] splits a sequence in two halves. *)
Definition firstHalf {A} (values : list A) : list A :=
  take (length values / 2) values.
Definition secondHalf {A} (values : list A) : list A :=
  drop (length values / 2) values.

(** *** advancedAnalytics.ts *)

Definition calculateAverage (values : list jsnum) : jsnum :=
  if bool_decide (length values = 0%nat) then Fin 0
  else Binary64.div (Binary64.sum values) (of_nat (length values)).

(** [Math.ceil((percentile / 100) * n) - 1], then [Math.max(0, index)]. *)
Definition percentile_index (percentile : Q) (n : nat) : Z :=
  Z.max 0 (Qceiling ((percentile / 100) * inject_Z (Z.of_nat n)) - 1).

(** [[...values].sort((a, b) => a - b)] *)
Definition sort_ascending (values : list Q) : list Q := Array_sort Qle values.

(** The result is [None] where the source returns [undefined]. *)
Definition calculatePercentile (values : list Q) (percentile : Q) : option Q :=
  if bool_decide (length values = 0%nat) then Some 0
  else
    let sorted := sort_ascending values in
    let index := percentile_index percentile (length sorted) in
    sorted !! Z.to_nat index.

Record FailureSample := { BugCount : Q; TotalCount : Q }.

(** [(d.BugCount / d.TotalCount) * 100] *)
Definition failure_rate (d : FailureSample) : jsnum :=
  Binary64.mul (Binary64.div (Fin (BugCount d)) (Fin (TotalCount d))) (Fin 100).

Definition calculateFailureTrend (data : list FailureSample) : direction :=
  if bool_decide (length data < 2)%nat then stable
  else
    let rates := failure_rate <$> data in
    let firstAvg := calculateAverage (firstHalf rates) in
    let secondAvg := calculateAverage (secondHalf rates) in
    if gtb secondAvg (Binary64.mul firstAvg (Binary64.literal 1.1)) then increasing
    else if ltb secondAvg (Binary64.mul firstAvg (Binary64.literal 0.9)) then decreasing
    else stable.

(** *** metricsAggregator.ts

    [values.sort(..)] sorts the caller's array in place: the second
    component is the content of that array when the call returns. *)
Definition MetricsAggregator_calculatePercentile (values : list Q) (percentile : Q)
    : option Q * list Q :=
  if bool_decide (length values = 0%nat) then (Some 0, values)
  else
    let sorted := sort_ascending values in
    let index := percentile_index percentile (length sorted) in
    (sorted !! Z.to_nat index, sorted).

(** *** The historical data collector *)

Record Trend := { trend_direction : direction; trend_average : jsnum; trend_stdDev : jsnum }.

Section WithMath.
(** [Math.sqrt], [Math.pow], and the deviates that the Box-Muller transform
    of [normalRandom] makes out of two [Math.random()] draws: the [n]-th
    call of [normalRandom] uses [gauss n]. *)
Variable Math_sqrt : Q -> Q.
Variable Math_pow : jsnum -> jsnum -> jsnum.
Variable gauss : nat -> Q.

Definition js_sqrt (a : jsnum) : jsnum :=
  match a with
  | Fin x => match Qsign x with Lt => NaN | _ => Fin (Math_sqrt x) end
  | PosInf => PosInf
  | _ => NaN
  end.

Definition calculateTrend (dataPoints : list Q) : Trend :=
  if bool_decide (length dataPoints < 2)%nat
  then {| trend_direction := stable; trend_average := Fin 0; trend_stdDev := Fin 0 |}
  else
    let values := Fin <$> dataPoints in
    let average := Binary64.div (Binary64.sum values) (of_nat (length values)) in
    let squaredDiffs := (fun v => Math_pow (Binary64.sub v average) (Fin 2)) <$> values in
    let variance := Binary64.div (Binary64.sum squaredDiffs) (of_nat (length values)) in
    let stdDev := js_sqrt variance in
    let firstAvg :=
      Binary64.div (Binary64.sum (firstHalf values)) (of_nat (length (firstHalf values))) in
    let secondAvg :=
      Binary64.div (Binary64.sum (secondHalf values)) (of_nat (length (secondHalf values))) in
    let change := Binary64.div (Binary64.sub secondAvg firstAvg) firstAvg in
    let dir :=
      if gtb change (Binary64.literal 0.1) then increasing
      else if ltb change (opp (Binary64.literal 0.1)) then decreasing
      else stable in
    {| trend_direction := dir; trend_average := average; trend_stdDev := stdDev |}.

(** *** The deployment metrics collector *)

Definition calculateStdDev (values : list Q) : Q :=
  let n := inject_Z (Z.of_nat (length values)) in
  let avg := fold_left Qplus values 0 / n in
  let squaredDiffs := (fun v => (v - avg) * (v - avg)) <$> values in
  let variance := fold_left Qplus squaredDiffs 0 / n in
  Math_sqrt variance.

Definition normalRandom (mean stdDev : Q) (draw : nat) : Q :=
  mean + gauss draw * stdDev.

Definition Math_max0 (v : Q) : Q := if Qlt_le_dec 0 v then v else 0.

(** One trial, [while (work > 0) { .. }]: the sprints counted, the work
    left and the number of draws made; [None] when the fuel runs out. *)
Fixpoint trial_loop (fuel : nat) (avgVelocity stdDev : Q)
    (work : Q) (sprints draws : nat) : option (nat * Q * nat) :=
  match fuel with
  | O => None
  | S fuel' =>
      if Qlt_le_dec 0 work then
        let velocity := normalRandom avgVelocity stdDev draws in
        let work' := work - Math_max0 velocity in
        let sprints' := S sprints in
        if bool_decide (100 < sprints')%nat
        then Some (sprints', work', S draws)
        else trial_loop fuel' avgVelocity stdDev work' sprints' (S draws)
      else Some (sprints, work, draws)
  end.

Fixpoint simulation_loop (fuel : nat) (remainingWork avgVelocity stdDev : Q)
    (iterations : nat) (draws : nat) (results : list nat)
    : option (list nat) :=
  match iterations with
  | O => Some results
  | S iterations' =>
      match trial_loop fuel avgVelocity stdDev remainingWork 0 draws with
      | None => None
      | Some (sprints, _, draws') =>
          simulation_loop fuel remainingWork avgVelocity stdDev
            iterations' draws' (results ++ [sprints])
      end
  end.

Definition runMonteCarloSimulation (fuel : nat)
    (remainingWork avgVelocity stdDev : Q) (iterations : nat)
    : option (list nat) :=
  match simulation_loop fuel remainingWork avgVelocity stdDev iterations 0 [] with
  | Some results => Some (Array_sort le results)
  | None => None
  end.

Definition getPercentile {A} (sortedValues : list A) (percentile : Q) : option A :=
  sortedValues !! Z.to_nat (percentile_index percentile (length sortedValues)).

Inductive workUnit := points | items.
Record IterationRow := { TotalPoints : option Q; ItemCount : option Q }.

(** [x || 0] *)
Definition or_zero (x : option Q) : Q := match x with Some v => v | None => 0 end.

Definition velocities_of (unit : workUnit) (rows : list IterationRow) : list Q :=
  let velocities :=
    filter (fun v => 0 < v)
      ((fun row => match unit with
                   | points => or_zero (TotalPoints row)
                   | items => or_zero (ItemCount row)
                   end) <$> rows) in
  match velocities with
  | [] => [20]
  | _ => velocities
  end.

Record SprintForecast := {
  optimistic : option nat;
  likely : option nat;
  pessimistic : option nat
}.

(** The sprint counts behind the three predicted dates of
    [predictDelivery]; the query that yields [rows] is the caller's. *)
Definition predictDelivery (fuel : nat) (rows : list IterationRow)
    (remainingWork : Q) (unit : workUnit) (confidenceLevel : Q)
    : option SprintForecast :=
  let velocities := velocities_of unit rows in
  let avgVelocity :=
    fold_left Qplus velocities 0 / inject_Z (Z.of_nat (length velocities)) in
  let stdDev := calculateStdDev velocities in
  match runMonteCarloSimulation fuel remainingWork avgVelocity stdDev 1000 with
  | None => None
  | Some simulations =>
      Some {| optimistic := getPercentile simulations (100 - confidenceLevel);
              likely := getPercentile simulations 50;
              pessimistic := getPercentile simulations confidenceLevel |}
  end.

End WithMath.

(** *** Notions used by the statements *)

(** Nearest-rank percentile as the specification words it: [0] on empty
    input, else the element of the ascending copy at
    [ceil(p / 100 * n) - 1] clamped to [0 .. n - 1]. *)
Definition percentile_spec (values : list Q) (p : Q) : Q :=
  match values with
  | [] => 0
  | _ =>
      let n := Z.of_nat (length values) in
      let rank := (Qceiling ((p / 100) * inject_Z n) - 1)%Z in
      let clamped := Z.min (n - 1) (Z.max 0 rank) in
      nth (Z.to_nat clamped) (sort_ascending values) 0
  end.

(** The three sprint counts are defined and in order. *)
Definition forecast_ordered (f : SprintForecast) : Prop :=
  exists o l p : nat,
    optimistic f = Some o /\ likely f = Some l /\ pessimistic f = Some p /\
    (o <= l)%nat /\ (l <= p)%nat.

(** Deviates, a square root that is exact on squares of integers, and a
    two-sprint velocity history, for running the forecast. *)
Definition demo_gauss (n : nat) : Q := if (n <? 500)%nat then 1 else -1.
Definition demo_sqrt (q : Q) : Q := inject_Z (Z.sqrt (Qfloor q)).
Definition demo_rows : list IterationRow :=
  [ {| TotalPoints := Some 10; ItemCount := None |};
    {| TotalPoints := Some 30; ItemCount := None |} ].

(** The range of the sample values in the statements on the trends: far
    from overflow and from the subnormal numbers. *)
Definition sample_max : Q := 2 ^ 300.
Definition sample_min : Q := 2 ^ (-300).

(** Samples with the given bug counts out of 100. *)
Definition samples_of (values : list Q) : list FailureSample :=
  (fun v => {| BugCount := v; TotalCount := 100 |}) <$> values.

Definition rising_samples : list FailureSample := samples_of [1; 2; 3; 4; 5; 6].

Definition strictly_increasing (values : list Q) : Prop :=
  forall i x y, values !! i = Some x -> values !! S i = Some y -> x < y.
Definition strictly_decreasing (values : list Q) : Prop :=
  forall i x y, values !! i = Some x -> values !! S i = Some y -> y < x.

End Stats.

(** ** More of the numbers: comparisons and [Math] functions *)

Module JsMath.
Import JsNum.
Local Open Scope Q_scope.

(** [a === b] on numbers: [NaN] equals nothing. *)
Definition eqb (a b : jsnum) : bool :=
  match a, b with
  | Fin x, Fin y => Qeq_bool x y
  | PosInf, PosInf | NegInf, NegInf => true
  | _, _ => false
  end.

Definition leb (a b : jsnum) : bool := ltb a b || eqb a b.

Definition abs (a : jsnum) : jsnum :=
  match a with
  | Fin x => Fin (Qabs x)
  | NaN => NaN
  | _ => PosInf
  end.

(** [Math.max(a, b)] and [Math.min(a, b)]: [NaN] if either is. *)
Definition max (a b : jsnum) : jsnum :=
  match a, b with
  | NaN, _ | _, NaN => NaN
  | _, _ => if ltb a b then b else a
  end.

Definition min (a b : jsnum) : jsnum :=
  match a, b with
  | NaN, _ | _, NaN => NaN
  | _, _ => if ltb b a then b else a
  end.

(** [l[i]] inside arithmetic: [undefined] makes the result [NaN]. *)
Definition at_index (l : list jsnum) (i : nat) : jsnum := default NaN (l !! i).

(** [x || 0] on a number that may be absent. *)
Definition truthy_or (x : option Q) (d : Q) : Q :=
  match x with
  | Some v => if Qeq_bool v 0 then d else v
  | None => d
  end.

End JsMath.

(** ** The percentile, with the rank rounded as the source computes it

    [Stats.percentile_index] is the rank in exact arithmetic; the source
    evaluates [(percentile / 100) * n] in binary64, which is what
    [percentile_rank] does. *)

Module Rounded.
Import JsNum Stats.
Local Open Scope Q_scope.
Local Open Scope list_scope.

(** [Math.ceil((percentile / 100) * n) - 1] *)
Definition percentile_rank (percentile : Q) (n : nat) : jsnum :=
  Binary64.sub
    (Binary64.Math_ceil
       (Binary64.mul (Binary64.div (Fin percentile) (Fin 100)) (of_nat n)))
    (Fin 1).

(** [calculatePercentile] of [advancedAnalytics.ts] (lines 756-761); the
    result is [None] where the source returns [undefined]. *)
Definition calculatePercentile (values : list Q) (percentile : Q) : option Q :=
  if bool_decide (length values = 0%nat) then Some 0
  else
    let sorted := sort_ascending values in
    let index := percentile_rank percentile (length sorted) in
    Binary64.index_by_number sorted (JsMath.max (Fin 0) index).

(** [calculatePercentile] of [metricsAggregator.ts] (lines 409-415), which
    sorts the caller's array in place: the second component is the content
    of that array when the call returns. *)
Definition MetricsAggregator_calculatePercentile (values : list Q) (percentile : Q)
    : option Q * list Q :=
  if bool_decide (length values = 0%nat) then (Some 0, values)
  else
    let sorted := sort_ascending values in
    let index := percentile_rank percentile (length sorted) in
    (Binary64.index_by_number sorted (JsMath.max (Fin 0) index), sorted).

(** *** Notions used by the statements

    A rank clamped to the positions [0 .. n - 1] of an array. *)
Definition clamp (n : nat) (rank : jsnum) : nat :=
  match rank with
  | Fin q => Z.to_nat (Z.min (Z.of_nat n - 1) (Z.max 0 (Qfloor q)))
  | PosInf => (n - 1)%nat
  | _ => 0%nat
  end.

(** Nearest-rank percentile as the specification words it, with the rank
    as the source computes it: [0] on empty input, else the element of the
    ascending copy at the clamped rank. *)
Definition nearest_rank (values : list Q) (p : Q) : Q :=
  match values with
  | [] => 0
  | _ => nth (clamp (length values) (percentile_rank p (length values)))
             (sort_ascending values) 0
  end.

(** The values 1, 2, .., 25. *)
Definition one_to_25 : list Q := (fun i => inject_Z (Z.of_nat i)) <$> seq 1 25.

End Rounded.

(** ** More of [AdvancedAnalyticsClient] ([advancedAnalytics.ts]) *)

Module AdvancedAnalyticsClient.
Import JsNum JsMath Stats.
Local Open Scope Q_scope.

(** *** calculateMedian (lines 728-735)

    The result is [None] where the source would read past the array. *)
Definition calculateMedian (values : list Q) : option Q :=
  if bool_decide (length values = 0%nat) then Some 0
  else
    let sorted := sort_ascending values in
    let mid := (length sorted / 2)%nat in
    if bool_decide (length sorted mod 2 = 0)%nat
    then match sorted !! (mid - 1)%nat, sorted !! mid with
         | Some a, Some b => Some ((a + b) / 2)
         | _, _ => None
         end
    else sorted !! mid.

(** *** formatDate (lines 715-721) *)

Definition formatDate (dateSK : Z) : string :=
  let str := pretty dateSK in
  let year := substring 0 4 str in
  let month := substring 4 2 str in
  let day := substring 6 2 str in
  year +:+ "-" +:+ month +:+ "-" +:+ day.

(** *** calculateGrowthRate and forecastBacklog (lines 850-857, 899-916) *)

Record BacklogDay := { NewCards : option Q }.

Definition calculateGrowthRate (data : list BacklogDay) : jsnum :=
  if bool_decide (length data < 2)%nat then Fin 0
  else
    let firstValue := truthy_or (data !! 0%nat ≫= NewCards) 0 in
    let lastValue := truthy_or (data !! (length data - 1)%nat ≫= NewCards) 0 in
    mul (div (sub (Fin lastValue) (Fin firstValue)) (Fin firstValue)) (Fin 100).

Inductive capacity := sufficient | warning | critical.

Record BacklogForecast := {
  nextWeek : jsnum;
  nextMonth : jsnum;
  forecast_capacity : capacity
}.

Definition forecastBacklog (data : list BacklogDay) (dailyAvg : jsnum) : BacklogForecast :=
  let growthRate := calculateGrowthRate data in
  {| nextWeek := mul (mul dailyAvg (Fin 7)) (add (Fin 1) (div growthRate (Fin 100)));
     nextMonth := mul (mul dailyAvg (Fin 30)) (add (Fin 1) (div growthRate (Fin 100)));
     forecast_capacity :=
       if ltb growthRate (Fin 10) then sufficient
       else if ltb growthRate (Fin 25) then warning
       else critical |}.

(** *** calculateBugRatio and calculateEscapeRate (lines 859-866, 877-887)

    [data] is [None] for an absent query result; [.. || 1] keeps both
    divisors away from zero. *)

Record BugRow := { State : string; BugRow_Count : option Q; BugRow_TotalCount : option Q }.

Definition sum_of (f : BugRow -> option Q) (data : list BugRow) : Q :=
  fold_left (fun sum d => sum + truthy_or (f d) 0) data 0.

Definition calculateBugRatio (data : option (list BugRow)) : Q :=
  match data with
  | None | Some [] => 0
  | Some data =>
      let totalBugs := sum_of BugRow_Count data in
      let totalItems := truthy_or (Some (sum_of BugRow_TotalCount data)) 1 in
      (totalBugs / totalItems) * 100
  end.

Definition calculateEscapeRate (data : option (list BugRow)) : Q :=
  match data with
  | None | Some [] => 0
  | Some data =>
      let productionBugs :=
        sum_of BugRow_Count
          (filter (fun d => State d = "Active" \/ State d = "New") data) in
      let totalBugs := truthy_or (Some (sum_of BugRow_Count data)) 1 in
      (productionBugs / totalBugs) * 100
  end.

End AdvancedAnalyticsClient.

(** ** More of [MetricsAggregator] ([metricsAggregator.ts]) *)

Module MetricsAggregator.
Import JsNum JsMath Stats.
Local Open Scope Q_scope.

Inductive level := elite | high | medium | low.

(** *** The four classifiers (lines 474-500) *)

Definition classifyDeploymentFrequency (deploymentsPerDay : Q) : level :=
  if decide (1 <= deploymentsPerDay) then elite
  else if decide (1 / 7 <= deploymentsPerDay) then high
  else if decide (1 / 30 <= deploymentsPerDay) then medium
  else low.

Definition classifyLeadTime (hours : Q) : level :=
  if decide (hours < 1) then elite
  else if decide (hours < 24 * 7) then high
  else if decide (hours < 24 * 30) then medium
  else low.

Definition classifyMTTR (minutes : Q) : level :=
  if decide (minutes < 60) then elite
  else if decide (minutes < 60 * 24) then high
  else if decide (minutes < 60 * 24 * 7) then medium
  else low.

Definition classifyFailureRate (percentage : Q) : level :=
  if decide (percentage <= 15) then elite
  else if decide (percentage <= 30) then high
  else if decide (percentage <= 45) then medium
  else low.

(** *** The bundle of calculateDoraMetrics (lines 38-66) *)

Record Classified := { value : Q; classification : level }.

Record DoraMetrics := {
  deploymentFrequency : Classified;     (* value: deploymentsPerDay *)
  leadTimeForChanges : Classified;      (* value: hours *)
  mttr : Classified;                    (* value: minutes *)
  changeFailureRate : Classified        (* value: percentage *)
}.

End MetricsAggregator.

(** ** More of [DeploymentMetricsCollector] *)

Module DeploymentMetricsCollector.
Import JsNum JsMath Stats.
Local Open Scope Q_scope.

(** *** Severities and priorities (lines 352-368) *)

Definition mapSeverityToPriority (severity : string) : Z :=
  if decide (severity = "critical") then 1
  else if decide (severity = "high") then 2
  else if decide (severity = "medium") then 3
  else if decide (severity = "low") then 4
  else 3.

(** *** getDaysBetween and calculateFailureRate (lines 390-398)

    The two dates of the range are instants in milliseconds. *)

Definition getDaysBetween (start end_ : Z) : Z :=
  let diffTime := Z.abs (end_ - start) in
  Qceiling (inject_Z diffTime / inject_Z (1000 * 60 * 60 * 24)).

Definition calculateFailureRate {A} (incidents : list A) (start end_ : Z) : jsnum :=
  let days := getDaysBetween start end_ in
  div (of_nat (length incidents)) (Fin (inject_Z days)).

Section WithParseInt.
Variable parseInt : string -> jsnum.

Definition mapPriorityToSeverity (priority : jsnum + string) : string :=
  let p := match priority with inl n => n | inr s => parseInt s end in
  if leb p (Fin 1) then "critical"
  else if eqb p (Fin 2) then "high"
  else if eqb p (Fin 3) then "medium"
  else "low".

End WithParseInt.

End DeploymentMetricsCollector.

(** ** More of [HistoricalDataCollector] *)

Module HistoricalDataCollector.
Import JsNum JsMath Stats.
Local Open Scope Q_scope.

(** *** calculatePerformanceLevel (lines 1079-1102) *)

Definition points_of (classification : MetricsAggregator.level) : Z :=
  match classification with
  | MetricsAggregator.elite => 25
  | MetricsAggregator.high => 15
  | MetricsAggregator.medium => 10
  | MetricsAggregator.low => 0
  end.

Definition calculatePerformanceLevel (metrics : MetricsAggregator.DoraMetrics)
    : MetricsAggregator.level :=
  let class_of (field : MetricsAggregator.DoraMetrics -> MetricsAggregator.Classified) :=
    MetricsAggregator.classification (field metrics) in
  let score :=
    (0 + points_of (class_of MetricsAggregator.deploymentFrequency)
       + points_of (class_of MetricsAggregator.leadTimeForChanges)
       + points_of (class_of MetricsAggregator.mttr)
       + points_of (class_of MetricsAggregator.changeFailureRate))%Z in
  if decide (80 <= score)%Z then MetricsAggregator.elite
  else if decide (50 <= score)%Z then MetricsAggregator.high
  else if decide (30 <= score)%Z then MetricsAggregator.medium
  else MetricsAggregator.low.

End HistoricalDataCollector.

(** ** Notions used by the statements on the helpers *)

(** A bundle with the given four values and classifications. *)
Definition bundle_of (values : Q * Q * Q * Q)
    (d l m c : MetricsAggregator.level) : MetricsAggregator.DoraMetrics :=
  let '(vd, vl, vm, vc) := values in
  {| MetricsAggregator.deploymentFrequency :=
       {| MetricsAggregator.value := vd; MetricsAggregator.classification := d |};
     MetricsAggregator.leadTimeForChanges :=
       {| MetricsAggregator.value := vl; MetricsAggregator.classification := l |};
     MetricsAggregator.mttr :=
       {| MetricsAggregator.value := vm; MetricsAggregator.classification := m |};
     MetricsAggregator.changeFailureRate :=
       {| MetricsAggregator.value := vc; MetricsAggregator.classification := c |} |}.

(** How good a level is: [low] is the worst, [elite] the best. *)
Definition level_rank (l : MetricsAggregator.level) : nat :=
  match l with
  | MetricsAggregator.low => 0
  | MetricsAggregator.medium => 1
  | MetricsAggregator.high => 2
  | MetricsAggregator.elite => 3
  end.

(** The decimal digit of [n] at position [i], counted from the right. *)
Definition digit_at (n : Z) (i : nat) : ascii :=
  pretty_N_char (Z.to_N ((n / 10 ^ Z.of_nat i) mod 10)).

(** ** More of the storage manager *)

Section StorageManagerSweep.
Variable env : Env.

(** *** cleanupExpired (lines 318-334)

    The sweep lists each namespace, which already drops the records that
    have expired, and then checks again each record that [list] returned;
    the file it removes is named by the [id] field of the record. *)

Definition all_types : list StoredType := [cache; analysis; report; mapping; session].

Fixpoint cleanup_items (ns : StoredType) (items : list StoredData) (cleaned : nat)
    : M nat :=
  match items with
  | [] => ret cleaned
  | item :: rest =>
      expired <-
        (match expiresAt item with
         | Some e => (now <- Date_now env ;; ret (e <? now))
         | None => ret false
         end) ;;
      if (expired : bool)
      then (unlink ns (id item) ;;; cleanup_items ns rest (S cleaned))
      else cleanup_items ns rest cleaned
  end.

Fixpoint cleanup_types (types : list StoredType) (cleaned : nat) : M nat :=
  match types with
  | [] => ret cleaned
  | ns :: rest =>
      items <- list_records env ns None ;;
      cleaned' <- cleanup_items ns items cleaned ;;
      cleanup_types rest cleaned'
  end.

Definition cleanupExpired : M nat := cleanup_types all_types 0%nat.

(** *** storeAnalysis (lines 239-251)

    The metadata object is built, and the clock read for its [timestamp],
    before [store] runs. *)
Definition storeAnalysis (analysisType : string) (results : json)
    (relationships : list string) (metadata : object) : M string :=
  timestamp <- Date_now env ;;
  store env analysis analysisType results
    (obj_set
       (obj_set
          (obj_set metadata "analysisType" (JStr analysisType))
          "relationships" (JArr (JStr <$> relationships)))
       "timestamp" (JStr (isoString env timestamp)))
    None.

(** *** calculateDoraMetrics of [MetricsAggregator] (lines 217-258, 441-472)

    The four measurements come from placeholder methods that return
    constants; the bundle is cached for an hour.  [bundle_json] is the JSON
    value of the bundle, [dateRange] that of the range. *)
Variable bundle_json : MetricsAggregator.DoraMetrics -> json.

Definition calculateDeploymentFrequency (project : string) (dateRange : json) : Q := 1.5.
Definition calculateLeadTimeForChanges (project : string) (dateRange : json) : Q := 24.
Definition calculateMTTR (project : string) (dateRange : json) : Q := 60.
Definition calculateChangeFailureRate (project : string) (dateRange : json) : Q := 15.

Definition calculateDoraMetrics (project : string) (dateRange : json)
    : M MetricsAggregator.DoraMetrics :=
  let deploymentFrequency := calculateDeploymentFrequency project dateRange in
  let leadTime := calculateLeadTimeForChanges project dateRange in
  let mttr := calculateMTTR project dateRange in
  let failureRate := calculateChangeFailureRate project dateRange in
  let metrics :=
    {| MetricsAggregator.deploymentFrequency :=
         {| MetricsAggregator.value := deploymentFrequency;
            MetricsAggregator.classification :=
              MetricsAggregator.classifyDeploymentFrequency deploymentFrequency |};
       MetricsAggregator.leadTimeForChanges :=
         {| MetricsAggregator.value := leadTime;
            MetricsAggregator.classification := MetricsAggregator.classifyLeadTime leadTime |};
       MetricsAggregator.mttr :=
         {| MetricsAggregator.value := mttr;
            MetricsAggregator.classification := MetricsAggregator.classifyMTTR mttr |};
       MetricsAggregator.changeFailureRate :=
         {| MetricsAggregator.value := failureRate;
            MetricsAggregator.classification :=
              MetricsAggregator.classifyFailureRate failureRate |} |} in
  store env analysis ("dora-metrics-" +:+ project) (bundle_json metrics)
    [("project", JStr project); ("dateRange", dateRange)] (Some 3600000) ;;;
  ret metrics.

End StorageManagerSweep.

(** The files a sweep at the instant [now] leaves of a directory entry. *)
Definition swept (now : Z) (c : option (option StoredData)) : option (option StoredData) :=
  match c with
  | Some (Some r) => if expired_at now r then None else Some (Some r)
  | _ => c
  end.

(** A record passes the filter of [list]; no filter lets every record pass. *)
Definition filter_ok (filter : option object) (r : StoredData) : Prop :=
  match filter with
  | Some f => matches_filter f r = true
  | None => True
  end.

(** The payload [createSession] stores for a new session. *)
Definition session_payload (env : Env) (sessionId sessionType : string) (initialData : json)
    (createdAt : Z) : object :=
  [("sessionId", JStr sessionId);
   ("sessionType", JStr sessionType);
   ("state", JStr "active");
   ("steps", JArr []);
   ("data", initialData);
   ("createdAt", JStr (isoString env createdAt))].

(** * Part II: properties *)

(** ** The sort *)

Section ArraySortFacts.
Context {A : Type} (R : A -> A -> Prop) `{forall x y, Decision (R x y)}.

Lemma insert_stable_Permutation x l : Permutation (insert_stable R x l) (x :: l).
Proof.
  induction l as [|y l IH]; simpl; [reflexivity|].
  destruct (decide (R x y)); [reflexivity|].
  rewrite IH. apply perm_swap.
Qed.

Lemma Array_sort_Permutation l : Permutation (Array_sort R l) l.
Proof.
  induction l as [|x l IH]; simpl; [reflexivity|].
  rewrite insert_stable_Permutation. by constructor.
Qed.

Lemma insert_stable_head x l a :
  HdRel R a l -> R a x -> HdRel R a (insert_stable R x l).
Proof.
  intros Hl Hx. destruct l as [|y l]; simpl; [by constructor|].
  destruct (decide (R x y)); constructor; [done|]. by inversion Hl.
Qed.

Lemma Sorted_insert_stable `{!Total R} x l :
  Sorted R l -> Sorted R (insert_stable R x l).
Proof.
  induction 1 as [|y l Hs IH Hhd]; simpl; [by repeat constructor|].
  destruct (decide (R x y)) as [Hxy|Hxy].
  - by repeat constructor.
  - constructor; [exact IH|]. apply insert_stable_head; [exact Hhd|].
    by destruct (total R x y).
Qed.

Lemma Sorted_Array_sort `{!Total R} l : Sorted R (Array_sort R l).
Proof.
  induction l as [|x l IH]; simpl; [constructor|]. by apply Sorted_insert_stable.
Qed.

End ArraySortFacts.

(** ** Statistics and forecasting *)

Section Statistics.
Import JsNum Stats.
Local Open Scope Q_scope.
Local Open Scope list_scope.

(** *** Percentiles *)

#[local] Instance Qle_total : Total Qle.
Proof. intros x y. destruct (Qlt_le_dec x y) as [H|H]; [left; apply Qlt_le_weak, H | right; exact H]. Qed.

Lemma sort_ascending_length values : length (sort_ascending values) = length values.
Proof. unfold sort_ascending. apply Permutation_length, Array_sort_Permutation. Qed.

Lemma sort_ascending_sorted values : Sorted Qle (sort_ascending values).
Proof. apply Sorted_Array_sort; apply _. Qed.

Lemma percentile_index_nonneg p n : (0 <= percentile_index p n)%Z.
Proof. unfold percentile_index. lia. Qed.

Lemma percentile_index_bound p n :
  p <= 100 -> (0 < n)%nat -> (percentile_index p n <= Z.of_nat n - 1)%Z.
Proof.
  intros Hp Hn. unfold percentile_index.
  assert (H : (p / 100) * inject_Z (Z.of_nat n) <= inject_Z (Z.of_nat n)).
  { assert (0 <= inject_Z (Z.of_nat n)) by (change 0 with (inject_Z 0); rewrite <- Zle_Qle; lia).
    assert (p / 100 <= 1) by (apply Qle_shift_div_r; [reflexivity | lra]).
    nra. }
  apply Qceiling_resp_le in H. rewrite Qceiling_Z in H. lia.
Qed.

Lemma calculatePercentile_spec values p :
  p <= 100 -> calculatePercentile values p = Some (percentile_spec values p).
Proof.
  intros Hp. unfold calculatePercentile, percentile_spec.
  destruct values as [|v values]; [reflexivity|].
  rewrite bool_decide_eq_false_2 by (simpl; lia).
  cbv zeta. rewrite sort_ascending_length.
  set (l := v :: values).
  assert (Hn : (0 < length l)%nat) by (simpl; lia).
  pose proof (percentile_index_bound p (length l) Hp Hn) as Hb.
  pose proof (percentile_index_nonneg p (length l)) as H0.
  unfold percentile_index in *.
  rewrite Z.min_r by lia.
  destruct (nth_lookup_or_length (sort_ascending l)
              (Z.to_nat (0 `max` (Qceiling (p / 100 * inject_Z (Z.of_nat (length l))) - 1))) 0)
    as [E | E]; [exact E|].
  rewrite sort_ascending_length in E. lia.
Qed.

Lemma MetricsAggregator_calculatePercentile_value values p :
  fst (MetricsAggregator_calculatePercentile values p) = calculatePercentile values p.
Proof.
  unfold MetricsAggregator_calculatePercentile, calculatePercentile.
  case_bool_decide; reflexivity.
Qed.

(** Claim C9, evaluated on the code.  [MetricsAggregator.calculatePercentile]
    called on the array [3, 1, 2] leaves the caller's array as [1, 2, 3]. *)
Theorem C9_percentile_sorts_in_place :
  snd (MetricsAggregator_calculatePercentile [3; 1; 2] 50) = [1; 2; 3] /\
  snd (MetricsAggregator_calculatePercentile [3; 1; 2] 50) <> [3; 1; 2].
Proof. split; [vm_compute; reflexivity | vm_compute; discriminate]. Qed.

(** *** The Monte Carlo forecast *)

Section MonteCarlo.
Variable Math_sqrt : Q -> Q.
Variable gauss : nat -> Q.

Lemma trial_loop_terminates avg std fuel : forall work sprints draws,
  (sprints <= 100)%nat -> (101 - sprints <= fuel)%nat ->
  exists s work' draws',
    trial_loop gauss fuel avg std work sprints draws = Some (s, work', draws') /\
    (sprints <= s <= 101)%nat /\ (work' <= 0 \/ s = 101%nat) /\
    draws' = (draws + (s - sprints))%nat.
Proof.
  induction fuel as [|fuel IH]; intros work sprints draws Hs Hf; [lia|].
  simpl. destruct (Qlt_le_dec 0 work) as [Hw | Hw].
  - case_bool_decide as Hcap.
    + eexists _, _, _. split; [reflexivity|]. repeat split; lia.
    + destruct (IH (work - Math_max0 (normalRandom gauss avg std draws))
                  (S sprints) (S draws)) as (s & w' & d' & E & Hb & Hx & Hd); [lia | lia |].
      exists s, w', d'. rewrite E. repeat split; try lia. exact Hx.
  - eexists _, _, _. split; [reflexivity|]. repeat split; try lia. left. exact Hw.
Qed.

Lemma simulation_loop_total fuel work avg std : forall iterations draws results,
  (101 <= fuel)%nat ->
  exists sims,
    simulation_loop gauss fuel work avg std iterations draws results = Some (results ++ sims) /\
    length sims = iterations /\ Forall (fun s => (s <= 101)%nat) sims.
Proof.
  induction iterations as [|n IH]; intros draws results Hf; simpl.
  - exists []. rewrite app_nil_r. auto.
  - destruct (trial_loop_terminates avg std fuel work 0 draws) as (s & w' & d' & E & Hb & _); [lia | lia |].
    rewrite E. destruct (IH d' (results ++ [s]) Hf) as (sims & E' & Hl & Hall).
    exists (s :: sims). rewrite E', <- app_assoc. simpl. repeat split; [lia|].
    constructor; [lia | exact Hall].
Qed.

Lemma runMonteCarloSimulation_total fuel work avg std iterations :
  (101 <= fuel)%nat ->
  exists sims,
    runMonteCarloSimulation gauss fuel work avg std iterations = Some sims /\
    length sims = iterations /\ Sorted le sims /\ Forall (fun s => (s <= 101)%nat) sims.
Proof.
  intros Hf. unfold runMonteCarloSimulation.
  destruct (simulation_loop_total fuel work avg std iterations 0%nat [] Hf)
    as (sims & E & Hl & Hall).
  rewrite E. simpl. exists (Array_sort le sims). split; [reflexivity|].
  pose proof (Array_sort_Permutation le sims) as HP.
  repeat split.
  - rewrite (Permutation_length HP). exact Hl.
  - apply Sorted_Array_sort. apply _.
  - rewrite HP. exact Hall.
Qed.

(** Claim C7.  Every Monte Carlo trial terminates, whatever the remaining
    work, the mean velocity, the deviation and the random draws: 101 turns
    of the loop are always enough, the sprint count returned is at most
    101, and the loop stopped because the work left is not positive or
    because the counter passed the cap of 100.  So the whole simulation
    returns one count per trial, each of at most 101. *)
Theorem C7_trial_terminates (fuel : nat) (remainingWork avgVelocity stdDev : Q)
    (draws iterations : nat) :
  (101 <= fuel)%nat ->
  (exists sprints work draws',
     trial_loop gauss fuel avgVelocity stdDev remainingWork 0 draws
       = Some (sprints, work, draws') /\
     (sprints <= 101)%nat /\ (work <= 0 \/ sprints = 101%nat)) /\
  (exists sims,
     runMonteCarloSimulation gauss fuel remainingWork avgVelocity stdDev iterations
       = Some sims /\
     length sims = iterations /\ Forall (fun s => (s <= 101)%nat) sims).
Proof.
  intros Hf. split.
  - destruct (trial_loop_terminates avgVelocity stdDev fuel remainingWork 0 draws)
      as (s & w' & d' & E & Hb & Hx & _); [lia | lia |].
    exists s, w', d'. repeat split; [exact E | lia | exact Hx].
  - destruct (runMonteCarloSimulation_total fuel remainingWork avgVelocity stdDev
                iterations Hf) as (sims & E & Hl & _ & Hall).
    exists sims. repeat split; assumption.
Qed.

Lemma percentile_index_mono p q n :
  p <= q -> (percentile_index p n <= percentile_index q n)%Z.
Proof.
  intros Hpq. unfold percentile_index.
  assert (H : (p / 100) * inject_Z (Z.of_nat n) <= (q / 100) * inject_Z (Z.of_nat n)).
  { assert (0 <= inject_Z (Z.of_nat n)) by (change 0 with (inject_Z 0); rewrite <- Zle_Qle; lia).
    assert (p / 100 <= q / 100) by (apply Qmult_le_compat_r; [exact Hpq | discriminate]).
    nra. }
  apply Qceiling_resp_le in H. lia.
Qed.

Lemma Sorted_le_lookup (l : list nat) i j x y :
  Sorted le l -> (i <= j)%nat -> l !! i = Some x -> l !! j = Some y -> (x <= y)%nat.
Proof.
  intros HS. apply Sorted_StronglySorted in HS; [|intros ???; lia].
  revert i j. induction HS as [|a l HS IH Hall]; intros i j Hij Hi Hj; [done|].
  destruct i as [|i], j as [|j]; simpl in *; simplify_eq; try lia.
  - rewrite Forall_forall in Hall. apply Hall, list_elem_of_In, list_elem_of_lookup. eauto.
  - apply (IH i j); [lia | done | done].
Qed.

(** Claim C5, as amended.  For every remaining work, every velocity history
    and every confidence level between 50 and 100, the simulation returns
    and the three sprint counts of the prediction are defined and ordered:
    optimistic <= likely <= pessimistic. *)
Theorem C5_forecast_ordered (fuel : nat) (rows : list IterationRow)
    (remainingWork : Q) (unit : workUnit) (confidenceLevel : Q) :
  (101 <= fuel)%nat -> 50 <= confidenceLevel -> confidenceLevel <= 100 ->
  exists f,
    predictDelivery Math_sqrt gauss fuel rows remainingWork unit confidenceLevel = Some f /\
    forecast_ordered f.
Proof.
  intros Hf Hlo Hhi. unfold predictDelivery.
  destruct (runMonteCarloSimulation_total fuel remainingWork
              (fold_left Qplus (velocities_of unit rows) 0
                 / inject_Z (Z.of_nat (length (velocities_of unit rows))))
              (calculateStdDev Math_sqrt (velocities_of unit rows)) 1000 Hf)
    as (sims & E & Hlen & Hsorted & _).
  rewrite E. eexists. split; [reflexivity|].
  unfold forecast_ordered, getPercentile. simpl. rewrite Hlen.
  pose proof (percentile_index_mono (100 - confidenceLevel) 50 1000) as H1.
  pose proof (percentile_index_mono 50 confidenceLevel 1000 Hlo) as H2.
  pose proof (percentile_index_bound confidenceLevel 1000 Hhi) as H3.
  pose proof (percentile_index_nonneg (100 - confidenceLevel) 1000) as H0.
  assert (100 - confidenceLevel <= 50) as H1' by lra. specialize (H1 H1').
  assert (0 < 1000)%nat as H3' by lia. specialize (H3 H3').
  set (i1 := percentile_index (100 - confidenceLevel) 1000) in *.
  set (i2 := percentile_index 50 1000) in *.
  set (i3 := percentile_index confidenceLevel 1000) in *.
  destruct (lookup_lt_is_Some_2 sims (Z.to_nat i1)) as [o Ho]; [lia|].
  destruct (lookup_lt_is_Some_2 sims (Z.to_nat i2)) as [l Hl]; [lia|].
  destruct (lookup_lt_is_Some_2 sims (Z.to_nat i3)) as [p Hp]; [lia|].
  exists o, l, p. repeat split; try assumption.
  - apply (Sorted_le_lookup sims (Z.to_nat i1) (Z.to_nat i2)); [done | lia | done | done].
  - apply (Sorted_le_lookup sims (Z.to_nat i2) (Z.to_nat i3)); [done | lia | done | done].
Qed.
End MonteCarlo.

Lemma C5_forecast_ordered_witness :
  exists f, predictDelivery demo_sqrt demo_gauss 101 demo_rows 30 points 85 = Some f /\
            forecast_ordered f.
Proof.
  apply (C5_forecast_ordered demo_sqrt demo_gauss 101 demo_rows 30 points 85).
  - lia.
  - vm_compute. discriminate.
  - vm_compute. discriminate.
Defined.

Lemma C5_low_confidence_not_ordered :
  exists f, predictDelivery demo_sqrt demo_gauss 101 demo_rows 30 points 10 = Some f /\
            ~ forecast_ordered f.
Proof.
  eexists. split; [vm_compute; reflexivity|].
  intros (o & l & p & Ho & Hl & Hp & H1 & H2). simpl in *. simplify_eq. lia.
Qed.

Lemma C7_trial_terminates_witness :
  exists sprints work draws',
    trial_loop demo_gauss 101 20 10 30 0 500 = Some (sprints, work, draws') /\
    (sprints <= 101)%nat /\ (work <= 0 \/ sprints = 101%nat).
Proof. apply (C7_trial_terminates demo_gauss 101 30 20 10 500 1000). lia. Defined.

Example trial_reaches_cap :
  trial_loop (fun _ => 0) 101 0 0 1 0 0 = Some (101%nat, 1, 101%nat).
Proof. vm_compute. reflexivity. Qed.

(** *** Trends *)

Lemma div_Fin x y : ~ y == 0 -> div (Fin x) (Fin y) = Fin (x / y).
Proof.
  intros Hy. unfold div, Qsign. destruct (y ?= 0) eqn:E; try reflexivity.
  apply Qeq_alt in E. contradiction.
Qed.

Lemma ltb_Fin_true x y : x < y -> ltb (Fin x) (Fin y) = true.
Proof.
  intros H. unfold ltb. destruct (x ?= y) eqn:E; try reflexivity.
  - apply Qeq_alt in E. lra.
  - apply Qgt_alt in E. lra.
Qed.

Lemma ltb_Fin_false x y : y <= x -> ltb (Fin x) (Fin y) = false.
Proof.
  intros H. unfold ltb. destruct (x ?= y) eqn:E; try reflexivity.
  apply Qlt_alt in E. lra.
Qed.

Lemma div_Fin_zero x y : y == 0 -> div (Fin x) (Fin y) = signed_inf (Qsign x).
Proof.
  intros Hy. unfold div, Qsign. destruct (y ?= 0) eqn:E; try reflexivity.
  - apply Qlt_alt in E. lra.
  - apply Qgt_alt in E. lra.
Qed.

End Statistics.

(** ** Rounding to binary64 *)

Section Rounding.
Import JsNum Binary64.
Local Open Scope Q_scope.

(** Powers of two *)

Lemma two_neq_0 : ~ 2 == 0.
Proof. discriminate. Qed.

Lemma pow2_pos e : 0 < 2 ^ e.
Proof. apply Qpower_0_lt. reflexivity. Qed.

Lemma pow2_add a b : 2 ^ (a + b) == 2 ^ a * 2 ^ b.
Proof. apply Qpower_plus, two_neq_0. Qed.

Lemma pow2_le a b : (a <= b)%Z -> 2 ^ a <= 2 ^ b.
Proof. intros H. apply Qpower_le_compat_l; [exact H | discriminate]. Qed.

Lemma pow2_le_inv a b : 2 ^ a <= 2 ^ b -> (a <= b)%Z.
Proof. intros H. apply (Qpower_le_compat_l_inv 2); [exact H | reflexivity]. Qed.

Lemma pow2_lt_inv a b : 2 ^ a < 2 ^ b -> (a < b)%Z.
Proof. intros H. apply (Qpower_lt_compat_l_inv 2); [exact H | reflexivity]. Qed.

Lemma pow2_inject (n : Z) : (0 <= n)%Z -> inject_Z (2 ^ n) == 2 ^ n.
Proof. intros H. apply (Zpower_Qpower 2 n H). Qed.

(** The binary logarithm *)

Lemma ilog2_spec q : 0 < q -> 2 ^ ilog2 q <= q /\ q < 2 ^ (ilog2 q + 1).
Proof.
  intros Hq. unfold ilog2.
  assert (Ha : (0 < Qnum q)%Z).
  { destruct q as [n d]. unfold Qlt in Hq. simpl in *. lia. }
  set (la := Z.log2 (Qnum q)). set (lb := Z.log2 (Zpos (Qden q))).
  destruct (Z.log2_spec (Qnum q) Ha) as [Ha1 Ha2]. fold la in Ha1, Ha2.
  destruct (Z.log2_spec (Zpos (Qden q)) eq_refl) as [Hb1 Hb2]. fold lb in Hb1, Hb2.
  assert (Hla : (0 <= la)%Z) by apply Z.log2_nonneg.
  assert (Hlb : (0 <= lb)%Z) by apply Z.log2_nonneg.
  set (A := inject_Z (Qnum q)). set (B := inject_Z (Zpos (Qden q))).
  assert (Eq : q == A / B) by (destruct q; apply Qmake_Qdiv).
  assert (HB : 0 < B) by reflexivity.
  assert (PA1 : 2 ^ la <= A).
  { rewrite <- pow2_inject by exact Hla. unfold A. rewrite <- Zle_Qle. exact Ha1. }
  assert (PA2 : A < 2 ^ (la + 1)).
  { rewrite <- pow2_inject by lia. unfold A. rewrite <- Zlt_Qlt. exact Ha2. }
  assert (PB1 : 2 ^ lb <= B).
  { rewrite <- pow2_inject by exact Hlb. unfold B. rewrite <- Zle_Qle. exact Hb1. }
  assert (PB2 : B < 2 ^ (lb + 1)).
  { rewrite <- pow2_inject by lia. unfold B. rewrite <- Zlt_Qlt. exact Hb2. }
  assert (Up : q < 2 ^ (la - lb + 1)).
  { rewrite Eq. apply Qlt_shift_div_r; [exact HB|].
    apply Qlt_le_trans with (2 ^ (la + 1)); [exact PA2|].
    replace (la + 1)%Z with ((la - lb + 1) + lb)%Z by lia. rewrite pow2_add.
    apply Qmult_le_l; [apply pow2_pos | exact PB1]. }
  assert (Lo : 2 ^ (la - lb - 1) <= q).
  { rewrite Eq. apply Qle_shift_div_l; [exact HB|].
    apply Qle_trans with (2 ^ la); [|exact PA1].
    replace la with ((la - lb - 1) + (lb + 1))%Z at 2 by lia. rewrite pow2_add.
    apply Qmult_le_l; [apply pow2_pos | apply Qlt_le_weak, PB2]. }
  destruct (Qle_bool (2 ^ (la - lb)) q) eqn:Hc.
  - apply Qle_bool_iff in Hc. split; [exact Hc | exact Up].
  - split; [exact Lo|]. replace (la - lb - 1 + 1)%Z with (la - lb)%Z by lia.
    apply Qnot_le_lt. intros H. apply Qle_bool_iff in H. congruence.
Qed.

Lemma ilog2_le q (e : Z) : 0 < q -> q < 2 ^ e -> (ilog2 q < e)%Z.
Proof.
  intros Hq H. destruct (ilog2_spec q Hq) as [Hlo _].
  apply pow2_lt_inv. eapply Qle_lt_trans; eassumption.
Qed.

Lemma ilog2_ge q (e : Z) : 0 < q -> 2 ^ e <= q -> (e <= ilog2 q)%Z.
Proof.
  intros Hq H. destruct (ilog2_spec q Hq) as [_ Hup].
  assert (e < ilog2 q + 1)%Z; [|lia].
  apply pow2_lt_inv. eapply Qle_lt_trans; eassumption.
Qed.

(** Rounding to the nearest integer, ties to even *)

Lemma round_half_even_close m :
  m - (1 # 2) <= inject_Z (round_half_even m) /\ inject_Z (round_half_even m) <= m + (1 # 2).
Proof.
  unfold round_half_even.
  pose proof (Qfloor_le m) as H1. pose proof (Qlt_floor m) as H2.
  rewrite inject_Z_plus in H2. change (inject_Z 1) with 1 in H2.
  destruct (Qcompare (m - inject_Z (Qfloor m)) (1 # 2)) eqn:E.
  - apply Qeq_alt in E. destruct (Z.even (Qfloor m)).
    + split; lra.
    + rewrite inject_Z_plus. change (inject_Z 1) with 1. split; lra.
  - apply Qlt_alt in E. split; lra.
  - apply Qgt_alt in E. rewrite inject_Z_plus. change (inject_Z 1) with 1. split; lra.
Qed.

Lemma round_half_even_le m (k : Z) : m <= inject_Z k -> (round_half_even m <= k)%Z.
Proof.
  intros H. unfold round_half_even.
  pose proof (Qfloor_le m) as H1.
  assert (Hf : (Qfloor m <= k)%Z).
  { rewrite <- (Qfloor_Z k). apply Qfloor_resp_le, H. }
  assert (Hs : 0 < m - inject_Z (Qfloor m) -> (Qfloor m + 1 <= k)%Z).
  { intros Hpos. assert (inject_Z (Qfloor m) < inject_Z k) by lra.
    rewrite <- Zlt_Qlt in H0. lia. }
  destruct (Qcompare (m - inject_Z (Qfloor m)) (1 # 2)) eqn:E.
  - apply Qeq_alt in E. destruct (Z.even (Qfloor m)); [exact Hf|]. apply Hs. lra.
  - exact Hf.
  - apply Qgt_alt in E. apply Hs. lra.
Qed.

Lemma round_half_even_ge m (k : Z) : inject_Z k <= m -> (k <= round_half_even m)%Z.
Proof.
  intros H. unfold round_half_even.
  assert (Hf : (k <= Qfloor m)%Z).
  { rewrite <- (Qfloor_Z k). apply Qfloor_resp_le, H. }
  destruct (Qcompare (m - inject_Z (Qfloor m)) (1 # 2)); [destruct (Z.even (Qfloor m))| |]; lia.
Qed.

(** Rounding to binary64 *)


Lemma scaled_round q E :
  let v := inject_Z (round_half_even (q / 2 ^ E)) * 2 ^ E in
  q - 2 ^ E * (1 # 2) <= v /\ v <= q + 2 ^ E * (1 # 2).
Proof.
  intros v. pose proof (pow2_pos E) as HP.
  destruct (round_half_even_close (q / 2 ^ E)) as [H1 H2].
  assert (Em : q / 2 ^ E * 2 ^ E == q) by (field; lra).
  set (m := q / 2 ^ E) in *. set (r := inject_Z (round_half_even m)) in *.
  set (P := 2 ^ E) in *. unfold v. fold m r P.
  split.
  - assert ((m - (1 # 2)) * P <= r * P) by (apply Qmult_le_compat_r; lra). lra.
  - assert (r * P <= (m + (1 # 2)) * P) by (apply Qmult_le_compat_r; lra). lra.
Qed.

Lemma round64_zero q : q == 0 -> round64 q = Fin 0.
Proof. intros H. unfold round64. apply Qeq_bool_iff in H. rewrite H. reflexivity. Qed.

Lemma Qabs_pos_lt q : ~ q == 0 -> 0 < Qabs q.
Proof.
  intros H. apply Qabs_case; intros Hq.
  - destruct (Qle_lt_or_eq _ _ Hq) as [|E]; [assumption|]. symmetry in E. contradiction.
  - destruct (Qle_lt_or_eq _ _ Hq) as [|E]; [lra | contradiction].
Qed.

Lemma round64_error q :
  Qabs q <= 2 ^ 1023 ->
  exists v, round64 q = Fin v /\ Qabs (v - q) <= eps * Qabs q + eta.
Proof.
  intros Hq. destruct (Qeq_bool q 0) eqn:Hz.
  - apply Qeq_bool_iff in Hz. exists 0. split.
    { apply round64_zero; exact Hz. }
    rewrite Hz. change (Qabs (0 - 0)) with 0. change (Qabs 0) with 0.
    unfold eps, eta. pose proof (pow2_pos (-53)). pose proof (pow2_pos (-1075)). lra.
  - assert (Hnz : ~ q == 0) by (intros H; apply Qeq_bool_iff in H; congruence).
    pose proof (Qabs_pos_lt q Hnz) as Hpos.
    destruct (ilog2_spec (Qabs q) Hpos) as [Hlo Hup].
    unfold round64. rewrite Hz. cbv zeta.
    set (e := ilog2 (Qabs q)) in *. set (E := Z.max (e - 52) (-1074)).
    destruct (scaled_round q E) as [V1 V2]. cbv zeta in V1, V2.
    set (v := inject_Z (round_half_even (q / 2 ^ E)) * 2 ^ E) in *.
    assert (He : (e <= 1023)%Z) by (apply pow2_le_inv; lra).
    assert (HE : 2 ^ E * (1 # 2) <= eps * Qabs q + eta).
    { unfold eps, eta. pose proof (pow2_pos (-53)). pose proof (pow2_pos (-1075)).
      destruct (Z.max_spec (e - 52) (-1074)) as [[_ EE]|[_ EE]]; fold E in EE; rewrite EE.
      - change (2 ^ (-1074) * (1 # 2)) with (2 ^ (-1075)).
        assert (0 <= 2 ^ (-53) * Qabs q) by (apply Qmult_le_0_compat; lra). lra.
      - replace (e - 52)%Z with (e + (-52))%Z by lia. rewrite pow2_add.
        assert (2 ^ e * 2 ^ (-53) <= Qabs q * 2 ^ (-53)) by (apply Qmult_le_compat_r; lra).
        assert (2 ^ (-52) == 2 * 2 ^ (-53)) by reflexivity. nra. }
    assert (HE2 : 2 ^ E * (1 # 2) <= 2 ^ 970).
    { assert (2 ^ E <= 2 ^ 971) by (apply pow2_le; lia).
      change (2 ^ 971) with (2 * 2 ^ 970) in H. lra. }
    assert (Hv : Qabs v < 2 ^ 1024).
    { apply Qabs_Qlt_condition. apply Qabs_Qle_condition in Hq.
      change (2 ^ 1024) with (2 * 2 ^ 1023).
      assert (2 ^ 970 < 2 ^ 1023) by reflexivity. lra. }
    destruct (Qle_bool (2 ^ 1024) (Qabs v)) eqn:Hov.
    { apply Qle_bool_iff in Hov. lra. }
    exists (Qred v). split; [reflexivity|]. rewrite Qred_correct.
    apply Qabs_Qle_condition. lra.
Qed.

(** The same bound for an argument known to lie within [-B, B]. *)
Lemma round64_within q B :
  - B <= q -> q <= B -> B <= 2 ^ 1023 ->
  exists v, round64 q = Fin v /\ q - (eps * B + eta) <= v /\ v <= q + (eps * B + eta).
Proof.
  intros H1 H2 HB.
  assert (Hq : Qabs q <= B) by (apply Qabs_Qle_condition; split; assumption).
  destruct (round64_error q) as (v & E & Hv); [lra|].
  exists v. split; [exact E|].
  assert (Heps : 0 <= eps) by (apply Qlt_le_weak, pow2_pos).
  assert (eps * Qabs q <= eps * B) by (apply Qmult_le_l; [apply pow2_pos | exact Hq]).
  apply Qabs_Qle_condition in Hv. lra.
Qed.

(** Rounding keeps the sign. *)
Lemma round64_nonneg q : 0 <= q ->
  match round64 q with Fin v => 0 <= v | PosInf => True | _ => False end.
Proof.
  intros Hq. unfold round64. destruct (Qeq_bool q 0) eqn:Hz; [apply Qle_refl|].
  cbv zeta. set (E := Z.max _ _).
  assert (Hr : (0 <= round_half_even (q / 2 ^ E))%Z).
  { apply round_half_even_ge. change (inject_Z 0) with 0.
    apply Qle_shift_div_l; [apply pow2_pos | lra]. }
  destruct (Qle_bool (2 ^ 1024) _).
  - apply Qle_bool_iff in Hq. rewrite Hq. exact I.
  - rewrite Qred_correct. apply Qmult_le_0_compat.
    + change 0 with (inject_Z 0). rewrite <- Zle_Qle. exact Hr.
    + apply Qlt_le_weak, pow2_pos.
Qed.

Lemma round64_nonpos q : q <= 0 ->
  match round64 q with Fin v => v <= 0 | NegInf => True | _ => False end.
Proof.
  intros Hq. unfold round64. destruct (Qeq_bool q 0) eqn:Hz; [apply Qle_refl|].
  assert (Hneg : q < 0).
  { destruct (Qle_lt_or_eq _ _ Hq) as [|E]; [assumption|].
    apply Qeq_bool_iff in E. congruence. }
  cbv zeta. set (E := Z.max _ _).
  assert (Hr : (round_half_even (q / 2 ^ E) <= 0)%Z).
  { apply round_half_even_le. change (inject_Z 0) with 0.
    apply Qle_shift_div_r; [apply pow2_pos | lra]. }
  destruct (Qle_bool (2 ^ 1024) _).
  - destruct (Qle_bool 0 q) eqn:Hc; [|exact I]. apply Qle_bool_iff in Hc. lra.
  - rewrite Qred_correct.
    assert (inject_Z (round_half_even (q / 2 ^ E)) <= 0)
      by (change 0 with (inject_Z 0); rewrite <- Zle_Qle; exact Hr).
    pose proof (pow2_pos E). nra.
Qed.

(** Rounding never passes an integer that a number of the format holds
    exactly: here, a natural number below 2^32. *)
Lemma round64_le_int q (z : Z) :
  q <= inject_Z z -> (0 <= z <= 2 ^ 32)%Z ->
  match round64 q with Fin v => v <= inject_Z z | NegInf => True | _ => False end.
Proof.
  intros Hq Hz.
  assert (Hz0 : 0 <= inject_Z z) by (change 0 with (inject_Z 0); rewrite <- Zle_Qle; lia).
  destruct (Qlt_le_dec 0 q) as [Hpos|Hneg].
  - destruct (ilog2_spec (Qabs q)) as [Hlo _]; [rewrite Qabs_pos; lra|].
    unfold round64. destruct (Qeq_bool q 0) eqn:Hq0; [apply Qeq_bool_iff in Hq0; lra|].
    cbv zeta. set (e := ilog2 (Qabs q)) in *. set (E := Z.max (e - 52) (-1074)).
    rewrite Qabs_pos in Hlo by lra.
    assert (He : (e <= 32)%Z).
    { apply pow2_le_inv. apply Qle_trans with q; [exact Hlo|].
      apply Qle_trans with (inject_Z z); [exact Hq|].
      rewrite <- pow2_inject by lia. rewrite <- Zle_Qle. lia. }
    assert (HE : (E <= 0)%Z) by lia.
    pose proof (pow2_pos E) as HP.
    assert (HK : inject_Z (z * 2 ^ (- E)) == inject_Z z / 2 ^ E).
    { rewrite inject_Z_mult, pow2_inject by lia. rewrite Qpower_opp. field.
      intros H. rewrite H in HP. lra. }
    assert (Hr : (round_half_even (q / 2 ^ E) <= z * 2 ^ (- E))%Z).
    { apply round_half_even_le. rewrite HK.
      apply Qmult_le_compat_r; [exact Hq|]. apply Qinv_le_0_compat. lra. }
    assert (Hr0 : (0 <= round_half_even (q / 2 ^ E))%Z).
    { apply round_half_even_ge. change (inject_Z 0) with 0.
      apply Qle_shift_div_l; [exact HP | lra]. }
    set (r := round_half_even (q / 2 ^ E)) in *.
    assert (Hv : inject_Z r * 2 ^ E <= inject_Z z).
    { apply Qle_trans with (inject_Z (z * 2 ^ (- E)) * 2 ^ E).
      - apply Qmult_le_compat_r; [rewrite <- Zle_Qle; exact Hr | lra].
      - rewrite HK. apply Qle_lteq. right. field. intros H. rewrite H in HP. lra. }
    assert (Hv0 : 0 <= inject_Z r * 2 ^ E).
    { apply Qmult_le_0_compat; [|lra]. change 0 with (inject_Z 0). rewrite <- Zle_Qle. exact Hr0. }
    destruct (Qle_bool (2 ^ 1024) _) eqn:Hov.
    { apply Qle_bool_iff in Hov. rewrite Qabs_pos in Hov by exact Hv0.
      assert (inject_Z z <= 2 ^ 32) by (rewrite <- pow2_inject by lia; rewrite <- Zle_Qle; lia).
      assert (2 ^ 32 < 2 ^ 1024) by reflexivity. lra. }
    rewrite Qred_correct. exact Hv.
  - pose proof (round64_nonpos q Hneg) as H.
    destruct (round64 q) as [v| | |]; try exact H. lra.
Qed.

End Rounding.

(** ** The percentile, as the source computes it *)

Section Percentile.
Import JsNum Stats Binary64.
Local Open Scope Q_scope.
Local Open Scope list_scope.

(** Rounding does not cross a natural number of at most 2^32. *)
Lemma round64_ge_int q (z : Z) :
  inject_Z z <= q -> (0 <= z <= 2 ^ 32)%Z ->
  match round64 q with Fin v => inject_Z z <= v | PosInf => True | _ => False end.
Proof.
  intros Hq Hz.
  assert (Hz0 : 0 <= inject_Z z) by (change 0 with (inject_Z 0); rewrite <- Zle_Qle; lia).
  destruct (Z.eq_dec z 0%Z) as [->|Hnz].
  { apply round64_nonneg. exact Hq. }
  assert (Hz1 : 1 <= inject_Z z) by (change 1 with (inject_Z 1); rewrite <- Zle_Qle; lia).
  assert (Hpos : 0 < q) by lra.
  destruct (ilog2_spec (Qabs q)) as [Hlo Hup]; [rewrite Qabs_pos; lra|].
  unfold round64. destruct (Qeq_bool q 0) eqn:Hq0; [apply Qeq_bool_iff in Hq0; lra|].
  cbv zeta. set (e := ilog2 (Qabs q)) in *. set (E := Z.max (e - 52) (-1074)).
  rewrite Qabs_pos in Hlo, Hup by lra.
  pose proof (pow2_pos E) as HP.
  destruct (Qle_bool (2 ^ 1024) _) eqn:Hov.
  { rewrite (proj2 (Qle_bool_iff 0 q)) by lra. exact I. }
  rewrite Qred_correct.
  set (r := round_half_even (q / 2 ^ E)).
  destruct (Z_le_gt_dec E 0%Z) as [HE|HE].
  - assert (HK : inject_Z (z * 2 ^ (- E)) == inject_Z z / 2 ^ E).
    { rewrite inject_Z_mult, pow2_inject by lia. rewrite Qpower_opp. field.
      intros H. rewrite H in HP. lra. }
    assert (Hr : (z * 2 ^ (- E) <= r)%Z).
    { apply round_half_even_ge. rewrite HK.
      apply Qmult_le_compat_r; [exact Hq|]. apply Qinv_le_0_compat. lra. }
    apply Qle_trans with (inject_Z (z * 2 ^ (- E)) * 2 ^ E).
    + rewrite HK. apply Qle_lteq. right. field. intros H. rewrite H in HP. lra.
    + apply Qmult_le_compat_r; [rewrite <- Zle_Qle; exact Hr | lra].
  - assert (EE : E = (e - 52)%Z) by lia.
    assert (Hr : (2 ^ 52 <= r)%Z).
    { apply round_half_even_ge. rewrite pow2_inject by lia.
      apply Qle_shift_div_l; [exact HP|]. rewrite <- pow2_add.
      replace (52 + E)%Z with e by lia. exact Hlo. }
    apply Qle_trans with (2 ^ 32).
    { rewrite <- pow2_inject by lia. rewrite <- Zle_Qle. lia. }
    apply Qle_trans with (inject_Z (2 ^ 52) * 2 ^ E).
    + rewrite pow2_inject by lia. rewrite <- pow2_add. apply pow2_le. lia.
    + apply Qmult_le_compat_r; [rewrite <- Zle_Qle; exact Hr | lra].
Qed.

(** A natural number below 2^32 is a number of the format. *)
Lemma round64_int (z : Z) : (0 <= z <= 2 ^ 32)%Z ->
  exists v, round64 (inject_Z z) = Fin v /\ v == inject_Z z.
Proof.
  intros Hz.
  pose proof (round64_le_int (inject_Z z) z (Qle_refl _) Hz) as H1.
  pose proof (round64_ge_int (inject_Z z) z (Qle_refl _) Hz) as H2.
  destruct (round64 (inject_Z z)) as [v| | |]; try contradiction.
  exists v. split; [reflexivity|]. apply Qle_antisym; assumption.
Qed.

Lemma round64_exact_int q (z : Z) :
  q == inject_Z z -> (0 <= z <= 2 ^ 32)%Z ->
  exists v, round64 q = Fin v /\ v == inject_Z z.
Proof.
  intros Hq Hz.
  assert (H1 := round64_le_int q z). assert (H2 := round64_ge_int q z).
  destruct (round64 q) as [v| | |].
  - exists v. split; [reflexivity|]. apply Qle_antisym; [apply H1 | apply H2]; first [exact Hz | rewrite Hq; apply Qle_refl].
  - exfalso. apply H1; [rewrite Hq; apply Qle_refl | exact Hz].
  - exfalso. apply H2; [rewrite Hq; apply Qle_refl | exact Hz].
  - exfalso. apply H1; [rewrite Hq; apply Qle_refl | exact Hz].
Qed.

Lemma of_nat_nonneg (n : nat) : 0 <= inject_Z (Z.of_nat n).
Proof. change 0 with (inject_Z 0). rewrite <- Zle_Qle. lia. Qed.

(** For [p <= 100] the rank is an integer of at most [n - 1], or it is not
    positive. *)
Lemma percentile_rank_cases p (n : nat) :
  p <= 100 -> (0 < Z.of_nat n < 2 ^ 32)%Z ->
  match Rounded.percentile_rank p n with
  | Fin v => v <= 0 \/ exists i : Z, v == inject_Z i /\ (0 < i <= Z.of_nat n - 1)%Z
  | NegInf => True
  | _ => False
  end.
Proof.
  intros Hp Hn. unfold Rounded.percentile_rank.
  pose proof (of_nat_nonneg n) as Hn0.
  assert (Hn1 : 0 < inject_Z (Z.of_nat n)) by (change 0 with (inject_Z 0); rewrite <- Zlt_Qlt; lia).
  change (Binary64.div (Fin p) (Fin 100)) with (round64 (p / 100)).
  assert (H1 : p / 100 <= 1) by (apply Qle_shift_div_r; [reflexivity | lra]).
  change 1 with (inject_Z 1) in H1. apply round64_le_int in H1; [|lia].
  destruct (round64 (p / 100)) as [a| | |]; try contradiction.
  - change (Binary64.mul (Fin a) (of_nat n)) with (round64 (a * inject_Z (Z.of_nat n))).
    assert (H2 : a * inject_Z (Z.of_nat n) <= inject_Z (Z.of_nat n)).
    { change (inject_Z 1) with 1 in H1. nra. }
    apply round64_le_int in H2; [|lia].
    destruct (round64 (a * inject_Z (Z.of_nat n))) as [b| | |]; try contradiction.
    + cbn [Math_ceil].
      change (Binary64.sub (Fin (inject_Z (Qceiling b))) (Fin 1))
        with (round64 (inject_Z (Qceiling b) + - 1)).
      assert (Hc : (Qceiling b <= Z.of_nat n)%Z).
      { rewrite <- (Qceiling_Z (Z.of_nat n)). apply Qceiling_resp_le, H2. }
      assert (Eq : inject_Z (Qceiling b) + - 1 == inject_Z (Qceiling b - 1)).
      { unfold Z.sub. rewrite inject_Z_plus. reflexivity. }
      destruct (Z_le_gt_dec (Qceiling b - 1) 0%Z) as [Hle|Hgt].
      * assert (Hq : inject_Z (Qceiling b) + - 1 <= 0).
        { rewrite Eq. change 0 with (inject_Z 0). rewrite <- Zle_Qle. exact Hle. }
        apply round64_nonpos in Hq.
        destruct (round64 _) as [v| | |]; try contradiction; [left; exact Hq | exact I].
      * destruct (round64_exact_int _ (Qceiling b - 1) Eq) as (v & -> & Hv); [lia|].
        right. exists (Qceiling b - 1)%Z. split; [exact Hv | lia].
    + exact I.
  - assert (E : Binary64.mul NegInf (of_nat n) = NegInf).
    { unfold Binary64.mul, JsNum.mul, of_nat. cbn [sign_of]. unfold Qsign.
      rewrite (proj1 (Qgt_alt _ _) Hn1). reflexivity. }
    rewrite E. exact I.
Qed.

(** Claim C4, as amended.  For every percentile [p] of at most 100 (negative
    ones included) and every array (an array has fewer than 2^32 elements)
    both [calculatePercentile] functions return the nearest-rank percentile:
    0 on the empty list, else the element of a sorted permutation of the
    values at the rank [Math.ceil((p / 100) * n) - 1], clamped to
    [0 .. n - 1].  The rank is the one the source computes, with the
    quotient, the product and the difference rounded to binary64. *)
Theorem C4_percentile_nearest_rank (values : list Q) (p : Q) :
  p <= 100 -> (Z.of_nat (length values) < 2 ^ 32)%Z ->
  Rounded.calculatePercentile values p = Some (Rounded.nearest_rank values p) /\
  fst (Rounded.MetricsAggregator_calculatePercentile values p)
  = Some (Rounded.nearest_rank values p) /\
  Sorted Qle (sort_ascending values) /\
  Permutation (sort_ascending values) values.
Proof.
  intros Hp Hlen.
  assert (Hfst : fst (Rounded.MetricsAggregator_calculatePercentile values p)
                 = Rounded.calculatePercentile values p).
  { unfold Rounded.MetricsAggregator_calculatePercentile, Rounded.calculatePercentile.
    case_bool_decide; reflexivity. }
  rewrite Hfst.
  assert (Hmain : Rounded.calculatePercentile values p = Some (Rounded.nearest_rank values p)).
  { unfold Rounded.calculatePercentile, Rounded.nearest_rank.
    destruct values as [|x values]; [reflexivity|].
    rewrite bool_decide_eq_false_2 by (simpl; lia). cbv zeta.
    set (l := x :: values) in *.
    assert (Hsl : length (sort_ascending l) = length l).
    { unfold sort_ascending. apply Permutation_length, Array_sort_Permutation. }
    rewrite Hsl.
    assert (Hn : (0 < Z.of_nat (length l) < 2 ^ 32)%Z) by (unfold l in *; simpl in *; lia).
    pose proof (percentile_rank_cases p (length l) Hp Hn) as Hr.
    assert (Hat : forall i : nat, (i < length l)%nat ->
              sort_ascending l !! i = Some (nth i (sort_ascending l) 0)).
    { intros i Hi. destruct (nth_lookup_or_length (sort_ascending l) i 0) as [E|E]; [exact E|].
      rewrite Hsl in E. lia. }
    destruct (Rounded.percentile_rank p (length l)) as [v| | |]; try contradiction.
    - destruct Hr as [Hv | (i & Hv & Hi)].
      + assert (Hmax : JsMath.max (Fin 0) (Fin v) = Fin 0).
        { unfold JsMath.max, ltb. destruct (0 ?= v) eqn:E; try reflexivity.
          apply Qlt_alt in E. lra. }
        rewrite Hmax. cbn [index_by_number]. change (Qfloor 0) with 0%Z.
        change (Qeq_bool 0 (inject_Z 0) && Qle_bool 0 0) with true. cbv iota.
        unfold Rounded.clamp.
        assert (Qfloor v <= 0)%Z.
        { rewrite <- (Qfloor_Z 0). apply Qfloor_resp_le. exact Hv. }
        rewrite Z.max_l, Z.min_r by lia. apply Hat. lia.
      + assert (Hpos : 0 < v).
        { rewrite Hv. change 0 with (inject_Z 0). rewrite <- Zlt_Qlt. lia. }
        assert (Hmax : JsMath.max (Fin 0) (Fin v) = Fin v).
        { unfold JsMath.max, ltb. rewrite (proj1 (Qlt_alt _ _) Hpos). reflexivity. }
        rewrite Hmax. cbn [index_by_number].
        assert (Hfl : Qfloor v = i) by (rewrite (Qfloor_comp _ _ Hv); apply Qfloor_Z).
        rewrite Hfl.
        rewrite (proj2 (Qeq_bool_iff _ _) Hv), (proj2 (Qle_bool_iff 0 v)) by lra.
        cbn [andb]. unfold Rounded.clamp. rewrite Hfl.
        rewrite Z.max_r, Z.min_r by lia. apply Hat. lia.
    - change (JsMath.max (Fin 0) NegInf) with (Fin 0). cbn [index_by_number].
      change (Qfloor 0) with 0%Z.
      change (Qeq_bool 0 (inject_Z 0) && Qle_bool 0 0) with true. cbv iota.
      unfold Rounded.clamp. apply Hat. lia. }
  repeat split; try exact Hmain.
  - apply Sorted_Array_sort. intros a b.
    destruct (Qlt_le_dec a b) as [H|H]; [left; apply Qlt_le_weak, H | right; exact H].
  - apply Array_sort_Permutation.
Qed.

Lemma C4_percentile_nearest_rank_witness :
  Rounded.calculatePercentile [3; 1; 2] 50 = Some 2.
Proof.
  destruct (C4_percentile_nearest_rank [3; 1; 2] 50) as [H _].
  - vm_compute. discriminate.
  - reflexivity.
  - rewrite H. vm_compute. reflexivity.
Defined.

(** Above 100 the rank is past the end of the array: the percentile 200 of
    [1, 2] is [undefined], not the clamped element.  The rounding shows at
    [p = 28] on the values 1 .. 25: [0.28 * 25] is a little more than 7 in
    binary64, so the source returns the eighth value where the exact rank
    gives the seventh. *)
Lemma C4_percentile_above_100 :
  (Rounded.calculatePercentile [1; 2] 200 = None /\
   Rounded.calculatePercentile [1; 2] 200 <> Some (percentile_spec [1; 2] 200)) /\
  (Rounded.calculatePercentile Rounded.one_to_25 28 = Some 8 /\
   percentile_spec Rounded.one_to_25 28 = 7).
Proof.
  split; split; try (vm_compute; reflexivity). vm_compute. discriminate.
Qed.

End Percentile.

(** ** Trends *)

Section Trends.
Import JsNum Stats Binary64.
Local Open Scope Q_scope.
Local Open Scope list_scope.

Lemma add_bounds x y :
  0 <= x -> 0 <= y -> x + y <= 2 ^ 1023 ->
  exists s, Binary64.add (Fin x) (Fin y) = Fin s /\ 0 <= s /\
            (x + y) - (eps * (x + y) + eta) <= s /\ s <= (x + y) + (eps * (x + y) + eta).
Proof.
  intros Hx Hy Hb. change (Binary64.add (Fin x) (Fin y)) with (round64 (x + y)).
  destruct (round64_within (x + y) (x + y)) as (s & E & H1 & H2); [lra | lra | exact Hb |].
  pose proof (round64_nonneg (x + y)) as H0. rewrite E in H0.
  exists s. split; [exact E|]. split; [apply H0; lra|]. split; assumption.
Qed.

Lemma div3_bounds x :
  0 <= x -> x <= 2 ^ 1023 ->
  exists a, Binary64.div (Fin x) (of_nat 3) = Fin a /\ 0 <= a /\
            x / 3 - (eps * (x / 3) + eta) <= a /\ a <= x / 3 + (eps * (x / 3) + eta).
Proof.
  intros Hx Hb. change (Binary64.div (Fin x) (of_nat 3)) with (round64 (x / 3)).
  assert (H3 : 0 <= x / 3) by (apply Qle_shift_div_l; [reflexivity | lra]).
  assert (H4 : x / 3 <= x) by (apply Qle_shift_div_r; [reflexivity | lra]).
  destruct (round64_within (x / 3) (x / 3)) as (s & E & H1 & H2); [lra | lra | lra |].
  pose proof (round64_nonneg (x / 3)) as H0. rewrite E in H0.
  exists s. split; [exact E|]. split; [apply H0; lra|]. split; assumption.
Qed.

(** The average of three values in range, as computed, against their exact
    average. *)
Lemma average3_bounds v1 v2 v3 :
  0 <= v1 <= sample_max -> 0 <= v2 <= sample_max -> 0 <= v3 <= sample_max ->
  exists a, calculateAverage [Fin v1; Fin v2; Fin v3] = Fin a /\ 0 <= a /\
            (v1 + v2 + v3) / 3 - (5 * eps * ((v1 + v2 + v3) / 3) + 5 * eta) <= a /\
            a <= (v1 + v2 + v3) / 3 + (5 * eps * ((v1 + v2 + v3) / 3) + 5 * eta).
Proof.
  intros H1 H2 H3.
  assert (Htop : sample_max * 4 <= 2 ^ 1023) by (apply Qle_bool_iff; vm_compute; reflexivity).
  assert (HT : 1 <= sample_max) by (apply Qle_bool_iff; vm_compute; reflexivity).
  assert (He : eps == 1 # 9007199254740992) by reflexivity.
  assert (Ht : 0 < eta /\ eta <= 1)
    by (split; [apply pow2_pos | apply Qle_bool_iff; vm_compute; reflexivity]).
  unfold calculateAverage. rewrite bool_decide_eq_false_2 by (simpl; lia).
  unfold Binary64.sum. cbn [fold_left length].
  destruct (add_bounds 0 v1) as (s0 & -> & P0 & L0 & U0); [lra | lra | lra |].
  rewrite He in L0, U0.
  destruct (add_bounds s0 v2) as (s1 & -> & P1 & L1 & U1); [lra | lra | lra |].
  rewrite He in L1, U1.
  destruct (add_bounds s1 v3) as (s2 & -> & P2 & L2 & U2); [lra | lra | lra |].
  rewrite He in L2, U2.
  destruct (div3_bounds s2) as (a & -> & P3 & L3 & U3); [lra | lra |].
  rewrite He in L3, U3.
  exists a. split; [reflexivity|]. split; [exact P3|].
  assert (E3 : s2 / 3 == s2 * (1 # 3)) by field.
  assert (Em : (v1 + v2 + v3) / 3 == (v1 + v2 + v3) * (1 # 3)) by field.
  rewrite E3 in L3, U3. rewrite Em, He. clear Em E3 He.
  split; lra.
Qed.

Lemma mul_bounds x c :
  0 <= x -> 0 <= c -> x * c <= 2 ^ 1023 ->
  exists s, Binary64.mul (Fin x) (Fin c) = Fin s /\ 0 <= s /\
            x * c - (eps * (x * c) + eta) <= s /\ s <= x * c + (eps * (x * c) + eta).
Proof.
  intros Hx Hc Hb. change (Binary64.mul (Fin x) (Fin c)) with (round64 (x * c)).
  assert (H0 : 0 <= x * c) by (apply Qmult_le_0_compat; assumption).
  destruct (round64_within (x * c) (x * c)) as (s & E & H1 & H2); [lra | lra | exact Hb |].
  pose proof (round64_nonneg (x * c) H0) as Hs. rewrite E in Hs.
  exists s. split; [exact E|]. split; [exact Hs|]. split; assumption.
Qed.

Lemma historical_direction Math_sqrt Math_pow (v1 v2 v3 v4 v5 v6 : Q) :
  trend_direction (calculateTrend Math_sqrt Math_pow [v1; v2; v3; v4; v5; v6]) =
    let firstAvg := calculateAverage [Fin v1; Fin v2; Fin v3] in
    let secondAvg := calculateAverage [Fin v4; Fin v5; Fin v6] in
    let change := Binary64.div (Binary64.sub secondAvg firstAvg) firstAvg in
    if gtb change (Binary64.literal 0.1) then increasing
    else if ltb change (opp (Binary64.literal 0.1)) then decreasing else stable.
Proof. reflexivity. Qed.

Lemma failure_direction (d1 d2 d3 d4 d5 d6 : FailureSample) :
  calculateFailureTrend [d1; d2; d3; d4; d5; d6] =
    let firstAvg := calculateAverage [failure_rate d1; failure_rate d2; failure_rate d3] in
    let secondAvg := calculateAverage [failure_rate d4; failure_rate d5; failure_rate d6] in
    if gtb secondAvg (Binary64.mul firstAvg (Binary64.literal 1.1)) then increasing
    else if ltb secondAvg (Binary64.mul firstAvg (Binary64.literal 0.9)) then decreasing
    else stable.
Proof. reflexivity. Qed.

(** The two averages of six values in range, and the bounds used below. *)
Lemma half_averages (v1 v2 v3 v4 v5 v6 : Q) :
  Forall (fun v => 0 <= v <= sample_max) [v1; v2; v3; v4; v5; v6] ->
  exists a1 a2,
    calculateAverage [Fin v1; Fin v2; Fin v3] = Fin a1 /\
    calculateAverage [Fin v4; Fin v5; Fin v6] = Fin a2 /\
    0 <= a1 /\ 0 <= a2 /\
    (v1 + v2 + v3) / 3 <= sample_max /\
    0 <= (v4 + v5 + v6) / 3 /\ (v4 + v5 + v6) / 3 <= sample_max /\
    (v1 + v2 + v3) / 3
      - ((5 # 9007199254740992) * ((v1 + v2 + v3) / 3) + 5 * eta) <= a1 /\
    a1 <= (v1 + v2 + v3) / 3
      + ((5 # 9007199254740992) * ((v1 + v2 + v3) / 3) + 5 * eta) /\
    (v4 + v5 + v6) / 3
      - ((5 # 9007199254740992) * ((v4 + v5 + v6) / 3) + 5 * eta) <= a2 /\
    a2 <= (v4 + v5 + v6) / 3
      + ((5 # 9007199254740992) * ((v4 + v5 + v6) / 3) + 5 * eta).
Proof.
  intros range. repeat (apply Forall_cons_iff in range as [? range]).
  destruct (average3_bounds v1 v2 v3) as (a1 & E1 & P1 & L1 & U1); try assumption.
  destruct (average3_bounds v4 v5 v6) as (a2 & E2 & P2 & L2 & U2); try assumption.
  assert (He : 5 * eps == 5 # 9007199254740992) by reflexivity.
  rewrite He in L1, U1, L2, U2.
  exists a1, a2. repeat split; try assumption.
  - apply Qle_shift_div_r; [reflexivity | lra].
  - apply Qle_shift_div_l; [reflexivity | lra].
  - apply Qle_shift_div_r; [reflexivity | lra].
Qed.

Section Thresholds.
Variables v1 v2 v3 v4 v5 v6 : Q.
Let first := (v1 + v2 + v3) / 3.
Let second := (v4 + v5 + v6) / 3.
Hypothesis range : Forall (fun v => 0 <= v <= sample_max) [v1; v2; v3; v4; v5; v6].
Hypothesis positive : sample_min <= first.

Lemma failure_bands (d1 d2 d3 d4 d5 d6 : FailureSample) :
  Forall2 (fun d v => failure_rate d = Fin v)
    [d1; d2; d3; d4; d5; d6] [v1; v2; v3; v4; v5; v6] ->
  (first * 1.100001 <= second ->
     calculateFailureTrend [d1; d2; d3; d4; d5; d6] = increasing) /\
  (second <= first * 0.899999 ->
     calculateFailureTrend [d1; d2; d3; d4; d5; d6] = decreasing) /\
  (first * 0.900001 <= second -> second <= first * 1.099999 ->
     calculateFailureTrend [d1; d2; d3; d4; d5; d6] = stable).
Proof.
  intros Hrates. rewrite failure_direction.
  repeat (apply Forall2_cons_1 in Hrates as [-> Hrates]). clear Hrates.
  destruct (half_averages v1 v2 v3 v4 v5 v6 range)
    as (a1 & a2 & -> & -> & P1 & P2 & Hf & Hs0 & Hs & L1 & U1 & L2 & U2).
  fold first in Hf, L1, U1. fold second in Hs0, Hs, L2, U2.
  assert (Htop : sample_max * 4 <= 2 ^ 1023) by (apply Qle_bool_iff; vm_compute; reflexivity).
  assert (HT : 1 <= sample_max) by (apply Qle_bool_iff; vm_compute; reflexivity).
  assert (He : eps == 1 # 9007199254740992) by reflexivity.
  assert (Ht : 0 < eta /\ eta * 1000000000000 <= sample_min)
    by (split; [apply pow2_pos | apply Qle_bool_iff; vm_compute; reflexivity]).
  assert (Hb : 0 < sample_min) by apply pow2_pos.
  cbv zeta.
  let c := eval vm_compute in (Binary64.literal 1.1) in change (Binary64.literal 1.1) with c.
  let c := eval vm_compute in (Binary64.literal 0.9) in change (Binary64.literal 0.9) with c.
  destruct (mul_bounds a1 (2476979795053773 # 2251799813685248))
    as (t11 & -> & P11 & L11 & U11); [lra | discriminate | lra |].
  destruct (mul_bounds a1 (8106479329266893 # 9007199254740992))
    as (t09 & -> & P09 & L09 & U09); [lra | discriminate | lra |].
  rewrite He in L11, U11, L09, U09. clear He. unfold gtb.
  split; [|split].
  - intros Hup. rewrite ltb_Fin_true by lra. reflexivity.
  - intros Hdown. rewrite ltb_Fin_false by lra. rewrite ltb_Fin_true by lra. reflexivity.
  - intros Hlo Hhi. rewrite !ltb_Fin_false by lra. reflexivity.
Qed.

Lemma historical_bands Math_sqrt Math_pow :
  (first * 1.100001 <= second ->
     trend_direction (calculateTrend Math_sqrt Math_pow [v1; v2; v3; v4; v5; v6])
       = increasing) /\
  (second <= first * 0.899999 ->
     trend_direction (calculateTrend Math_sqrt Math_pow [v1; v2; v3; v4; v5; v6])
       = decreasing) /\
  (first * 0.900001 <= second -> second <= first * 1.099999 ->
     trend_direction (calculateTrend Math_sqrt Math_pow [v1; v2; v3; v4; v5; v6])
       = stable).
Proof.
  rewrite historical_direction.
  destruct (half_averages v1 v2 v3 v4 v5 v6 range)
    as (a1 & a2 & -> & -> & P1 & P2 & Hf & Hs0 & Hs & L1 & U1 & L2 & U2).
  fold first in Hf, L1, U1. fold second in Hs0, Hs, L2, U2.
  assert (Htop : sample_max * 4 <= 2 ^ 1023) by (apply Qle_bool_iff; vm_compute; reflexivity).
  assert (Hbig : sample_max * 8 <= 2 ^ 1023 * (sample_min * (1 # 2)))
    by (apply Qle_bool_iff; vm_compute; reflexivity).
  assert (HT : 1 <= sample_max) by (apply Qle_bool_iff; vm_compute; reflexivity).
  assert (He : eps == 1 # 9007199254740992) by reflexivity.
  assert (Ht : 0 < eta /\ eta * 1000000000000 <= sample_min)
    by (split; [apply pow2_pos | apply Qle_bool_iff; vm_compute; reflexivity]).
  assert (Ht1 : eta <= 1 # 1000000000000000000)
    by (apply Qle_bool_iff; vm_compute; reflexivity).
  assert (Hb : 0 < sample_min) by apply pow2_pos.
  assert (Ha1 : sample_min * (1 # 2) <= a1) by lra.
  cbv zeta.
  let c := eval vm_compute in (Binary64.literal 0.1) in change (Binary64.literal 0.1) with c.
  cbn [opp].
  change (Binary64.sub (Fin a2) (Fin a1)) with (round64 (a2 + - a1)).
  destruct (round64_within (a2 + - a1) (a1 + a2)) as (d & -> & Ld & Ud); [lra | lra | lra |].
  rewrite He in Ld, Ud.
  unfold Binary64.div. rewrite div_Fin by lra. cbn [rnd].
  assert (Hbound : 2 ^ 1023 * (sample_min * (1 # 2)) <= 2 ^ 1023 * a1).
  { apply Qmult_le_l; [apply pow2_pos | exact Ha1]. }
  assert (Hx1 : d / a1 <= 2 ^ 1023).
  { apply Qle_shift_div_r; [lra|]. lra. }
  assert (Hx2 : - 2 ^ 1023 <= d / a1).
  { apply Qle_shift_div_l; [lra|].
    assert (- 2 ^ 1023 * a1 == - (2 ^ 1023 * a1)) by ring. lra. }
  unfold gtb. split; [|split].
  - intros Hup.
    assert (Hx : 1000005 # 10000000 <= d / a1) by (apply Qle_shift_div_l; lra).
    destruct (round64_within (d / a1) (d / a1)) as (c & -> & Lc & Uc); [lra | lra | lra |].
    rewrite He in Lc. rewrite ltb_Fin_true by lra. reflexivity.
  - intros Hdown.
    assert (Hx : d / a1 <= - (1000005 # 10000000)) by (apply Qle_shift_div_r; lra).
    destruct (round64_within (d / a1) (- (d / a1))) as (c & -> & Lc & Uc); [lra | lra | lra |].
    rewrite He in Uc. rewrite ltb_Fin_false by lra. rewrite ltb_Fin_true by lra. reflexivity.
  - intros Hlo Hhi.
    assert (Hx : - (999995 # 10000000) <= d / a1) by (apply Qle_shift_div_l; lra).
    assert (Hx' : d / a1 <= 999995 # 10000000) by (apply Qle_shift_div_r; lra).
    destruct (round64_within (d / a1) 1) as (c & -> & Lc & Uc); [lra | lra | | ].
    { apply Qle_bool_iff. vm_compute. reflexivity. }
    rewrite He in Lc, Uc. rewrite !ltb_Fin_false by lra. reflexivity.
Qed.
End Thresholds.

(** Six values that are all zero: both averages are zero, and the relative
    change [0 / 0] is [NaN], which compares false with everything. *)
Lemma average3_zero v1 v2 v3 :
  v1 == 0 -> v2 == 0 -> v3 == 0 -> calculateAverage [Fin v1; Fin v2; Fin v3] = Fin 0.
Proof.
  intros H1 H2 H3. unfold calculateAverage. rewrite bool_decide_eq_false_2 by (simpl; lia).
  unfold Binary64.sum. cbn [fold_left length].
  change (Binary64.add (Fin 0) (Fin v1)) with (round64 (0 + v1)).
  rewrite (round64_zero (0 + v1)) by lra.
  change (Binary64.add (Fin 0) (Fin v2)) with (round64 (0 + v2)).
  rewrite (round64_zero (0 + v2)) by lra.
  change (Binary64.add (Fin 0) (Fin v3)) with (round64 (0 + v3)).
  rewrite (round64_zero (0 + v3)) by lra.
  reflexivity.
Qed.

(** C6.  Six failure samples whose rates, as [calculateFailureTrend]
    computes them, are six numbers between 0 and 2^300, classified by
    [calculateFailureTrend], and the six numbers classified by
    [calculateTrend] of the historical collector, whatever [Math.sqrt] and
    [Math.pow] return.  When the exact average of the first three numbers is
    at least 2^-300, both functions answer [increasing] if the exact average
    of the last three is at least 1.100001 times it, [decreasing] if it is at
    most 0.899999 times it, and [stable] if it lies between 0.900001 and
    1.099999 times it, whether or not the six numbers are monotone; when
    the six numbers are all zero both answer [stable].  Every operation of
    the source is rounded to binary64; between the bands the answer depends
    on the rounding. *)
Theorem C6_trend_thresholds (Math_sqrt : Q -> Q)
    (Math_pow : jsnum -> jsnum -> jsnum)
    (d1 d2 d3 d4 d5 d6 : FailureSample) (v1 v2 v3 v4 v5 v6 : Q) :
  let data := [d1; d2; d3; d4; d5; d6] in
  let values := [v1; v2; v3; v4; v5; v6] in
  let firstAvg := (v1 + v2 + v3) / 3 in
  let secondAvg := (v4 + v5 + v6) / 3 in
  Forall2 (fun d v => failure_rate d = Fin v) data values ->
  Forall (fun v => 0 <= v <= sample_max) values ->
  (sample_min <= firstAvg ->
     (firstAvg * 1.100001 <= secondAvg ->
        calculateFailureTrend data = increasing /\
        trend_direction (calculateTrend Math_sqrt Math_pow values) = increasing) /\
     (secondAvg <= firstAvg * 0.899999 ->
        calculateFailureTrend data = decreasing /\
        trend_direction (calculateTrend Math_sqrt Math_pow values) = decreasing) /\
     (firstAvg * 0.900001 <= secondAvg -> secondAvg <= firstAvg * 1.099999 ->
        calculateFailureTrend data = stable /\
        trend_direction (calculateTrend Math_sqrt Math_pow values) = stable)) /\
  (Forall (fun v => v == 0) values ->
     calculateFailureTrend data = stable /\
     trend_direction (calculateTrend Math_sqrt Math_pow values) = stable).
Proof.
  intros data values firstAvg secondAvg Hrates Hrange. split.
  - intros Hpos.
    destruct (failure_bands v1 v2 v3 v4 v5 v6 Hrange Hpos d1 d2 d3 d4 d5 d6 Hrates)
      as (F1 & F2 & F3).
    destruct (historical_bands v1 v2 v3 v4 v5 v6 Hrange Hpos Math_sqrt Math_pow)
      as (T1 & T2 & T3).
    split; [|split].
    + intros H. split; [apply F1 | apply T1]; exact H.
    + intros H. split; [apply F2 | apply T2]; exact H.
    + intros H H'. split; [apply F3 | apply T3]; assumption.
  - intros Hzero. unfold data, values.
    rewrite failure_direction, historical_direction.
    repeat (apply Forall2_cons_1 in Hrates as [-> Hrates]). clear Hrates.
    repeat (apply Forall_cons_iff in Hzero as [? Hzero]).
    rewrite !average3_zero by assumption. split; reflexivity.
Qed.

Lemma C6_trend_thresholds_witness :
  calculateFailureTrend rising_samples = increasing /\
  trend_direction (calculateTrend (fun _ => 0) (fun _ _ => NaN) [1; 2; 3; 4; 5; 6])
    = increasing.
Proof.
  refine (proj1 (proj1 (C6_trend_thresholds (fun _ => 0) (fun _ _ => NaN)
    {| BugCount := 1; TotalCount := 100 |} {| BugCount := 2; TotalCount := 100 |}
    {| BugCount := 3; TotalCount := 100 |} {| BugCount := 4; TotalCount := 100 |}
    {| BugCount := 5; TotalCount := 100 |} {| BugCount := 6; TotalCount := 100 |}
    1 2 3 4 5 6 _ _) _) _).
  - repeat constructor; vm_compute; reflexivity.
  - repeat constructor; apply Qle_bool_iff; vm_compute; reflexivity.
  - apply Qle_bool_iff. vm_compute. reflexivity.
  - apply Qle_bool_iff. vm_compute. reflexivity.
Defined.

(** A strictly increasing and a strictly decreasing sequence of six points
    that both functions call stable: 100, 101, .., 105 and its reverse.  The
    averages of the halves differ by less than a tenth.  A flat sequence
    below zero is not stable for [calculateFailureTrend]: the average is
    above 1.1 times itself. *)
Lemma C6_slow_rise_is_stable :
  let up := [100; 101; 102; 103; 104; 105] in
  let down := [105; 104; 103; 102; 101; 100] in
  strictly_increasing up /\ strictly_decreasing down /\
  calculateFailureTrend (samples_of up) = stable /\
  trend_direction (calculateTrend (fun _ => 0) (fun _ _ => NaN) up) = stable /\
  calculateFailureTrend (samples_of down) = stable /\
  trend_direction (calculateTrend (fun _ => 0) (fun _ _ => NaN) down) = stable /\
  calculateFailureTrend (samples_of [-1; -1; -1; -1; -1; -1]) = increasing.
Proof.
  intros up down.
  assert (Hup : strictly_increasing up).
  { intros i x y Hx Hy. unfold up in *.
    do 6 (destruct i as [|i]; [simpl in Hx, Hy; simplify_eq; reflexivity|]).
    destruct i; discriminate. }
  assert (Hdown : strictly_decreasing down).
  { intros i x y Hx Hy. unfold down in *.
    do 6 (destruct i as [|i]; [simpl in Hx, Hy; simplify_eq; reflexivity|]).
    destruct i; discriminate. }
  repeat split; try assumption; vm_compute; reflexivity.
Qed.
End Trends.

(** ** The record store *)

Local Open Scope list_scope.

(** *** The calls in closed form *)

Lemma findIdByKey_spec ns key w :
  findIdByKey ns key w = (Ret (index_lookup w ns key), w).
Proof.
  unfold findIdByKey, try_catch, bind, ret, throw, JSON_parse, indexExists, readIndex,
    index_lookup.
  destruct (indexFile w ns) as [[index|]|] eqn:E; simpl; rewrite ?E; reflexivity.
Qed.

Lemma retrieve_spec env ns keyOrId w :
  retrieve env ns keyOrId w
  = (Ret (live_record env w ns keyOrId), after_retrieve env w ns keyOrId).
Proof.
  unfold retrieve, try_catch, bind at 1. unfold fileExists at 1.
  unfold live_record, after_retrieve, resolve, read_live, after_read.
  case_bool_decide as Hex.
  - destruct Hex as [c Hc]. unfold bind, ret, readFile. rewrite Hc.
    destruct c as [r|]; [|reflexivity]. simpl. unfold expired_at.
    destruct (expiresAt r) as [e|]; [|reflexivity].
    unfold Date_now, unlink. simpl.
    destruct (e <? clock env (tick w)); [|reflexivity].
    simpl. rewrite Hc. reflexivity.
  - unfold bind at 1. rewrite findIdByKey_spec.
    destruct (index_lookup w ns keyOrId) as [name|]; [|reflexivity].
    unfold bind, ret, readFile.
    destruct (files w ns !! name) as [[r|]|] eqn:Hc; try reflexivity.
    simpl. unfold expired_at.
    destruct (expiresAt r) as [e|]; [|reflexivity].
    unfold Date_now, unlink. simpl.
    destruct (e <? clock env (tick w)); [|reflexivity].
    simpl. rewrite Hc. reflexivity.
Qed.

Lemma store_spec env ns key payload meta ttl w :
  valid_time (clock env (S (S (tick w))) + lifetime env ttl) = true ->
  store env ns key payload meta ttl w
  = (Ret (gen_id env key (clock env (tick w))),
     after_store env w ns key payload meta ttl).
Proof.
  intros Hv. unfold store, generateId, bind at 1 2. unfold Date_now at 1. simpl.
  unfold bind at 1. unfold Date_now at 1. simpl.
  assert (E : forall w', tick w' = S (S (tick w)) ->
            match ttl with
            | Some t =>
                if decide (t = 0)
                then (bind (Date_now env) (fun now => toISOString (now + maxCacheAge env)))
                else (bind (Date_now env) (fun now => toISOString (now + t)))
            | None => bind (Date_now env) (fun now => toISOString (now + maxCacheAge env))
            end w'
            = (Ret (clock env (S (S (tick w))) + lifetime env ttl),
               mkWorld (files w') (indexFile w') (S (tick w')))).
  { intros w' Hw'. unfold lifetime in *.
    destruct ttl as [t|]; [destruct (decide (t = 0))|];
      unfold bind, Date_now, toISOString; rewrite Hw', Hv; reflexivity. }
  unfold bind at 1. rewrite E by reflexivity. clear E. simpl.
  unfold after_store, stored_record, gen_id, index_or_empty.
  unfold updateIndex, bind, writeFile, indexExists, writeIndex, ret, try_catch, readIndex, JSON_parse. simpl.
  destruct (indexFile w ns) as [[index|]|] eqn:E; simpl; rewrite ?E; reflexivity.
Qed.

Lemma store_throws env ns key payload meta ttl w :
  valid_time (clock env (S (S (tick w))) + lifetime env ttl) = false ->
  store env ns key payload meta ttl w
  = (Throw RangeError, mkWorld (files w) (indexFile w) (S (S (S (tick w))))).
Proof.
  intros Hv. unfold store, generateId, bind at 1 2. unfold Date_now at 1. simpl.
  unfold bind at 1. unfold Date_now at 1. simpl.
  unfold bind at 1. unfold lifetime in Hv.
  destruct ttl as [t|]; [destruct (decide (t = 0))|];
    unfold bind, Date_now, toISOString; simpl; rewrite Hv; reflexivity.
Qed.

(** *** Reading a file: what changes and what does not *)

Lemma expired_at_mono (now now' : Z) r :
  now <= now' -> expired_at now r = true -> expired_at now' r = true.
Proof.
  unfold expired_at. destruct (expiresAt r) as [e|]; [|done].
  rewrite !Z.ltb_lt. lia.
Qed.

Lemma after_read_tick env w ns name : (tick w <= tick (after_read env w ns name))%nat.
Proof.
  unfold after_read. destruct (files w ns !! name) as [[r|]|]; try lia.
  destruct (expiresAt r); simpl; lia.
Qed.

Lemma after_read_files env w ns name ns' name' c :
  files (after_read env w ns name) ns' !! name' = Some c ->
  files w ns' !! name' = Some c.
Proof.
  unfold after_read. destruct (files w ns !! name) as [[r|]|]; try done.
  destruct (expiresAt r) as [e|]; [|done]. simpl.
  destruct (e <? clock env (tick w)); [|done].
  destruct (decide (ns = ns')) as [->|Hns].
  - rewrite fn_lookup_insert. intros H. apply lookup_delete_Some in H. tauto.
  - rewrite fn_lookup_insert_ne by done. done.
Qed.

Lemma after_read_expired env w ns name r :
  files w ns !! name = Some (Some r) ->
  expired_at (clock env (tick w)) r = true ->
  files (after_read env w ns name) ns !! name = None.
Proof.
  intros Hf He. unfold after_read. rewrite Hf. unfold expired_at in He.
  destruct (expiresAt r) as [e|]; [|done]. rewrite He. simpl.
  rewrite fn_lookup_insert. apply lookup_delete_eq.
Qed.

Lemma after_read_other env w ns name ns' name' :
  (ns, name) <> (ns', name') ->
  files (after_read env w ns name) ns' !! name' = files w ns' !! name'.
Proof.
  intros Hne. unfold after_read. destruct (files w ns !! name) as [[r|]|]; try done.
  destruct (expiresAt r) as [e|]; [|done]. simpl.
  destruct (e <? clock env (tick w)); [|done].
  destruct (decide (ns = ns')) as [->|Hns].
  - rewrite fn_lookup_insert. apply lookup_delete_ne. congruence.
  - rewrite fn_lookup_insert_ne by done. done.
Qed.

Lemma after_read_index env w ns name : indexFile (after_read env w ns name) = indexFile w.
Proof.
  unfold after_read. destruct (files w ns !! name) as [[r|]|]; try done.
  destruct (expiresAt r); done.
Qed.

(** *** The scan of list *)

Lemma list_step_spec env ns filter file w :
  list_step env ns filter file w
  = (Ret (scan_keep env w ns filter file), after_read env w ns file).
Proof.
  unfold list_step, scan_keep, read_live, after_read, try_catch, bind at 1, readFile.
  destruct (files w ns !! file) as [[r|]|] eqn:Hc; try reflexivity.
  unfold bind, JSON_parse, ret, Date_now, unlink, expired_at. simpl.
  destruct (expiresAt r) as [e|]; simpl.
  - destruct (e <? clock env (tick w)); simpl.
    + rewrite Hc. reflexivity.
    + destruct filter as [f|]; [destruct (matches_filter f r)|]; reflexivity.
  - destruct filter as [f|]; [destruct (matches_filter f r)|]; reflexivity.
Qed.

Lemma list_loop_spec env ns filter :
  monotone (clock env) ->
  forall dirents items w,
  exists new w',
    list_loop env ns filter dirents items w = (Ret (items ++ new)%list, w') /\
    (forall r, r ∈ new ->
       expired_at (clock env (tick w)) r = false /\
       exists name, name ∈ dirents /\ files w ns !! name = Some (Some r)) /\
    (forall name r, name ∈ dirents -> files w ns !! name = Some (Some r) ->
       expired_at (clock env (tick w)) r = true -> files w' ns !! name = None) /\
    (forall name c, files w' ns !! name = Some c -> files w ns !! name = Some c) /\
    (tick w <= tick w')%nat.
Proof.
  intros Hmono. induction dirents as [|file rest IH]; intros items w.
  - exists [], w. simpl. rewrite app_nil_r.
    split; [done|]. split; [intros r Hr; by apply elem_of_nil in Hr|].
    split; [intros name r Hn; by apply elem_of_nil in Hn|]. split; [done | lia].
  - simpl. unfold bind at 1. rewrite list_step_spec.
    set (w1 := after_read env w ns file).
    set (kept := scan_keep env w ns filter file).
    destruct (IH (match kept with Some item => items ++ [item] | None => items end) w1)
      as (new & w' & E & Hnew & Hdel & Hsub & Htick).
    pose proof (after_read_tick env w ns file) as Ht1. fold w1 in Ht1.
    assert (Hclk : clock env (tick w) <= clock env (tick w1)) by (apply Hmono; lia).
    assert (Hkeep : forall r, kept = Some r ->
              expired_at (clock env (tick w)) r = false /\ files w ns !! file = Some (Some r)).
    { intros r Hr. unfold kept, scan_keep, read_live in Hr.
      destruct (files w ns !! file) as [[r0|]|]; try done.
      destruct (expired_at (clock env (tick w)) r0) eqn:He; [done|].
      destruct filter as [f|]; [destruct (matches_filter f r0)|]; simplify_eq; done. }
    assert (Hold : forall r, r ∈ new ->
              expired_at (clock env (tick w)) r = false /\
              exists name, name ∈ file :: rest /\ files w ns !! name = Some (Some r)).
    { intros r Hr. destruct (Hnew r Hr) as (He & name & Hin & Hf). split.
      - destruct (expired_at (clock env (tick w)) r) eqn:He'; [|done].
        rewrite (expired_at_mono _ _ r Hclk He') in He. done.
      - exists name. split; [by apply list_elem_of_further|].
        by apply (after_read_files env w ns file). }
    exists (match kept with Some item => item :: new | None => new end), w'.
    split; [|split; [|split; [|split]]].
    + rewrite E. destruct kept; [rewrite <- app_assoc|]; reflexivity.
    + intros r Hr. destruct kept as [item|]; [|by apply Hold].
      apply elem_of_cons in Hr as [->|Hr]; [|by apply Hold].
      destruct (Hkeep item eq_refl) as [He Hf]. split; [done|].
      exists file. split; [apply list_elem_of_here | done].
    + intros name r Hin Hf He.
      destruct (files w1 ns !! name) as [c|] eqn:Hw1.
      * pose proof (after_read_files env w ns file ns name c Hw1) as Hc.
        rewrite Hf in Hc. simplify_eq.
        destruct (decide (name = file)) as [->|Hne].
        { unfold w1 in Hw1. rewrite (after_read_expired env w ns file r Hf He) in Hw1. done. }
        apply (Hdel name r); [|done|by apply (expired_at_mono _ _ r Hclk)].
        apply elem_of_cons in Hin as [?|?]; done.
      * destruct (files w' ns !! name) as [c|] eqn:Hw'; [|done].
        apply Hsub in Hw'. congruence.
    + intros name c Hc. apply (after_read_files env w ns file), Hsub, Hc.
    + lia.
Qed.

Lemma list_records_spec env ns filter w :
  monotone (clock env) ->
  exists items w',
    list_records env ns filter w = (Ret items, w') /\
    (forall r, r ∈ items ->
       expired_at (clock env (tick w)) r = false /\
       exists name, files w ns !! name = Some (Some r)) /\
    (forall name r, files w ns !! name = Some (Some r) ->
       expired_at (clock env (tick w)) r = true -> files w' ns !! name = None) /\
    (forall name c, files w' ns !! name = Some c -> files w ns !! name = Some c).
Proof.
  intros Hmono. unfold list_records, bind at 1, readdir.
  destruct (list_loop_spec env ns filter Hmono (fst <$> map_to_list (files w ns)) [] w)
    as (new & w' & E & Hnew & Hdel & Hsub & _).
  unfold bind at 1. rewrite E. simpl.
  exists (Array_sort (newest_first) new), w'. split; [reflexivity|]. split; [|split].
  - intros r Hr. rewrite Array_sort_Permutation in Hr.
    destruct (Hnew r Hr) as (He & name & _ & Hf). eauto.
  - intros name r Hf He. apply (Hdel name r); [|done|done].
    apply list_elem_of_fmap. exists (name, Some r). split; [done|].
    by apply elem_of_map_to_list.
  - exact Hsub.
Qed.

Lemma retrieve_stored env ns name r w :
  files w ns !! name = Some (Some r) ->
  retrieve env ns name w
  = (Ret (if expired_at (clock env (tick w)) r then None else Some r),
     after_read env w ns name).
Proof.
  intros Hf. rewrite retrieve_spec. unfold live_record, after_retrieve, resolve.
  rewrite bool_decide_eq_true_2 by (rewrite Hf; eauto).
  unfold read_live. rewrite Hf. reflexivity.
Qed.

Lemma store_inv env ns key payload meta ttl w id1 w1 :
  store env ns key payload meta ttl w = (Ret id1, w1) ->
  valid_time (clock env (S (S (tick w))) + lifetime env ttl) = true /\
  id1 = gen_id env key (clock env (tick w)) /\
  w1 = after_store env w ns key payload meta ttl.
Proof.
  intros H. destruct (valid_time (clock env (S (S (tick w))) + lifetime env ttl)) eqn:Hv.
  - rewrite store_spec in H by done. by simplify_eq.
  - rewrite store_throws in H by done. discriminate.
Qed.

(** Claim C1, as amended.  With a clock that never runs backwards, in every
    namespace: [retrieve] of an ordinary identifier never throws, a record
    it returns has not expired at the instant the call read, and when the
    file it resolves holds an expired record the call returns nothing and
    the file is gone; [list] returns only records that have not expired,
    and deletes every record that had expired when it was called; a record
    stored with a ttl [T] other than zero is returned by its id exactly as
    long as the clock has not passed the instant read by [store] plus [T];
    and a ttl of zero counts as no ttl: the call is the one without ttl, so
    the default lifetime applies. *)
Theorem C1_expired_records_are_not_returned (env : Env) (w : World) (ns : StoredType) :
  monotone (clock env) ->
  (forall keyOrId, plain_lookup w ns keyOrId ->
   exists found w',
     retrieve env ns keyOrId w = (Ret found, w') /\
     (forall r, found = Some r -> expired_at (clock env (tick w)) r = false) /\
     (forall name r,
        resolve w ns keyOrId = Some name -> files w ns !! name = Some (Some r) ->
        expired_at (clock env (tick w)) r = true ->
        found = None /\ files w' ns !! name = None)) /\
  (forall filter, exists items w',
     list_records env ns filter w = (Ret items, w') /\
     (forall r, r ∈ items -> expired_at (clock env (tick w)) r = false) /\
     (forall name r,
        files w ns !! name = Some (Some r) ->
        expired_at (clock env (tick w)) r = true ->
        files w' ns !! name = None /\ r ∉ items)) /\
  (forall key payload meta T id1 w1,
     T <> 0 ->
     store env ns key payload meta (Some T) w = (Ret id1, w1) ->
     exists r,
       data r = payload /\
       expiresAt r = Some (clock env (S (S (tick w))) + T) /\
       forall n,
         fst (retrieve env ns id1 (advance n w1))
         = Ret (if clock env (tick w1 + n) <=? clock env (S (S (tick w))) + T
                then Some r else None)) /\
  (forall key payload meta,
     store env ns key payload meta (Some 0) w = store env ns key payload meta None w).
Proof.
  intros Hmono. split; [|split; [|split]].
  - intros keyOrId _. rewrite retrieve_spec. eexists _, _. split; [reflexivity|]. split.
    + intros r. unfold live_record, read_live.
      destruct (resolve w ns keyOrId) as [name|]; [|done].
      destruct (files w ns !! name) as [[r0|]|]; try done.
      destruct (expired_at (clock env (tick w)) r0) eqn:He; [done|]. by intros [= <-].
    + intros name r Hres Hf He. unfold live_record, after_retrieve, read_live.
      rewrite Hres, Hf, He. split; [done|]. by apply (after_read_expired env w ns name r).
  - intros filter.
    destruct (list_records_spec env ns filter w Hmono) as (items & w' & E & Hlive & Hdel & _).
    exists items, w'. split; [done|]. split.
    + intros r Hr. by apply Hlive.
    + intros name r Hf He. split; [by apply (Hdel name r)|].
      intros Hr. apply Hlive in Hr as [Hr _]. congruence.
  - intros key payload meta T id1 w1 HT Hs.
    apply store_inv in Hs as (Hv & -> & ->).
    assert (HL : lifetime env (Some T) = T) by (unfold lifetime; by rewrite decide_False).
    exists (stored_record env w ns key payload meta (Some T)).
    split; [done|]. split; [unfold stored_record; cbn [expiresAt]; by rewrite HL|].
    intros n.
    rewrite (retrieve_stored env ns _ (stored_record env w ns key payload meta (Some T))).
    + cbn [fst]. unfold expired_at, stored_record. cbn [expiresAt]. rewrite HL.
      unfold advance, after_store. cbn [tick].
      destruct (Z.leb_spec (clock env (S (S (S (tick w))) + n))
                  (clock env (S (S (tick w))) + T)) as [H|H].
      * rewrite (proj2 (Z.ltb_ge _ _)) by lia. reflexivity.
      * rewrite (proj2 (Z.ltb_lt _ _)) by lia. reflexivity.
    + simpl. rewrite fn_lookup_insert. apply lookup_insert_eq.
  - intros key payload meta. unfold store. by rewrite decide_True.
Qed.

Lemma C1_expired_records_are_not_returned_witness :
  exists r,
    data r = JNum 5 /\
    forall n,
      fst (retrieve (Demo.env0 Demo.ticking) cache "00000144-1700000000000"
             (advance n (snd (store (Demo.env0 Demo.ticking) cache "k" (JNum 5) []
                                (Some 100) Demo.w0))))
      = Ret (if Demo.ticking (3 + n) <=? Demo.ticking 2 + 100 then Some r else None).
Proof.
  assert (Hmono : monotone (clock (Demo.env0 Demo.ticking))).
  { intros a b Hab. unfold Demo.ticking; simpl. unfold Demo.ticking. lia. }
  destruct (C1_expired_records_are_not_returned
              (Demo.env0 Demo.ticking) Demo.w0 cache Hmono) as (_ & _ & Httl & _).
  destruct (Httl "k" (JNum 5) [] 100 "00000144-1700000000000"
              (snd (store (Demo.env0 Demo.ticking) cache "k" (JNum 5) []
                      (Some 100) Demo.w0))) as (r & Hd & _ & Hr).
  - lia.
  - vm_compute. reflexivity.
  - exists r. split; [exact Hd | exact Hr].
Defined.

Lemma C1_zero_ttl_falls_back_to_default :
  let env := Demo.env0 Demo.ticking in
  let stored := store env cache "k" (JNum 5) [] (Some 0) Demo.w0 in
  fst stored = Ret "00000144-1700000000000" /\
  0 < Demo.ticking (tick (snd stored) + 1000) - Demo.ticking 2 /\
  match fst (retrieve env cache "00000144-1700000000000" (advance 1000 (snd stored))) with
  | Ret (Some r) =>
      data r = JNum 5 /\ expiresAt r = Some (Demo.ticking 2 + 24 * 60 * 60 * 1000)
  | _ => False
  end.
Proof. vm_compute. repeat split. Qed.

(** *** Identifiers *)

Lemma append_inj_l (s a b : string) : s +:+ a = s +:+ b -> a = b.
Proof. induction s as [|c s IH]; simpl; [done|]. intros [= H]. auto. Qed.

Lemma gen_id_inj_time env key t1 t2 : gen_id env key t1 = gen_id env key t2 -> t1 = t2.
Proof.
  unfold gen_id. intros H. apply append_inj_l in H.
  apply (append_inj_l "-") in H. by apply (inj pretty) in H.
Qed.

Lemma gen_id_nonempty env key t : gen_id env key t <> EmptyString.
Proof.
  unfold gen_id. destruct (substring 0 8 (md5 env key)); simpl; discriminate.
Qed.

Lemma gen_id_not_proto env key t : gen_id env key t <> "__proto__".
Proof.
  unfold gen_id. generalize (substring 0 8 (md5 env key)). intros s.
  do 9 (destruct s as [|? s]; [simpl; intros [=]; try discriminate|]).
  simpl. intros [= _ _ _ _ _ _ _ _ _ H]. by destruct s.
Qed.

Lemma ordinary_not_proto s : ordinary_name s -> s <> "__proto__".
Proof. intros [_ Hs] ->. apply Hs. set_solver. Qed.

Lemma index_assign_lookup index key id1 :
  key <> "__proto__" -> index_assign index key id1 !! key = Some id1.
Proof.
  intros Hk. unfold index_assign.
  rewrite bool_decide_eq_false_2 by (intros [? _]; done). apply lookup_insert_eq.
Qed.

Lemma index_assign_lookup_ne index key id1 k :
  k <> key -> index_assign index key id1 !! k = index !! k.
Proof.
  intros Hk. unfold index_assign. case_bool_decide; [done|].
  by apply lookup_insert_ne.
Qed.

Lemma index_lookup_after_store env w ns key payload meta ttl :
  key <> "__proto__" ->
  index_lookup (after_store env w ns key payload meta ttl) ns key
  = Some (gen_id env key (clock env (tick w))).
Proof.
  intros Hk. unfold index_lookup, after_store. cbn [indexFile].
  rewrite fn_lookup_insert, index_assign_lookup by done.
  apply decide_False, gen_id_nonempty.
Qed.

(** Claim C3, as amended.  Two calls of [store] under one key return the
    same id exactly when their ids are generated in the same clock
    millisecond, and different ids otherwise.  Unless the key is
    [__proto__], the key index then points at the id of the later call.
    The record of the later call is returned by its id for as long as it has
    not expired, and so is the record of the earlier call by its own id
    when the two ids differ; when they are the same, the later record has
    replaced the earlier one. *)
Theorem C3_two_writes_same_key (env : Env) (w : World) (ns : StoredType) (key : string)
    (d1 d2 : json) (m1 m2 : object) (ttl1 ttl2 : option Z) (n : nat)
    (id1 id2 : string) (w1 w2 : World) :
  store env ns key d1 m1 ttl1 w = (Ret id1, w1) ->
  store env ns key d2 m2 ttl2 (advance n w1) = (Ret id2, w2) ->
  (id1 = id2 <-> clock env (tick w) = clock env (tick w1 + n)) /\
  (key <> "__proto__" ->
   exists index, indexFile w2 ns = Some (Some index) /\ index !! key = Some id2) /\
  exists r1 r2,
    data r1 = d1 /\ id r2 = id2 /\ data r2 = d2 /\
    (forall k,
       fst (retrieve env ns id2 (advance k w2))
       = Ret (if expired_at (clock env (tick w2 + k)) r2 then None else Some r2)) /\
    (id1 <> id2 ->
     id r1 = id1 /\
     forall k,
       fst (retrieve env ns id1 (advance k w2))
       = Ret (if expired_at (clock env (tick w2 + k)) r1 then None else Some r1)).
Proof.
  intros H1 H2.
  apply store_inv in H1 as (_ & -> & ->).
  apply store_inv in H2 as (_ & -> & ->).
  split; [|split].
  - split; [apply gen_id_inj_time | intros E; cbn [tick advance] in *; by rewrite E].
  - intros Hk. eexists. split; [simpl; rewrite fn_lookup_insert; reflexivity|].
    by apply index_assign_lookup.
  - exists (stored_record env w ns key d1 m1 ttl1),
           (stored_record env (advance n (after_store env w ns key d1 m1 ttl1)) ns key d2 m2 ttl2).
    split; [done|]. split; [done|]. split; [done|]. split.
    + intros k.
      rewrite (retrieve_stored env ns _
                 (stored_record env (advance n (after_store env w ns key d1 m1 ttl1)) ns key d2 m2 ttl2));
        [reflexivity|].
      simpl. rewrite !fn_lookup_insert. apply lookup_insert_eq.
    + intros Hne. split; [done|]. intros k.
      rewrite (retrieve_stored env ns _ (stored_record env w ns key d1 m1 ttl1)); [reflexivity|].
      simpl. rewrite !fn_lookup_insert.
      rewrite lookup_insert_ne by (intros E; apply Hne; symmetry; exact E).
      apply lookup_insert_eq.
Qed.

Lemma C3_two_writes_same_key_witness :
  "00000144-1700000000000" <> "00000144-1700000000003".
Proof.
  destruct (C3_two_writes_same_key (Demo.env0 Demo.ticking) Demo.w0 cache "k"
              (JNum 1) (JNum 2) [] [] None None 0
              "00000144-1700000000000" "00000144-1700000000003"
              (snd (store (Demo.env0 Demo.ticking) cache "k" (JNum 1) [] None Demo.w0))
              (snd (store (Demo.env0 Demo.ticking) cache "k" (JNum 2) [] None
                      (advance 0 (snd (store (Demo.env0 Demo.ticking) cache "k"
                                         (JNum 1) [] None Demo.w0))))))
    as [Hiff _].
  - vm_compute. reflexivity.
  - vm_compute. reflexivity.
  - intros E. apply Hiff in E. vm_compute in E. discriminate.
Defined.

Lemma C3_same_millisecond_same_id :
  let env := Demo.env0 Demo.frozen in
  let first := store env cache "k" (JNum 1) [] None Demo.w0 in
  let second := store env cache "k" (JNum 2) [] None (snd first) in
  fst first = Ret "00000144-1700000000000" /\
  fst second = Ret "00000144-1700000000000" /\
  match fst (retrieve env cache "00000144-1700000000000" (snd second)) with
  | Ret (Some r) => data r = JNum 2
  | _ => False
  end.
Proof. vm_compute. repeat split. Qed.

(** *** Objects and sessions *)

Lemma obj_get_set_eq o k v : obj_get (obj_set o k v) k = Some v.
Proof.
  induction o as [|[k' v'] o IH]; simpl.
  - by rewrite decide_True.
  - destruct (decide (k' = k)) as [->|Hne]; simpl.
    + by rewrite decide_True.
    + by rewrite decide_False.
Qed.

Lemma obj_get_set_ne o k v k' : k <> k' -> obj_get (obj_set o k v) k' = obj_get o k'.
Proof.
  intros Hne. induction o as [|[k0 v0] o IH]; simpl.
  - by rewrite decide_False.
  - destruct (decide (k0 = k)) as [->|Hne0]; simpl.
    + by rewrite !decide_False.
    + destruct (decide (k0 = k')); [done | exact IH].
Qed.

Lemma obj_get_app o1 o2 k :
  obj_get (o1 ++ o2) k = match obj_get o1 k with Some v => Some v | None => obj_get o2 k end.
Proof.
  induction o1 as [|[k0 v0] o1 IH]; simpl; [done|].
  destruct (decide (k0 = k)); [done | exact IH].
Qed.

Lemma obj_get_assign a b k :
  obj_get (obj_assign a b) k
  = match obj_get (reverse b) k with Some v => Some v | None => obj_get a k end.
Proof.
  unfold obj_assign. revert a. induction b as [|[k0 v0] b IH]; intros a; simpl; [done|].
  rewrite IH, reverse_cons, obj_get_app.
  destruct (obj_get (reverse b) k); [done|]. simpl.
  destruct (decide (k0 = k)) as [->|Hne].
  - apply obj_get_set_eq.
  - by apply obj_get_set_ne.
Qed.

Lemma updateSession_spec env sessionId updates w :
  updateSession env sessionId updates w
  = let w1 := after_retrieve env w session sessionId in
    match live_record env w session sessionId with
    | None => (Throw (Error ("Session " +:+ sessionId +:+ " not found")), w1)
    | Some s =>
        (Ret tt,
         mkWorld
           (<[session := <[sessionId := Some (merged_session env s updates (clock env (tick w1)))]>
                           (files w1 session)]> (files w1))
           (indexFile w1) (S (tick w1)))
    end.
Proof.
  unfold updateSession, bind at 1. rewrite retrieve_spec. cbv zeta.
  destruct (live_record env w session sessionId) as [s|]; reflexivity.
Qed.

Lemma after_retrieve_files env w ns keyOrId ns' name c :
  files (after_retrieve env w ns keyOrId) ns' !! name = Some c ->
  files w ns' !! name = Some c.
Proof.
  unfold after_retrieve. destruct (resolve w ns keyOrId); [|done].
  apply after_read_files.
Qed.

Lemma after_retrieve_index env w ns keyOrId :
  indexFile (after_retrieve env w ns keyOrId) = indexFile w.
Proof.
  unfold after_retrieve. destruct (resolve w ns keyOrId); [|done].
  apply after_read_index.
Qed.

Lemma after_read_removed env w ns name ns' name' :
  files w ns' !! name' <> None ->
  files (after_read env w ns name) ns' !! name' = None ->
  ns' = ns /\ name' = name /\
  exists r, files w ns !! name = Some (Some r) /\ expired_at (clock env (tick w)) r = true.
Proof.
  intros Hsome Hnone.
  destruct (decide ((ns, name) = (ns', name'))) as [[= <- <-]|Hne].
  - split; [done|]. split; [done|].
    unfold after_read in Hnone.
    destruct (files w ns !! name) as [[r|]|] eqn:Hf; [|congruence..].
    exists r. split; [done|]. unfold expired_at.
    destruct (expiresAt r) as [e|] eqn:Hexp; [|congruence].
    simpl in Hnone. destruct (e <? clock env (tick w)) eqn:He; [done | congruence].
  - rewrite after_read_other in Hnone by done. done.
Qed.




(** *** Datasets *)

Lemma retrieveDataset_loop_spec env : forall chunkIds acc w,
  Forall holds_array (surviving_chunks env w chunkIds) ->
  exists w',
    retrieveDataset_loop env (JStr <$> chunkIds) acc w
    = (Ret (acc ++ concat (chunk_items <$> surviving_chunks env w chunkIds)), w').
Proof.
  induction chunkIds as [|chunkId rest IH]; intros acc w Hall.
  - exists w. simpl. by rewrite app_nil_r.
  - rewrite fmap_cons. cbn [retrieveDataset_loop js_toString surviving_chunks] in *.
    unfold bind at 1. rewrite retrieve_spec.
    destruct (live_record env w cache chunkId) as [chunk|].
    + apply Forall_cons_iff in Hall as [[l Hl] Hall].
      unfold bind at 1. rewrite Hl. cbn [iterate ret fmap list_fmap concat].
      destruct (IH (acc ++ l) _ Hall) as (w' & E). exists w'. rewrite E.
      unfold chunk_items at 2. rewrite Hl, app_assoc. reflexivity.
    + destruct (IH acc _ Hall) as (w' & E). exists w'. exact E.
Qed.

Lemma retrieveDataset_unfold env key w :
  retrieveDataset env key w
  = let w1 := after_retrieve env w cache ("dataset-" +:+ key) in
    match live_record env w cache ("dataset-" +:+ key) with
    | None => (Ret None, w1)
    | Some m =>
        bind (get_chunks (data m)) (fun chunks =>
        bind (iterate chunks) (fun chunkIds =>
        bind (retrieveDataset_loop env chunkIds []) (fun items =>
        ret (Some items)))) w1
    end.
Proof.
  unfold retrieveDataset, bind at 1. rewrite retrieve_spec.
  destruct (live_record env w cache ("dataset-" +:+ key)); reflexivity.
Qed.

Lemma retrieveDataset_not_found env w key :
  fst (retrieveDataset env key w) = Ret None <->
  live_record env w cache ("dataset-" +:+ key) = None.
Proof.
  rewrite retrieveDataset_unfold. cbv zeta.
  destruct (live_record env w cache ("dataset-" +:+ key)) as [m|]; [|done].
  split; [|done]. unfold bind.
  destruct (get_chunks (data m) _) as [[chunks|e] w1]; [|done].
  destruct (iterate chunks w1) as [[chunkIds|e] w2]; [|done].
  destruct (retrieveDataset_loop env chunkIds [] w2) as [[items|e] w3]; done.
Qed.

Lemma retrieveDataset_found env w key manifest fields chunkIds :
  live_record env w cache ("dataset-" +:+ key) = Some manifest ->
  data manifest = JObj fields ->
  obj_get fields "chunks" = Some (JArr (JStr <$> chunkIds)) ->
  Forall holds_array
    (surviving_chunks env (after_retrieve env w cache ("dataset-" +:+ key)) chunkIds) ->
  fst (retrieveDataset env key w)
  = Ret (Some (concat (chunk_items <$>
      surviving_chunks env (after_retrieve env w cache ("dataset-" +:+ key)) chunkIds))).
Proof.
  intros Hlive Hdata Hchunks Hall. rewrite retrieveDataset_unfold. cbv zeta.
  rewrite Hlive, Hdata. unfold bind, get_chunks, ret. rewrite Hchunks. simpl.
  destruct (retrieveDataset_loop_spec env chunkIds [] _ Hall) as (w' & E).
  rewrite E. reflexivity.
Qed.

(** Claim C10.  For a key without path separator and chunk ids that are
    ordinary identifiers, [retrieveDataset] returns not-found exactly when
    no unexpired manifest record resolves for the key; when one does, the
    result is the concatenation, in manifest order, of the chunks that can
    still be read, the missing and expired ones being skipped. *)
Theorem C10_missing_chunks_are_skipped (env : Env) (w : World) (key : string) :
  plain_lookup w cache ("dataset-" +:+ key) ->
  (fst (retrieveDataset env key w) = Ret None <->
   live_record env w cache ("dataset-" +:+ key) = None) /\
  (forall manifest fields chunkIds,
     live_record env w cache ("dataset-" +:+ key) = Some manifest ->
     data manifest = JObj fields ->
     obj_get fields "chunks" = Some (JArr (JStr <$> chunkIds)) ->
     Forall (plain_lookup w cache) chunkIds ->
     let survivors :=
       surviving_chunks env (after_retrieve env w cache ("dataset-" +:+ key)) chunkIds in
     Forall holds_array survivors ->
     fst (retrieveDataset env key w) = Ret (Some (concat (chunk_items <$> survivors)))).
Proof.
  intros _. split; [apply retrieveDataset_not_found|].
  intros manifest fields chunkIds Hlive Hdata Hchunks _ survivors Hall.
  by apply (retrieveDataset_found env w key manifest fields chunkIds).
Qed.

Lemma C10_missing_chunks_are_skipped_witness :
  fst (retrieveDataset (Demo.env0 Demo.ticking) "ds" Demo.dataset_world_without_second_chunk)
  = Ret (Some [JNum 1; JNum 2; JNum 5]).
Proof.
  destruct (C10_missing_chunks_are_skipped (Demo.env0 Demo.ticking)
              Demo.dataset_world_without_second_chunk "ds") as [_ H].
  - refine (bool_decide_unpack _ _). vm_compute. exact I.
  - erewrite (H _ _ ["896914d9-1700000000001"; "896914db-1700000000004";
                     "896914dd-1700000000007"]).
    + vm_compute. reflexivity.
    + vm_compute. reflexivity.
    + reflexivity.
    + vm_compute. reflexivity.
    + refine (bool_decide_unpack _ _). vm_compute. exact I.
    + vm_compute. repeat constructor; eexists; reflexivity.
Defined.

(** *** Storing a dataset and reading it back *)

Lemma hash8_shape env key :
  hex_digest (md5 env key) ->
  exists c1 c2 c3 c4 c5 c6 c7 c8,
    hash8 env key
    = String c1 (String c2 (String c3 (String c4 (String c5 (String c6 (String c7
        (String c8 EmptyString))))))) /\
    is_hex_digit c8 = true.
Proof.
  intros [Hlen Hhex]. unfold hash8.
  destruct (md5 env key) as [|c1 [|c2 [|c3 [|c4 [|c5 [|c6 [|c7 [|c8 s]]]]]]]];
    try discriminate.
  exists c1, c2, c3, c4, c5, c6, c7, c8. split.
  - simpl. by destruct s.
  - simpl in Hhex. repeat (apply Forall_cons_iff in Hhex as [? Hhex]). done.
Qed.

Lemma Forall2_with_elem {A B} (P : A -> B -> Prop) l k :
  Forall2 P l k -> Forall2 (fun x y => y ∈ k /\ P x y) l k.
Proof.
  induction 1 as [|x y l k HP _ IH]; constructor.
  - split; [apply list_elem_of_here | exact HP].
  - eapply Forall2_impl; [|exact IH]. intros a b [Ha Hab].
    split; [by apply list_elem_of_further | exact Hab].
Qed.

Section Dataset.
Variable env : Env.
Hypothesis digests : forall k, hex_digest (md5 env k).

Lemma gen_id_not_manifest_key k t key : gen_id env k t <> "dataset-" +:+ key.
Proof.
  unfold gen_id. fold (hash8 env k).
  destruct (hash8_shape env k (digests k)) as (a1&a2&a3&a4&a5&a6&a7&a8&-> & Hhex).
  simpl. intros [= -> -> -> -> -> -> -> -> _]. vm_compute in Hhex. discriminate.
Qed.

Lemma offsets_concat {A} (data : list A) c : (1 <= c)%nat ->
  forall fuel i, (length data - i < fuel)%nat ->
  concat ((fun j => take c (drop j data)) <$> offsets fuel (length data) c i) = drop i data.
Proof.
  intros Hc. induction fuel as [|fuel IH]; intros i Hf; [lia|].
  simpl. case_bool_decide as Hi.
  - rewrite fmap_cons. simpl. rewrite IH by lia.
    rewrite <- (take_drop c (drop i data)) at 2. by rewrite drop_drop.
  - simpl. symmetry. apply drop_ge. lia.
Qed.

Variables (key : string) (items : list json) (chunkSize : nat) (meta : object).
Hypothesis chunk_positive : (1 <= chunkSize)%nat.
Hypothesis dates_valid : forall t, valid_time (clock env t + maxCacheAge env) = true.

Lemma chunk_ids_generated offs : forall t name,
  name ∈ chunk_ids env key t offs -> exists k now, name = gen_id env k now.
Proof.
  induction offs as [|j offs IH]; intros t name Hin; simpl in Hin.
  - by apply elem_of_nil in Hin.
  - apply elem_of_cons in Hin as [->|Hin]; [eauto | by apply (IH (S (S (S t))))].
Qed.

Lemma chunk_stored_since a b w' j chunkId :
  (a <= b)%nat -> chunk_stored env items chunkSize b w' j chunkId ->
  chunk_stored env items chunkSize a w' j chunkId.
Proof.
  intros Hab (r & t & ? & ? & ? & ?). exists r, t. repeat split; try done. lia.
Qed.

(** The loop returns the ids of [chunk_ids]; it touches no other file; and
    when these ids are pairwise different every chunk is on disk under its
    id when the loop ends. *)
Lemma storeDataset_loop_spec datasetId : forall fuel i chunks w,
  (length items - i < fuel)%nat ->
  exists w',
    storeDataset_loop env fuel key items chunkSize meta datasetId i chunks w
      = (Ret (Some (chunks ++ chunk_ids env key (tick w)
                                (offsets fuel (length items) chunkSize i))), w') /\
    tick w' = (tick w + 3 * length (offsets fuel (length items) chunkSize i))%nat /\
    (forall name,
       name ∉ chunk_ids env key (tick w) (offsets fuel (length items) chunkSize i) ->
       files w' cache !! name = files w cache !! name) /\
    (NoDup (chunk_ids env key (tick w) (offsets fuel (length items) chunkSize i)) ->
     Forall2 (chunk_stored env items chunkSize (tick w) w')
       (offsets fuel (length items) chunkSize i)
       (chunk_ids env key (tick w) (offsets fuel (length items) chunkSize i))).
Proof.
  induction fuel as [|fuel IH]; intros i chunks w Hf; [lia|].
  cbn [storeDataset_loop offsets]. case_bool_decide as Hi.
  - unfold bind at 1. rewrite store_spec by apply dates_valid.
    set (metaI := obj_set _ "totalChunks" _).
    set (w1 := after_store env w cache (chunk_key key i) (JArr (take chunkSize (drop i items)))
                 metaI None).
    set (id1 := gen_id env (chunk_key key i) (clock env (tick w))).
    destruct (IH (i + chunkSize)%nat (chunks ++ [id1]) w1) as (w' & E & Htick & Hframe & Hall);
      [lia|].
    change (tick w1) with (S (S (S (tick w)))) in *.
    set (offs := offsets fuel (length items) chunkSize (i + chunkSize)) in *.
    cbn [chunk_ids]. fold id1. set (ids := chunk_ids env key (S (S (S (tick w)))) offs) in *.
    assert (Hid1 : files w1 cache !! id1
                   = Some (Some (stored_record env w cache (chunk_key key i)
                                   (JArr (take chunkSize (drop i items))) metaI None))).
    { unfold w1, after_store. cbn [files]. rewrite fn_lookup_insert. apply lookup_insert_eq. }
    exists w'. split; [|split; [|split]].
    + fold (chunk_key key i). fold w1. fold id1. rewrite E, <- app_assoc. reflexivity.
    + rewrite Htick. cbn [length]. lia.
    + intros name Hname. apply not_elem_of_cons in Hname as [Hne Hname].
      rewrite Hframe by exact Hname.
      unfold w1, after_store. cbn [files]. rewrite fn_lookup_insert.
      by apply lookup_insert_ne.
    + intros Hnd. apply list.NoDup_cons in Hnd as [Hfresh Hnd]. constructor.
      * eexists _, (S (S (tick w))). split; [|split; [|split]].
        -- rewrite Hframe by exact Hfresh. exact Hid1.
        -- reflexivity.
        -- lia.
        -- reflexivity.
      * eapply Forall2_impl; [|exact (Hall Hnd)]. intros j cid. apply chunk_stored_since. lia.
  - exists w. cbn [chunk_ids length]. rewrite app_nil_r.
    split; [done|]. split; [lia|]. split; [done|]. intros _. constructor.
Qed.

Lemma after_read_live w ns name r :
  files w ns !! name = Some (Some r) ->
  expired_at (clock env (tick w)) r = false ->
  files (after_read env w ns name) = files w.
Proof.
  intros Hf He. unfold after_read. rewrite Hf. unfold expired_at in He.
  destruct (expiresAt r) as [e|]; [|done]. by rewrite He.
Qed.

Lemma surviving_readable : forall js ids w,
  Forall2 (chunk_readable env items chunkSize w) js ids ->
  Forall holds_array (surviving_chunks env w ids) /\
  concat (chunk_items <$> surviving_chunks env w ids)
  = concat ((fun j => take chunkSize (drop j items)) <$> js).
Proof.
  intros js ids w Hall. revert w Hall.
  induction ids as [|chunkId ids IH] in js |- *; intros w Hall.
  - apply Forall2_nil_inv_r in Hall as ->. split; [constructor | reflexivity].
  - apply Forall2_cons_inv_r in Hall as (j & js' & (r & Hf & Hd & He) & Hall & ->).
    cbn [surviving_chunks].
    assert (Hlive : live_record env w cache chunkId = Some r).
    { unfold live_record, resolve, read_live.
      rewrite bool_decide_eq_true_2 by (rewrite Hf; eauto). by rewrite Hf, He. }
    assert (Hfiles : files (after_retrieve env w cache chunkId) = files w).
    { unfold after_retrieve, resolve.
      rewrite bool_decide_eq_true_2 by (rewrite Hf; eauto).
      by apply (after_read_live w cache chunkId r). }
    rewrite Hlive.
    destruct (IH js' (after_retrieve env w cache chunkId)) as [Harr Hcat].
    { eapply Forall2_impl; [|exact Hall]. intros j' id' (r' & ? & ? & ?).
      exists r'. rewrite Hfiles. done. }
    split.
    + constructor; [by eexists | exact Harr].
    + rewrite !fmap_cons. simpl. rewrite Hcat. unfold chunk_items. by rewrite Hd.
Qed.
End Dataset.

(** Claim C2, as amended.  For every key without a path separator, every
    list of items and every chunk size of at least one, [storeDataset]
    returns, and [retrieveDataset] of the same key afterwards, however much
    later, returns exactly the items stored, in order, provided that the
    ids of the records written, chunks and manifest, are pairwise
    different.  The setting: digests are 32 hexadecimal digits; the clock
    never runs backwards and stays within [maxCacheAge] of the first
    reading (nothing expires); expiry dates are valid time values; and
    the cache directory holds no file named [dataset-<key>.json]. *)
Theorem C2_dataset_round_trip (env : Env) (w : World) (key : string)
    (items : list json) (chunkSize : nat) (meta : object) (n : nat) :
  (forall k, hex_digest (md5 env k)) ->
  (1 <= chunkSize)%nat ->
  has_separator key = false ->
  NoDup (dataset_ids env w key (length items) chunkSize) ->
  monotone (clock env) ->
  (forall t, clock env t <= clock env (tick w) + maxCacheAge env) ->
  (forall t, valid_time (clock env t + maxCacheAge env) = true) ->
  files w cache !! ("dataset-" +:+ key) = None ->
  exists datasetId w1,
    storeDataset env key items chunkSize meta w = (Ret (Some datasetId), w1) /\
    fst (retrieveDataset env key (advance n w1)) = Ret (Some items).
Proof.
  intros Hhex Hc _ Hnd Hmono Hfresh Hvalid Habsent.
  unfold storeDataset, generateId, bind at 1 2. unfold Date_now at 1. cbn [ret].
  set (mkey := "dataset-" +:+ key) in *.
  set (wa := mkWorld (files w) (indexFile w) (S (tick w))).
  set (dsid := substring 0 8 (md5 env mkey) +:+ "-" +:+ pretty (clock env (tick w))).
  destruct (storeDataset_loop_spec env key items chunkSize meta Hc Hvalid dsid
              (S (length items)) 0%nat [] wa)
    as (wb & E & Htick & Hframe & Hstored); [lia|].
  change (tick wa) with (S (tick w)) in *.
  unfold dataset_ids in Hnd. cbv zeta in Hnd. rewrite <- Htick in Hnd. fold mkey in Hnd.
  set (offs := offsets (S (length items)) (length items) chunkSize 0) in *.
  set (ids := chunk_ids env key (S (tick w)) offs) in *.
  apply list.NoDup_app in Hnd as (Hnd & Hmk & _).
  specialize (Hstored Hnd).
  unfold bind at 1. rewrite E. cbn [app].
  unfold bind at 1. rewrite store_spec by apply Hvalid.
  set (manifest := manifest_of dsid key (length items) chunkSize ids meta).
  set (rm := stored_record env wb cache mkey manifest meta None).
  set (wc := after_store env wb cache mkey manifest meta None).
  cbn [ret]. eexists _, _. split; [reflexivity|].
  assert (Hmid : forall cid, cid ∈ ids -> cid <> gen_id env mkey (clock env (tick wb))).
  { intros cid Hin ->. apply (Hmk _ Hin). apply list_elem_of_here. }
  assert (Hnofile : files wc cache !! mkey = None).
  { unfold wc, after_store. cbn [files]. rewrite fn_lookup_insert.
    rewrite lookup_insert_ne by apply (gen_id_not_manifest_key env Hhex).
    rewrite Hframe; [exact Habsent|].
    intros Hin. apply chunk_ids_generated in Hin as (k & now & Ek).
    symmetry in Ek. by apply (gen_id_not_manifest_key env Hhex) in Ek. }
  assert (Hclock : forall t (a : nat), (tick w <= a)%nat ->
            clock env t <= clock env a + maxCacheAge env).
  { intros t a Ha. specialize (Hfresh t). specialize (Hmono _ _ Ha). lia. }
  assert (Hrm : forall t, expired_at (clock env t) rm = false).
  { intros t. unfold expired_at, rm, stored_record. cbn [expiresAt lifetime].
    apply Z.ltb_ge, Hclock. lia. }
  assert (Hindex : index_lookup wc cache mkey = Some (gen_id env mkey (clock env (tick wb)))).
  { apply index_lookup_after_store. done. }
  assert (Hrmfile : files wc cache !! gen_id env mkey (clock env (tick wb)) = Some (Some rm)).
  { unfold wc, after_store. cbn [files]. rewrite fn_lookup_insert. apply lookup_insert_eq. }
  set (W := advance n wc).
  assert (Hlive : live_record env W cache mkey = Some rm).
  { unfold live_record, resolve, W, advance. cbn [files].
    rewrite bool_decide_eq_false_2 by (rewrite Hnofile; by intros [? ?]).
    change (index_lookup _ cache mkey) with (index_lookup wc cache mkey). rewrite Hindex.
    unfold read_live. cbn [files]. by rewrite Hrmfile, Hrm. }
  assert (Hfiles : files (after_retrieve env W cache mkey) = files wc).
  { unfold after_retrieve, resolve, W, advance. cbn [files].
    rewrite bool_decide_eq_false_2 by (rewrite Hnofile; by intros [? ?]).
    change (index_lookup _ cache mkey) with (index_lookup wc cache mkey). rewrite Hindex.
    rewrite (after_read_live env _ cache _ rm); [reflexivity | exact Hrmfile | apply Hrm]. }
  assert (Hread : Forall2 (chunk_readable env items chunkSize (after_retrieve env W cache mkey))
                    offs ids).
  { eapply Forall2_impl; [|exact (Forall2_with_elem _ _ _ Hstored)].
    intros j cid (Hin & r & t & Hf & Hd & Ht & He).
    exists r. split; [|split; [done|]].
    - rewrite Hfiles. unfold wc, after_store. cbn [files]. rewrite fn_lookup_insert.
      rewrite lookup_insert_ne; [exact Hf|]. intros E'. by apply (Hmid cid Hin).
    - intros t'. unfold expired_at. rewrite He. apply Z.ltb_ge, Hclock. lia. }
  destruct (surviving_readable env items chunkSize _ _ _ Hread) as [Harr Hcat].
  rewrite (retrieveDataset_found env W key rm _ ids Hlive eq_refl); [| reflexivity | exact Harr].
  fold mkey. rewrite Hcat. unfold offs. rewrite (offsets_concat items chunkSize Hc) by lia.
  reflexivity.
Qed.

Lemma hex_char_is_hex n : is_hex_digit (Demo.hex_char n) = true.
Proof.
  unfold Demo.hex_char. destruct (n mod 16)%N as [|p]; [reflexivity|].
  do 4 (destruct p as [p|p|]; try reflexivity).
Qed.

Lemma toy_md5_hex k : hex_digest (Demo.toy_md5 k).
Proof.
  split; [reflexivity|]. unfold Demo.toy_md5. cbn [list_ascii_of_string].
  repeat (constructor; [first [apply hex_char_is_hex | reflexivity]|]). constructor.
Qed.

Lemma C2_dataset_round_trip_witness :
  exists datasetId w1,
    storeDataset (Demo.env0 Demo.steady) "ds" (JNum <$> [1; 2; 3; 4; 5]) 2 [] Demo.w0
      = (Ret (Some datasetId), w1) /\
    fst (retrieveDataset (Demo.env0 Demo.steady) "ds" (advance 7 w1))
      = Ret (Some (JNum <$> [1; 2; 3; 4; 5])).
Proof.
  apply (C2_dataset_round_trip (Demo.env0 Demo.steady) Demo.w0 "ds"
           (JNum <$> [1; 2; 3; 4; 5]) 2 [] 7).
  - intros k. apply toy_md5_hex.
  - lia.
  - reflexivity.
  - refine (bool_decide_unpack _ _). vm_compute. exact I.
  - intros a b Hab. simpl. unfold Demo.steady. lia.
  - intros t. simpl. unfold Demo.steady. lia.
  - intros t. unfold valid_time. apply Z.leb_le. simpl. unfold Demo.steady. lia.
  - reflexivity.
Defined.

(** The claim as it was stated fails when two of the records written get
    the same id: the eight-item dataset [ds22422721] stored in chunks of
    two within one millisecond comes back with its second chunk replaced
    by a copy of the fourth. *)
Lemma C2_same_id_for_two_chunks :
  let env := Demo.env1 Demo.frozen in
  let items := JNum <$> [0; 1; 2; 3; 4; 5; 6; 7] in
  let stored := storeDataset env "ds22422721" items 2 [] Demo.w0 in
  hash8 env (chunk_key "ds22422721" 2) = hash8 env (chunk_key "ds22422721" 6) /\
  fst stored = Ret (Some "139ffe82-1700000000000") /\
  fst (retrieveDataset env "ds22422721" (snd stored))
  = Ret (Some (JNum <$> [0; 1; 6; 7; 4; 5; 6; 7])) /\
  fst (retrieveDataset env "ds22422721" (snd stored)) <> Ret (Some items).
Proof.
  cbv zeta. split; [vm_compute; reflexivity|]. split; [vm_compute; reflexivity|].
  split; [vm_compute; reflexivity | vm_compute; discriminate].
Qed.

(** * Part III: further properties *)

(** ** Percentiles, medians and averages *)

Section MoreStatistics.
Import JsNum JsMath Stats AdvancedAnalyticsClient.
Local Open Scope Q_scope.
Local Open Scope list_scope.

Lemma Sorted_Qle_lookup (l : list Q) i j x y :
  Sorted Qle l -> (i <= j)%nat -> l !! i = Some x -> l !! j = Some y -> x <= y.
Proof.
  intros HS. apply Sorted_StronglySorted in HS; [|intros a b c; apply Qle_trans].
  revert i j. induction HS as [|a l HS IH Hall]; intros i j Hij Hi Hj; [done|].
  destruct i as [|i], j as [|j]; simpl in *; simplify_eq; try lia.
  - apply Qle_refl.
  - rewrite Forall_forall in Hall. apply Hall, list_elem_of_In, list_elem_of_lookup. eauto.
  - apply (IH i j); [lia | done | done].
Qed.

Lemma percentile_lookup values p :
  values <> [] -> p <= 100 ->
  exists v,
    calculatePercentile values p = Some v /\
    sort_ascending values !! Z.to_nat (percentile_index p (length values)) = Some v.
Proof.
  intros Hne Hp. unfold calculatePercentile.
  rewrite bool_decide_eq_false_2 by (destruct values; [done | simpl; lia]).
  cbv zeta. rewrite sort_ascending_length.
  assert (Hn : (0 < length values)%nat) by (destruct values; [done | simpl; lia]).
  pose proof (percentile_index_bound p (length values) Hp Hn) as Hb.
  pose proof (percentile_index_nonneg p (length values)) as H0.
  destruct (lookup_lt_is_Some_2 (sort_ascending values)
              (Z.to_nat (percentile_index p (length values)))) as [v Hv].
  { rewrite sort_ascending_length. lia. }
  exists v. split; exact Hv.
Qed.

(** X1.  The percentile never decreases with [p]: for [p1 <= p2 <= 100] both
    [calculatePercentile] functions return a value for each, and the one for
    [p1] is at most the one for [p2]. *)
Theorem X1_percentile_monotone (values : list Q) (p1 p2 : Q) :
  p1 <= p2 -> p2 <= 100 ->
  exists a b,
    calculatePercentile values p1 = Some a /\
    calculatePercentile values p2 = Some b /\
    fst (MetricsAggregator_calculatePercentile values p1) = Some a /\
    fst (MetricsAggregator_calculatePercentile values p2) = Some b /\
    a <= b.
Proof.
  intros H12 H2. rewrite !MetricsAggregator_calculatePercentile_value.
  destruct values as [|v values].
  - exists 0, 0. repeat split; try reflexivity. apply Qle_refl.
  - destruct (percentile_lookup (v :: values) p1) as (a & Ea & Ha); [done | lra |].
    destruct (percentile_lookup (v :: values) p2) as (b & Eb & Hb); [done | lra |].
    exists a, b. repeat split; try assumption.
    pose proof (percentile_index_mono p1 p2 (length (v :: values)) H12) as Hm.
    pose proof (percentile_index_nonneg p1 (length (v :: values))) as H0.
    eapply (Sorted_Qle_lookup _ _ _ a b (sort_ascending_sorted (v :: values)));
      [|exact Ha | exact Hb].
    lia.
Qed.

Lemma X1_percentile_monotone_witness :
  exists a b,
    calculatePercentile [3; 1; 2] 50 = Some a /\
    calculatePercentile [3; 1; 2] 95 = Some b /\
    fst (MetricsAggregator_calculatePercentile [3; 1; 2] 50) = Some a /\
    fst (MetricsAggregator_calculatePercentile [3; 1; 2] 95) = Some b /\
    a <= b.
Proof.
  apply (X1_percentile_monotone [3; 1; 2] 50 95).
  - vm_compute. discriminate.
  - vm_compute. discriminate.
Defined.

Lemma Sorted_Qle_head (l : list Q) a :
  Sorted Qle l -> l !! 0%nat = Some a -> Forall (fun x => a <= x) l.
Proof.
  intros HS Ha. apply Forall_forall. intros x Hx.
  apply list_elem_of_In, list_elem_of_lookup in Hx as [i Hi].
  apply (Sorted_Qle_lookup l 0 i a x HS); [lia | done | done].
Qed.

Lemma Sorted_Qle_last (l : list Q) a :
  Sorted Qle l -> l !! (length l - 1)%nat = Some a -> Forall (fun x => x <= a) l.
Proof.
  intros HS Ha. apply Forall_forall. intros x Hx.
  apply list_elem_of_In, list_elem_of_lookup in Hx as [i Hi].
  pose proof (lookup_lt_Some _ _ _ Hi).
  apply (Sorted_Qle_lookup l i (length l - 1) x a HS); [lia | done | done].
Qed.

Lemma Forall_sort_ascending (P : Q -> Prop) values :
  Forall P (sort_ascending values) -> Forall P values.
Proof. unfold sort_ascending. by rewrite Array_sort_Permutation. Qed.

(** X2.  On a non-empty list and for [p <= 100] the percentile is one of
    the values; it is the least of them for every [p <= 0] and the greatest
    for [p = 100]. *)
Theorem X2_percentile_extremes (values : list Q) (p : Q) :
  values <> [] -> p <= 100 ->
  exists v,
    calculatePercentile values p = Some v /\
    v ∈ values /\
    (p <= 0 -> Forall (fun x => v <= x) values) /\
    (p == 100 -> Forall (fun x => x <= v) values).
Proof.
  intros Hne Hp. destruct (percentile_lookup values p Hne Hp) as (v & E & Hv).
  exists v. split; [exact E|]. split; [|split].
  - apply list_elem_of_lookup_2 in Hv. unfold sort_ascending in Hv.
    by rewrite Array_sort_Permutation in Hv.
  - intros H0. apply Forall_sort_ascending.
    apply Sorted_Qle_head; [apply sort_ascending_sorted|].
    replace (percentile_index p (length values)) with 0%Z in Hv; [exact Hv|].
    unfold percentile_index.
    assert (H : (p / 100) * inject_Z (Z.of_nat (length values)) <= inject_Z 0).
    { assert (0 <= inject_Z (Z.of_nat (length values)))
        by (change 0 with (inject_Z 0); rewrite <- Zle_Qle; lia).
      assert (p / 100 <= 0) by (apply Qle_shift_div_r; [reflexivity | lra]).
      change (inject_Z 0) with 0. nra. }
    apply Qceiling_resp_le in H. rewrite Qceiling_Z in H. lia.
  - intros H100. apply Forall_sort_ascending.
    apply Sorted_Qle_last; [apply sort_ascending_sorted|].
    rewrite sort_ascending_length.
    replace (length values - 1)%nat
      with (Z.to_nat (percentile_index p (length values))); [exact Hv|].
    unfold percentile_index.
    assert (H : (p / 100) * inject_Z (Z.of_nat (length values))
                == inject_Z (Z.of_nat (length values))).
    { rewrite H100. field. }
    rewrite (Qceiling_comp _ _ H), Qceiling_Z. lia.
Qed.

Lemma X2_percentile_extremes_witness :
  exists v,
    calculatePercentile [3; 1; 2] 100 = Some v /\
    v ∈ [3; 1; 2] /\
    (100 <= 0 -> Forall (fun x => v <= x) [3; 1; 2]) /\
    (100 == 100 -> Forall (fun x => x <= v) [3; 1; 2]).
Proof.
  apply (X2_percentile_extremes [3; 1; 2] 100).
  - discriminate.
  - vm_compute. discriminate.
Defined.

End MoreStatistics.

Section MedianAndAverage.
Import JsNum JsMath Stats AdvancedAnalyticsClient.
Local Open Scope Q_scope.
Local Open Scope list_scope.

Lemma percentile_index_50 (n : nat) :
  (0 < n)%nat -> Z.to_nat (percentile_index 50 n) = ((n + 1) / 2 - 1)%nat.
Proof.
  intros Hn. unfold percentile_index.
  assert (H : (50 / 100) * inject_Z (Z.of_nat n) == Z.of_nat n # 2).
  { unfold inject_Z, Qeq, Qdiv, Qmult, Qinv; simpl. lia. }
  rewrite (Qceiling_comp _ _ H).
  change (Qceiling (Z.of_nat n # 2)) with (- (- Z.of_nat n / 2))%Z.
  assert (E : (- (- Z.of_nat n / 2))%Z = Z.of_nat ((n + 1) / 2)).
  { rewrite Nat2Z.inj_div. change (Z.of_nat 2) with 2%Z.
    rewrite Nat2Z.inj_add. change (Z.of_nat 1) with 1%Z.
    pose proof (Z.div_mod (- Z.of_nat n) 2 ltac:(lia)).
    pose proof (Z.mod_pos_bound (- Z.of_nat n) 2 ltac:(lia)).
    pose proof (Z.div_mod (Z.of_nat n + 1) 2 ltac:(lia)).
    pose proof (Z.mod_pos_bound (Z.of_nat n + 1) 2 ltac:(lia)).
    lia. }
  rewrite E. clear E H.
  assert (1 <= (n + 1) / 2)%nat by (apply Nat.div_le_lower_bound; lia).
  generalize dependent ((n + 1) / 2)%nat. intros k Hk. lia.
Qed.


End MedianAndAverage.

(** ** Backlog forecast, quality ratios and spikes *)

Section BacklogAndQuality.
Import JsNum JsMath Stats AdvancedAnalyticsClient.
Local Open Scope Q_scope.
Local Open Scope list_scope.

#[local] Arguments div : simpl never.
#[local] Arguments ltb : simpl never.

(** X8.  Division by a first value of zero in the backlog forecast: when
    the history has at least two days, the first of which counts no new
    card (or has no count), and the last count is not negative, the growth
    rate is [NaN] (last count zero) or [Infinity], and the capacity is
    reported as critical. *)
Theorem X8_backlog_forecast_zero_first_day (data : list BacklogDay) (dailyAvg : jsnum) :
  let firstValue := truthy_or (data !! 0%nat ≫= NewCards) 0 in
  let lastValue := truthy_or (data !! (length data - 1)%nat ≫= NewCards) 0 in
  (2 <= length data)%nat -> firstValue == 0 -> 0 <= lastValue ->
  calculateGrowthRate data = (if Qeq_bool lastValue 0 then NaN else PosInf) /\
  forecast_capacity (forecastBacklog data dailyAvg) = critical.
Proof.
  intros firstValue lastValue Hn Hf Hl.
  assert (E : calculateGrowthRate data = (if Qeq_bool lastValue 0 then NaN else PosInf)).
  { unfold calculateGrowthRate. rewrite bool_decide_eq_false_2 by lia. cbv zeta.
    fold firstValue lastValue. cbn [sub add opp].
    rewrite div_Fin_zero by exact Hf. unfold Qsign.
    destruct (Qeq_bool lastValue 0) eqn:E0.
    - apply Qeq_bool_eq in E0.
      assert (Hz : lastValue + - firstValue == 0) by (rewrite E0, Hf; reflexivity).
      rewrite (proj1 (Qeq_alt _ _) Hz). reflexivity.
    - apply Qeq_bool_neq in E0.
      assert (Hz : 0 < lastValue + - firstValue).
      { rewrite Hf. destruct (Qlt_le_dec 0 lastValue) as [H|H]; [lra|].
        exfalso. apply E0. apply Qle_antisym; assumption. }
      apply Qgt_alt in Hz. rewrite Hz. reflexivity. }
  split; [exact E|]. unfold forecastBacklog. cbn [forecast_capacity]. rewrite E.
  destruct (Qeq_bool lastValue 0); reflexivity.
Qed.

Lemma X8_backlog_forecast_zero_first_day_witness :
  calculateGrowthRate [ {| NewCards := Some 0 |}; {| NewCards := Some 4 |} ] = PosInf /\
  forecast_capacity
    (forecastBacklog [ {| NewCards := Some 0 |}; {| NewCards := Some 4 |} ] (Fin 2))
  = critical.
Proof.
  apply (X8_backlog_forecast_zero_first_day
           [ {| NewCards := Some 0 |}; {| NewCards := Some 4 |} ] (Fin 2)).
  - simpl. lia.
  - reflexivity.
  - vm_compute. discriminate.
Defined.

Lemma truthy_or_zero (x : option Q) : truthy_or x 0 == match x with Some v => v | None => 0 end.
Proof.
  destruct x as [v|]; [|reflexivity]. unfold truthy_or.
  destruct (Qeq_bool v 0) eqn:E; [|reflexivity]. apply Qeq_bool_eq in E. by rewrite E.
Qed.

Lemma sum_of_acc (f : BugRow -> option Q) (data : list BugRow) (acc : Q) :
  fold_left (fun sum d => sum + truthy_or (f d) 0) data acc == acc + sum_of f data.
Proof.
  unfold sum_of. revert acc. induction data as [|d data IH]; intros acc; simpl; [ring|].
  rewrite IH, (IH (0 + _)). ring.
Qed.

Lemma sum_of_cons f d data : sum_of f (d :: data) == truthy_or (f d) 0 + sum_of f data.
Proof. unfold sum_of at 1. simpl. rewrite sum_of_acc. ring. Qed.

Lemma sum_of_nonneg f data :
  Forall (fun d => 0 <= truthy_or (f d) 0) data -> 0 <= sum_of f data.
Proof.
  induction 1 as [|d data Hd _ IH]; [apply Qle_refl|]. rewrite sum_of_cons. lra.
Qed.

Lemma sum_of_le f g data :
  Forall (fun d => truthy_or (f d) 0 <= truthy_or (g d) 0) data ->
  sum_of f data <= sum_of g data.
Proof.
  induction 1 as [|d data Hd _ IH]; [apply Qle_refl|]. rewrite !sum_of_cons. lra.
Qed.

Lemma sum_of_filter_le f (P : BugRow -> Prop) `{forall d, Decision (P d)} data :
  Forall (fun d => 0 <= truthy_or (f d) 0) data ->
  sum_of f (filter P data) <= sum_of f data.
Proof.
  induction 1 as [|d data Hd _ IH]; [apply Qle_refl|].
  rewrite filter_cons. destruct (decide (P d)); rewrite !sum_of_cons; lra.
Qed.

Lemma percentage_bounds (part whole : Q) :
  0 <= part -> part <= whole ->
  0 <= part / truthy_or (Some whole) 1 * 100 /\ part / truthy_or (Some whole) 1 * 100 <= 100.
Proof.
  intros H0 Hle. unfold truthy_or. destruct (Qeq_bool whole 0) eqn:E.
  - apply Qeq_bool_eq in E. assert (part == 0) by lra.
    assert (Ez : part / 1 * 100 == 0) by (rewrite H; reflexivity).
    rewrite Ez. split; lra.
  - apply Qeq_bool_neq in E.
    assert (Hpos : 0 < whole).
    { destruct (Qlt_le_dec 0 whole) as [Hw|Hw]; [exact Hw|].
      exfalso. apply E. apply Qle_antisym; lra. }
    assert (H1 : 0 <= part / whole) by (apply Qle_shift_div_l; lra).
    assert (H2 : part / whole <= 1) by (apply Qle_shift_div_r; lra).
    split; lra.
Qed.



End BacklogAndQuality.

(** ** Levels, severities and sprint totals *)

Section LevelsAndTotals.
Import JsNum JsMath Stats.
Local Open Scope Q_scope.
Local Open Scope list_scope.

Ltac thresholds :=
  change (1 / 7) with (1 # 7) in *; change (1 / 30) with (1 # 30) in *;
  change (24 * 7) with 168 in *; change (24 * 30) with 720 in *;
  change (60 * 24 * 7) with 10080 in *; change (60 * 24) with 1440 in *.

(** X11.  The four DORA classifiers are monotone: more deployments per day
    never give a worse level, and a longer lead time, a longer time to
    restore or a higher failure rate never give a better one. *)
Theorem X11_dora_classifiers_are_monotone (x y : Q) :
  x <= y ->
  (level_rank (MetricsAggregator.classifyDeploymentFrequency x)
   <= level_rank (MetricsAggregator.classifyDeploymentFrequency y))%nat /\
  (level_rank (MetricsAggregator.classifyLeadTime y)
   <= level_rank (MetricsAggregator.classifyLeadTime x))%nat /\
  (level_rank (MetricsAggregator.classifyMTTR y)
   <= level_rank (MetricsAggregator.classifyMTTR x))%nat /\
  (level_rank (MetricsAggregator.classifyFailureRate y)
   <= level_rank (MetricsAggregator.classifyFailureRate x))%nat.
Proof.
  intros Hxy.
  unfold MetricsAggregator.classifyDeploymentFrequency, MetricsAggregator.classifyLeadTime,
    MetricsAggregator.classifyMTTR, MetricsAggregator.classifyFailureRate.
  repeat split; repeat destruct (decide _); simpl; try lia; exfalso; thresholds; lra.
Qed.

Lemma X11_dora_classifiers_are_monotone_witness :
  (level_rank (MetricsAggregator.classifyDeploymentFrequency (99 # 100))
   <= level_rank (MetricsAggregator.classifyDeploymentFrequency 1))%nat /\
  (level_rank (MetricsAggregator.classifyLeadTime 1)
   <= level_rank (MetricsAggregator.classifyLeadTime (99 # 100)))%nat /\
  (level_rank (MetricsAggregator.classifyMTTR 1)
   <= level_rank (MetricsAggregator.classifyMTTR (99 # 100)))%nat /\
  (level_rank (MetricsAggregator.classifyFailureRate 1)
   <= level_rank (MetricsAggregator.classifyFailureRate (99 # 100)))%nat.
Proof.
  apply (X11_dora_classifiers_are_monotone (99 # 100) 1). vm_compute. discriminate.
Defined.

Import HistoricalDataCollector.

Lemma points_of_mono (a b : MetricsAggregator.level) :
  (level_rank a <= level_rank b)%nat -> (points_of a <= points_of b)%Z.
Proof. destruct a, b; simpl; lia. Qed.

(** X12.  The performance level of a DORA bundle: when the four
    classifications agree the level is that classification, and raising a
    classification never lowers the level. *)
Theorem X12_performance_level (values : Q * Q * Q * Q)
    (d1 l1 m1 c1 d2 l2 m2 c2 l : MetricsAggregator.level) :
  calculatePerformanceLevel (bundle_of values l l l l) = l /\
  ((level_rank d1 <= level_rank d2)%nat -> (level_rank l1 <= level_rank l2)%nat ->
   (level_rank m1 <= level_rank m2)%nat -> (level_rank c1 <= level_rank c2)%nat ->
   (level_rank (calculatePerformanceLevel (bundle_of values d1 l1 m1 c1))
    <= level_rank (calculatePerformanceLevel (bundle_of values d2 l2 m2 c2)))%nat).
Proof.
  destruct values as [[[vd vl] vm] vc].
  split; [destruct l; reflexivity|].
  intros Hd Hl Hm Hc.
  apply points_of_mono in Hd, Hl, Hm, Hc.
  unfold calculatePerformanceLevel, bundle_of.
  cbn [MetricsAggregator.classification MetricsAggregator.deploymentFrequency
       MetricsAggregator.leadTimeForChanges MetricsAggregator.mttr
       MetricsAggregator.changeFailureRate].
  repeat destruct (decide _); simpl; lia.
Qed.

Import DeploymentMetricsCollector.

(** X13.  Severities and priorities: each of the four severities comes back
    from its priority; any other severity has priority 3; an integer
    priority comes back clamped to 1 .. 4; and a priority that is not a
    number is low. *)
Theorem X13_severity_priority_round_trip (parseInt : string -> jsnum) :
  (forall s, s ∈ ["critical"; "high"; "medium"; "low"] ->
     mapPriorityToSeverity parseInt (inl (Fin (inject_Z (mapSeverityToPriority s)))) = s) /\
  (forall s, s ∉ ["critical"; "high"; "medium"; "low"] -> mapSeverityToPriority s = 3%Z) /\
  (forall p : Z,
     mapSeverityToPriority (mapPriorityToSeverity parseInt (inl (Fin (inject_Z p))))
     = Z.max 1 (Z.min 4 p)) /\
  mapPriorityToSeverity parseInt (inl NaN) = "low" /\
  (forall s, mapPriorityToSeverity parseInt (inr s) = mapPriorityToSeverity parseInt (inl (parseInt s))).
Proof.
  split; [|split; [|split; [|split]]].
  - intros s Hs. repeat (apply elem_of_cons in Hs as [->|Hs]; [reflexivity|]).
    by apply elem_of_nil in Hs.
  - intros s Hs. unfold mapSeverityToPriority.
    repeat (destruct (decide _) as [->|]; [exfalso; apply Hs; set_solver|]). reflexivity.
  - intros p. unfold mapPriorityToSeverity, leb, eqb, ltb.
    change 1 with (inject_Z 1). change 2 with (inject_Z 2). change 3 with (inject_Z 3).
    assert (CMP : forall a b : Z, (inject_Z a ?= inject_Z b) = (a ?= b)%Z).
    { intros a b. unfold Qcompare, inject_Z. simpl. by rewrite !Z.mul_1_r. }
    assert (EQ : forall a b : Z, Qeq_bool (inject_Z a) (inject_Z b) = (a =? b)%Z).
    { intros a b. unfold Qeq_bool, inject_Z. simpl. by rewrite !Z.mul_1_r. }
    rewrite !CMP, !EQ.
    destruct (Z.compare_spec p 1) as [->|H|H]; [reflexivity | |].
    { cbn [orb]. change (mapSeverityToPriority "critical") with 1%Z. lia. }
    rewrite (proj2 (Z.eqb_neq p 1)) by lia. cbn [orb].
    destruct (Z.eqb_spec p 2) as [->|H2]; [reflexivity|].
    destruct (Z.eqb_spec p 3) as [->|H3]; [reflexivity|].
    change (mapSeverityToPriority "low") with 4%Z. lia.
  - reflexivity.
  - reflexivity.
Qed.

(** X14.  The failure rate of [getIncidentMetrics] over a range: the days
    of the range are counted up to whole days, whichever date comes first;
    over a range of some length the rate is a finite number between 0 and
    the number of incidents, and over a range whose two dates coincide the
    number of incidents is divided by zero: the rate is [NaN] without
    incidents and [Infinity] with some. *)
Theorem X14_failure_rate_over_a_range {A} (incidents : list A) (start end_ : Z) :
  getDaysBetween start end_ = getDaysBetween end_ start /\
  (start <> end_ ->
   (1 <= getDaysBetween start end_)%Z /\
   exists q, calculateFailureRate incidents start end_ = Fin q /\
             0 <= q /\ q <= inject_Z (Z.of_nat (length incidents))) /\
  (start = end_ ->
   calculateFailureRate incidents start end_
   = if decide (incidents = []) then NaN else PosInf).
Proof.
  split; [|split].
  - unfold getDaysBetween. cbv zeta. f_equal. f_equal. f_equal. lia.
  - intros Hne.
    assert (Hdays : (1 <= getDaysBetween start end_)%Z).
    { unfold getDaysBetween. cbv zeta.
      assert (H : (1 <= Z.abs (end_ - start))%Z) by lia.
      assert (Hq : 0 < inject_Z (Z.abs (end_ - start)) / inject_Z (1000 * 60 * 60 * 24)).
      { apply Qlt_shift_div_l; [reflexivity|]. rewrite Qmult_0_l.
        change 0 with (inject_Z 0). rewrite <- Zlt_Qlt. lia. }
      pose proof (Qle_ceiling (inject_Z (Z.abs (end_ - start))
                               / inject_Z (1000 * 60 * 60 * 24))) as Hc.
      assert (Hz : 0 < inject_Z (Qceiling (inject_Z (Z.abs (end_ - start))
                                             / inject_Z (1000 * 60 * 60 * 24)))) by lra.
      change 0 with (inject_Z 0) in Hz. rewrite <- Zlt_Qlt in Hz. lia. }
    split; [exact Hdays|].
    unfold calculateFailureRate. cbv zeta.
    assert (Hd : 1 <= inject_Z (getDaysBetween start end_)).
    { change 1 with (inject_Z 1). rewrite <- Zle_Qle. exact Hdays. }
    unfold of_nat. rewrite div_Fin by lra. eexists. split; [reflexivity|].
    assert (Hn : 0 <= inject_Z (Z.of_nat (length incidents))).
    { change 0 with (inject_Z 0). rewrite <- Zle_Qle. lia. }
    split.
    + apply Qle_shift_div_l; lra.
    + apply Qle_shift_div_r; [lra|]. nra.
  - intros ->. unfold calculateFailureRate, getDaysBetween. cbv zeta.
    rewrite Z.sub_diag. change (Z.abs 0) with 0%Z.
    change (Qceiling (inject_Z 0 / inject_Z (1000 * 60 * 60 * 24))) with 0%Z.
    unfold of_nat. rewrite div_Fin_zero by reflexivity.
    destruct incidents as [|x l]; [reflexivity|].
    rewrite decide_False by done. reflexivity.
Qed.

Section ZeroWork.
Variable Math_sqrt : Q -> Q.
Variable gauss : nat -> Q.

Lemma simulation_loop_no_work fuel work avg std : forall iterations draws results,
  (1 <= fuel)%nat -> work <= 0 ->
  simulation_loop gauss fuel work avg std iterations draws results
  = Some (results ++ replicate iterations 0%nat).
Proof.
  induction iterations as [|k IH]; intros draws results Hf Hw.
  - simpl. by rewrite app_nil_r.
  - cbn [simulation_loop]. destruct fuel as [|fuel]; [lia|]. cbn [trial_loop].
    destruct (Qlt_le_dec 0 work) as [H|H]; [lra|].
    change (S fuel) with (S fuel) in IH. rewrite IH by done.
    rewrite <- app_assoc. reflexivity.
Qed.

Lemma Array_sort_replicate (n : nat) (x : nat) :
  Array_sort le (replicate n x) = replicate n x.
Proof.
  induction n as [|n IH]; [done|]. cbn [replicate Array_sort foldr].
  fold (Array_sort le (replicate n x)). rewrite IH.
  destruct n as [|n]; [done|]. cbn [replicate insert_stable].
  rewrite decide_True by lia. reflexivity.
Qed.

(** X16.  With no work left the delivery prediction needs no sprint: for a
    remaining work of zero or less, whatever the velocity history and the
    draws, and for every confidence level from 0 to 100, the optimistic, the
    likely and the pessimistic sprint counts are all 0. *)
Theorem X16_no_work_left_needs_no_sprint (fuel : nat) (rows : list IterationRow)
    (remainingWork : Q) (unit : workUnit) (confidenceLevel : Q) :
  (1 <= fuel)%nat -> remainingWork <= 0 ->
  0 <= confidenceLevel -> confidenceLevel <= 100 ->
  predictDelivery Math_sqrt gauss fuel rows remainingWork unit confidenceLevel
  = Some {| optimistic := Some 0%nat; likely := Some 0%nat; pessimistic := Some 0%nat |}.
Proof.
  intros Hf Hw Hlo Hhi. unfold predictDelivery, runMonteCarloSimulation.
  rewrite simulation_loop_no_work by done. cbn [app].
  rewrite Array_sort_replicate. unfold getPercentile. rewrite length_replicate.
  assert (Hp : forall p, p <= 100 ->
            replicate 1000 0%nat !! Z.to_nat (percentile_index p 1000) = Some 0%nat).
  { intros p Hp. apply lookup_replicate_2.
    pose proof (percentile_index_bound p 1000 Hp ltac:(lia)).
    pose proof (percentile_index_nonneg p 1000). lia. }
  rewrite !Hp by lra. reflexivity.
Qed.

End ZeroWork.

Lemma X16_no_work_left_needs_no_sprint_witness :
  predictDelivery demo_sqrt demo_gauss 101 demo_rows 0 points 85
  = Some {| optimistic := Some 0%nat; likely := Some 0%nat; pessimistic := Some 0%nat |}.
Proof.
  apply (X16_no_work_left_needs_no_sprint demo_sqrt demo_gauss 101 demo_rows 0 points 85).
  - lia.
  - vm_compute. discriminate.
  - vm_compute. discriminate.
  - vm_compute. discriminate.
Defined.

End LevelsAndTotals.

(** ** Date keys *)

Section DateKeys.
Import AdvancedAnalyticsClient.
Local Open Scope list_scope.

Lemma pretty_eight_digits (n : Z) :
  (10000000 <= n < 100000000)%Z ->
  pretty n
  = String (digit_at n 7) (String (digit_at n 6) (String (digit_at n 5)
      (String (digit_at n 4) (String (digit_at n 3) (String (digit_at n 2)
        (String (digit_at n 1) (String (digit_at n 0) EmptyString))))))).
Proof.
  intros Hn. destruct n as [|p|p]; [lia | | lia].
  unfold pretty, pretty_Z, pretty, pretty_positive, pretty, pretty_N.
  rewrite decide_False by lia.
  assert (Hdig : forall i : nat,
            digit_at (Z.pos p) i = pretty_N_char ((N.pos p / 10 ^ N.of_nat i) mod 10)%N).
  { intros i. unfold digit_at. f_equal.
    rewrite Z2N.inj_mod by (try apply Z.div_pos; lia).
    rewrite Z2N.inj_div by lia. rewrite Z2N.inj_pow by lia.
    replace (Z.to_N (Z.of_nat i)) with (N.of_nat i) by lia. reflexivity. }
  rewrite !Hdig.
  assert (Hstep : forall (x : N) s, (0 < x)%N ->
            pretty_N_go x s = pretty_N_go (x / 10) (String (pretty_N_char (x mod 10)) s))
    by (intros; by apply pretty_N_go_step).
  assert (Hp : (10000000 <= N.pos p < 100000000)%N) by lia.
  set (x := N.pos p) in *.
  assert (Hdiv : forall k : N, (0 < k)%N -> (x / (10 * k) = x / k / 10)%N).
  { intros k Hk. rewrite (N.mul_comm 10 k). symmetry. apply N.Div0.div_div. }
  assert (D1 : (10 ^ N.of_nat 1 = 10)%N) by reflexivity.
  assert (D2 : (10 ^ N.of_nat 2 = 10 * 10)%N) by reflexivity.
  assert (D3 : (10 ^ N.of_nat 3 = 10 * (10 * 10))%N) by reflexivity.
  assert (D4 : (10 ^ N.of_nat 4 = 10 * (10 * (10 * 10)))%N) by reflexivity.
  assert (D5 : (10 ^ N.of_nat 5 = 10 * (10 * (10 * (10 * 10))))%N) by reflexivity.
  assert (D6 : (10 ^ N.of_nat 6 = 10 * (10 * (10 * (10 * (10 * 10)))))%N) by reflexivity.
  assert (D7 : (10 ^ N.of_nat 7 = 10 * (10 * (10 * (10 * (10 * (10 * 10))))))%N) by reflexivity.
  change (10 ^ N.of_nat 0)%N with 1%N.
  replace (x / 1)%N with x by (symmetry; apply N.div_1_r).
  rewrite D1, D2, D3, D4, D5, D6, D7.
  rewrite !Hdiv by lia.
  replace (x / 1)%N with x by (symmetry; apply N.div_1_r).
  assert (B1 : (1000000 <= x / 10 < 10000000)%N).
  { split; [apply N.div_le_lower_bound; lia | apply N.Div0.div_lt_upper_bound; lia]. }
  assert (B2 : (100000 <= x / 10 / 10 < 1000000)%N).
  { split; [apply N.div_le_lower_bound; lia | apply N.Div0.div_lt_upper_bound; lia]. }
  assert (B3 : (10000 <= x / 10 / 10 / 10 < 100000)%N).
  { split; [apply N.div_le_lower_bound; lia | apply N.Div0.div_lt_upper_bound; lia]. }
  assert (B4 : (1000 <= x / 10 / 10 / 10 / 10 < 10000)%N).
  { split; [apply N.div_le_lower_bound; lia | apply N.Div0.div_lt_upper_bound; lia]. }
  assert (B5 : (100 <= x / 10 / 10 / 10 / 10 / 10 < 1000)%N).
  { split; [apply N.div_le_lower_bound; lia | apply N.Div0.div_lt_upper_bound; lia]. }
  assert (B6 : (10 <= x / 10 / 10 / 10 / 10 / 10 / 10 < 100)%N).
  { split; [apply N.div_le_lower_bound; lia | apply N.Div0.div_lt_upper_bound; lia]. }
  assert (B7 : (1 <= x / 10 / 10 / 10 / 10 / 10 / 10 / 10 < 10)%N).
  { split; [apply N.div_le_lower_bound; lia | apply N.Div0.div_lt_upper_bound; lia]. }
  assert (B8 : (x / 10 / 10 / 10 / 10 / 10 / 10 / 10 / 10 = 0)%N).
  { apply N.div_small. lia. }
  rewrite (Hstep x) by lia.
  rewrite (Hstep (x / 10)%N) by lia.
  rewrite (Hstep (x / 10 / 10)%N) by lia.
  rewrite (Hstep (x / 10 / 10 / 10)%N) by lia.
  rewrite (Hstep (x / 10 / 10 / 10 / 10)%N) by lia.
  rewrite (Hstep (x / 10 / 10 / 10 / 10 / 10)%N) by lia.
  rewrite (Hstep (x / 10 / 10 / 10 / 10 / 10 / 10)%N) by lia.
  rewrite (Hstep (x / 10 / 10 / 10 / 10 / 10 / 10 / 10)%N) by lia.
  rewrite B8. reflexivity.
Qed.

(** X18.  A date key of eight digits, [yyyymmdd], is formatted as
    [yyyy-mm-dd]: the first four digits, a dash, the next two, a dash, the
    last two. *)
Theorem X18_formatDate_eight_digits (dateSK : Z) :
  (10000000 <= dateSK < 100000000)%Z ->
  formatDate dateSK
  = String (digit_at dateSK 7) (String (digit_at dateSK 6) (String (digit_at dateSK 5)
      (String (digit_at dateSK 4) (String "-" (String (digit_at dateSK 3)
        (String (digit_at dateSK 2) (String "-" (String (digit_at dateSK 1)
          (String (digit_at dateSK 0) EmptyString))))))))).
Proof.
  intros Hn. unfold formatDate. rewrite (pretty_eight_digits dateSK Hn). reflexivity.
Qed.

Lemma X18_formatDate_eight_digits_witness : formatDate 20240115 = "2024-01-15".
Proof. apply (X18_formatDate_eight_digits 20240115). lia. Defined.

End DateKeys.

(** ** The record store, further *)


Lemma after_read_removed_tick env w ns name ns' name' :
  files w ns' !! name' <> None ->
  files (after_read env w ns name) ns' !! name' = None ->
  tick (after_read env w ns name) = S (tick w).
Proof.
  intros Hsome Hnone.
  destruct (after_read_removed env w ns name ns' name' Hsome Hnone) as (-> & -> & r & Hf & He).
  unfold after_read. rewrite Hf. unfold expired_at in He.
  destruct (expiresAt r); [reflexivity | discriminate].
Qed.

Lemma scan_keep_Some env w ns filter file r :
  scan_keep env w ns filter file = Some r <->
  files w ns !! file = Some (Some r) /\
  expired_at (clock env (tick w)) r = false /\ filter_ok filter r.
Proof.
  unfold scan_keep, read_live, filter_ok.
  destruct (files w ns !! file) as [[r0|]|];
    [|split; [done | intros (? & _); done]..].
  destruct (expired_at (clock env (tick w)) r0) eqn:He.
  - split; [done|]. intros ([= ->] & ? & _). congruence.
  - destruct filter as [f|]; [destruct (matches_filter f r0) eqn:Hm|].
    + split; [intros [= <-]; done | intros ([= <-] & _ & _); done].
    + split; [done | intros ([= <-] & _ & ?); congruence].
    + split; [intros [= <-]; done | intros ([= <-] & _ & _); done].
Qed.

Lemma list_loop_scan env ns filter : forall dirents items w,
  exists new w',
    list_loop env ns filter dirents items w = (Ret (items ++ new), w') /\
    (tick w <= tick w')%nat /\
    indexFile w' = indexFile w /\
    (forall ns' name' c, files w' ns' !! name' = Some c -> files w ns' !! name' = Some c) /\
    (forall ns' name',
       files w ns' !! name' <> None -> files w' ns' !! name' = None ->
       ns' = ns /\ name' ∈ dirents /\
       exists r t, files w ns !! name' = Some (Some r) /\
                   (tick w <= t < tick w')%nat /\ expired_at (clock env t) r = true) /\
    (forall r, r ∈ new ->
       exists name t, name ∈ dirents /\ files w ns !! name = Some (Some r) /\
                      (tick w <= t <= tick w')%nat /\
                      expired_at (clock env t) r = false /\ filter_ok filter r) /\
    (forall name r,
       name ∈ dirents -> files w ns !! name = Some (Some r) -> filter_ok filter r ->
       (forall t, (tick w <= t <= tick w')%nat -> expired_at (clock env t) r = false) ->
       r ∈ new) /\
    (forall name r,
       name ∈ dirents -> files w ns !! name = Some (Some r) ->
       files w' ns !! name <> None ->
       exists t, (tick w <= t <= tick w')%nat /\ expired_at (clock env t) r = false).
Proof.
  induction dirents as [|file rest IH]; intros items w.
  - exists [], w. simpl. rewrite app_nil_r.
    split; [done|]. split; [lia|]. split; [done|]. split; [done|].
    split; [intros ns' name' H1 H2; congruence|].
    split; [intros r Hr; by apply elem_of_nil in Hr|].
    split; intros name r Hn; by apply elem_of_nil in Hn.
  - simpl. unfold bind at 1. rewrite list_step_spec.
    set (w1 := after_read env w ns file).
    set (kept := scan_keep env w ns filter file).
    destruct (IH (match kept with Some item => items ++ [item] | None => items end) w1)
      as (new & w' & E & Htick & Hidx & Hsub & Hrem & Hsound & Hcompl & Hsurv).
    pose proof (after_read_tick env w ns file) as Ht1. fold w1 in Ht1.
    exists (match kept with Some item => item :: new | None => new end), w'.
    split; [|split; [|split; [|split; [|split; [|split; [|split]]]]]].
    + rewrite E. destruct kept; [rewrite <- app_assoc|]; reflexivity.
    + lia.
    + rewrite Hidx. apply after_read_index.
    + intros ns' name' c Hc. apply (after_read_files env w ns file), Hsub, Hc.
    + intros ns' name' Hsome Hnone.
      destruct (files w1 ns' !! name') as [c|] eqn:Hw1.
      * destruct (Hrem ns' name') as (-> & Hin & r & t & Hf & Ht & He);
          [congruence | done |].
        split; [done|]. split; [by apply list_elem_of_further|].
        exists r, t. split; [by apply (after_read_files env w ns file)|]. split; [lia | done].
      * pose proof (after_read_removed_tick env w ns file ns' name' Hsome Hw1) as HS.
        destruct (after_read_removed env w ns file ns' name' Hsome Hw1)
          as (-> & -> & r & Hf & He).
        split; [done|]. split; [apply list_elem_of_here|].
        exists r, (tick w). split; [done|]. fold w1 in HS. split; [lia | done].
    + intros r Hr.
      assert (Hold : r ∈ new ->
                exists name t, name ∈ file :: rest /\ files w ns !! name = Some (Some r) /\
                  (tick w <= t <= tick w')%nat /\
                  expired_at (clock env t) r = false /\ filter_ok filter r).
      { intros Hn. destruct (Hsound r Hn) as (name & t & Hin & Hf & Ht & He & Hok).
        exists name, t. split; [by apply list_elem_of_further|].
        split; [by apply (after_read_files env w ns file)|]. split; [lia | done]. }
      destruct kept as [item|] eqn:Hk; [|by apply Hold].
      apply elem_of_cons in Hr as [->|Hr]; [|by apply Hold].
      apply scan_keep_Some in Hk as (Hf & He & Hok).
      exists file, (tick w). split; [apply list_elem_of_here|]. split; [done|].
      split; [lia | done].
    + intros name r Hin Hf Hok Hlive.
      destruct (decide (name = file)) as [->|Hne].
      * assert (Hk : kept = Some r).
        { apply scan_keep_Some. split; [done|]. split; [apply Hlive; lia | done]. }
        rewrite Hk. apply list_elem_of_here.
      * assert (Hr : r ∈ new).
        { apply (Hcompl name r); [| |done|].
          - apply elem_of_cons in Hin as [?|?]; done.
          - unfold w1. rewrite after_read_other by congruence. done.
          - intros t Ht. apply Hlive. lia. }
        destruct kept; [by apply list_elem_of_further | done].
    + intros name r Hin Hf Hleft.
      destruct (decide (name = file)) as [->|Hne].
      * exists (tick w). split; [lia|].
        destruct (expired_at (clock env (tick w)) r) eqn:He; [|done].
        pose proof (after_read_expired env w ns file r Hf He) as Hgone. fold w1 in Hgone.
        destruct (files w' ns !! file) as [c|] eqn:Hw'; [|done].
        apply Hsub in Hw'. congruence.
      * destruct (Hsurv name r) as (t & Ht & He); [| |done|].
        -- apply elem_of_cons in Hin as [?|?]; done.
        -- unfold w1. rewrite after_read_other by congruence. done.
        -- exists t. split; [lia | done].
Qed.

#[local] Instance newest_first_total : Total newest_first.
Proof. intros a b. unfold newest_first. lia. Qed.

(** X19.  What [list] returns and what it leaves behind, whatever the
    clock does: the call never throws; the result is sorted newest first;
    every record returned is the content of a file of the namespace and
    matches the filter; every record of the namespace that matches the
    filter and does not expire while the scan runs is returned; a file
    that does not parse is skipped and stays; the index and the other
    namespaces are untouched. *)
Theorem X19_list_is_sorted_sound_and_complete (env : Env) (w : World) (ns : StoredType)
    (filter : option object) :
  exists items w',
    list_records env ns filter w = (Ret items, w') /\
    Sorted newest_first items /\
    (forall r, r ∈ items ->
       filter_ok filter r /\ exists name, files w ns !! name = Some (Some r)) /\
    (forall name r,
       files w ns !! name = Some (Some r) -> filter_ok filter r ->
       (forall t, (tick w <= t <= tick w')%nat -> expired_at (clock env t) r = false) ->
       r ∈ items) /\
    (forall name, files w ns !! name = Some None -> files w' ns !! name = Some None) /\
    indexFile w' = indexFile w /\
    (forall ns' name, ns' <> ns -> files w' ns' !! name = files w ns' !! name).
Proof.
  unfold list_records, bind at 1, readdir.
  destruct (list_loop_scan env ns filter (fst <$> map_to_list (files w ns)) [] w)
    as (new & w' & E & Htick & Hidx & Hsub & Hrem & Hsound & Hcompl & _).
  unfold bind at 1. rewrite E. cbn [app].
  exists (Array_sort newest_first new), w'. split; [reflexivity|].
  split; [apply Sorted_Array_sort; apply _|].
  split; [|split; [|split; [|split]]].
  - intros r Hr. rewrite Array_sort_Permutation in Hr.
    destruct (Hsound r Hr) as (name & t & _ & Hf & _ & _ & Hok). eauto.
  - intros name r Hf Hok Hlive. rewrite Array_sort_Permutation.
    apply (Hcompl name r); [|done..].
    apply list_elem_of_fmap. exists (name, Some r). split; [done|].
    by apply elem_of_map_to_list.
  - intros name Hf. destruct (files w' ns !! name) as [c|] eqn:Hw'.
    + apply Hsub in Hw'. congruence.
    + destruct (Hrem ns name) as (_ & _ & r & t & Hr & _); [congruence | done | congruence].
  - exact Hidx.
  - intros ns' name Hne. destruct (files w' ns' !! name) as [c|] eqn:Hw'.
    + apply Hsub in Hw'. congruence.
    + destruct (files w ns' !! name) as [c|] eqn:Hw0; [|done].
      destruct (Hrem ns' name) as (-> & _); [congruence | done | done].
Qed.

(** X20.  An ordinary identifier that resolves to nothing readable: when
    there is neither a file of that name nor an index entry for it, when
    the index points at a file that is gone, or when the file does not
    parse, [retrieve] returns null and leaves the files, the index and the
    clock as they were. *)
Theorem X20_retrieve_miss_changes_nothing (env : Env) (w : World) (ns : StoredType)
    (keyOrId : string) :
  plain_lookup w ns keyOrId ->
  (resolve w ns keyOrId = None \/
   exists name, resolve w ns keyOrId = Some name /\
                (files w ns !! name = None \/ files w ns !! name = Some None)) ->
  retrieve env ns keyOrId w = (Ret None, w).
Proof.
  intros _ H. rewrite retrieve_spec. unfold live_record, after_retrieve, read_live, after_read.
  destruct H as [-> | (name & -> & [-> | ->])]; reflexivity.
Qed.

Lemma X20_retrieve_miss_changes_nothing_witness :
  retrieve (Demo.env0 Demo.ticking) cache "absent" Demo.w0 = (Ret None, Demo.w0).
Proof.
  apply (X20_retrieve_miss_changes_nothing (Demo.env0 Demo.ticking) Demo.w0 cache "absent").
  - refine (bool_decide_unpack _ _). vm_compute. exact I.
  - left. reflexivity.
Defined.

Section SweepFacts.
Local Open Scope list_scope.

Variable env : Env.
Variable now : Z.
Hypothesis frozen : forall t, clock env t = now.

Lemma cleanup_items_frozen ns : forall items cleaned w,
  Forall (fun r => expired_at now r = false) items ->
  exists w',
    cleanup_items env ns items cleaned w = (Ret cleaned, w') /\
    files w' = files w /\ indexFile w' = indexFile w.
Proof.
  induction items as [|item rest IH]; intros cleaned w Hall.
  - exists w. done.
  - apply Forall_cons_iff in Hall as [Hitem Hall]. cbn [cleanup_items].
    unfold bind at 1. unfold expired_at in Hitem.
    destruct (expiresAt item) as [e|].
    + unfold bind, Date_now, ret. rewrite frozen, Hitem.
      destruct (IH cleaned (mkWorld (files w) (indexFile w) (S (tick w))) Hall)
        as (w' & E & Hf & Hi).
      exists w'. done.
    + unfold ret. destruct (IH cleaned w Hall) as (w' & E & Hf & Hi). exists w'. done.
Qed.

Lemma list_records_frozen ns w :
  exists items w',
    list_records env ns None w = (Ret items, w') /\
    Forall (fun r => expired_at now r = false) items /\
    indexFile w' = indexFile w /\
    (forall ns' name,
       files w' ns' !! name
       = if decide (ns' = ns) then swept now (files w ns' !! name) else files w ns' !! name).
Proof.
  unfold list_records, bind at 1, readdir.
  destruct (list_loop_scan env ns None (fst <$> map_to_list (files w ns)) [] w)
    as (new & w' & E & Htick & Hidx & Hsub & Hrem & Hsound & Hcompl & Hsurv).
  unfold bind at 1. rewrite E. cbn [app].
  exists (Array_sort newest_first new), w'. split; [reflexivity|].
  split; [|split; [exact Hidx|]].
  - apply Forall_forall. intros r Hr. apply list_elem_of_In in Hr.
    rewrite Array_sort_Permutation in Hr.
    destruct (Hsound r Hr) as (name & t & _ & _ & _ & He & _). by rewrite frozen in He.
  - intros ns' name. destruct (decide (ns' = ns)) as [->|Hne].
    + destruct (files w ns !! name) as [[r|]|] eqn:Hf; cbn [swept].
      * destruct (expired_at now r) eqn:He.
        -- destruct (files w' ns !! name) as [c|] eqn:Hw'; [|done].
           destruct (Hsurv name r) as (t & _ & He'); [|done|congruence|].
           { apply list_elem_of_fmap. exists (name, Some r). split; [done|].
             by apply elem_of_map_to_list. }
           rewrite frozen in He'. congruence.
        -- destruct (files w' ns !! name) as [c|] eqn:Hw'.
           ++ apply Hsub in Hw'. congruence.
           ++ destruct (Hrem ns name) as (_ & _ & r' & t & Hr' & _ & He');
                [congruence | done |].
              rewrite frozen in He'. congruence.
      * destruct (files w' ns !! name) as [c|] eqn:Hw'.
        -- apply Hsub in Hw'. congruence.
        -- destruct (Hrem ns name) as (_ & _ & r' & t & Hr' & _); [congruence | done | congruence].
      * destruct (files w' ns !! name) as [c|] eqn:Hw'; [|done].
        apply Hsub in Hw'. congruence.
    + destruct (files w' ns' !! name) as [c|] eqn:Hw'.
      * apply Hsub in Hw'. congruence.
      * destruct (files w ns' !! name) as [c|] eqn:Hw0; [|done].
        destruct (Hrem ns' name) as (-> & _); [congruence | done | done].
Qed.

Lemma swept_idemp c : swept now (swept now c) = swept now c.
Proof.
  destruct c as [[r|]|]; cbn [swept]; try done.
  destruct (expired_at now r) eqn:He; cbn [swept]; [done | by rewrite He].
Qed.

Lemma cleanup_types_frozen : forall types cleaned w,
  exists w',
    cleanup_types env types cleaned w = (Ret cleaned, w') /\
    indexFile w' = indexFile w /\
    (forall ns name,
       files w' ns !! name
       = if decide (ns ∈ types) then swept now (files w ns !! name) else files w ns !! name).
Proof.
  induction types as [|ns0 rest IH]; intros cleaned w.
  - exists w. split; [done|]. split; [done|]. intros ns name.
    rewrite decide_False; [done | apply not_elem_of_nil].
  - cbn [cleanup_types]. unfold bind at 1.
    destruct (list_records_frozen ns0 w) as (items & w1 & E1 & Hlive & Hi1 & Hf1).
    rewrite E1. unfold bind at 1.
    destruct (cleanup_items_frozen ns0 items cleaned w1 Hlive) as (w2 & E2 & Hf2 & Hi2).
    rewrite E2.
    destruct (IH cleaned w2) as (w' & E & Hi & Hf).
    exists w'. split; [exact E|]. split; [congruence|].
    intros ns name. rewrite Hf, Hf2, Hf1.
    destruct (decide (ns = ns0)) as [->|Hne].
    + rewrite (decide_True (P := ns0 ∈ ns0 :: rest)) by apply list_elem_of_here.
      destruct (decide (ns0 ∈ rest)); [apply swept_idemp | done].
    + destruct (decide (ns ∈ rest)) as [Hin|Hin].
      * rewrite decide_True by (by apply list_elem_of_further). done.
      * rewrite decide_False; [done|]. intros [?|?]%elem_of_cons; done.
Qed.

End SweepFacts.

(** X21.  The sweep while the clock stands still: [cleanupExpired] removes
    every record that has expired, in every namespace, keeps every other
    file and the indexes, and returns 0, since the records it counts are
    those that expire between the scan of [list] and its own check. *)
Theorem X21_cleanupExpired_counts_nothing (env : Env) (now : Z) (w : World) :
  (forall t, clock env t = now) ->
  exists w',
    cleanupExpired env w = (Ret 0%nat, w') /\
    indexFile w' = indexFile w /\
    forall ns name, files w' ns !! name = swept now (files w ns !! name).
Proof.
  intros Hfrozen. unfold cleanupExpired.
  destruct (cleanup_types_frozen env now Hfrozen all_types 0%nat w) as (w' & E & Hi & Hf).
  exists w'. split; [exact E|]. split; [exact Hi|].
  intros ns name. rewrite Hf. rewrite decide_True; [done|].
  unfold all_types. destruct ns; set_solver.
Qed.

Lemma X21_cleanupExpired_counts_nothing_witness :
  let env := Demo.env0 Demo.frozen in
  let w := snd (store env cache "k" (JNum 1) [] (Some (-5)) Demo.w0) in
  (exists r, files w cache !! "00000144-1700000000000" = Some (Some r) /\
             expired_at 1700000000000 r = true) /\
  exists w',
    cleanupExpired env w = (Ret 0%nat, w') /\
    indexFile w' = indexFile w /\
    forall ns name, files w' ns !! name = swept 1700000000000 (files w ns !! name).
Proof.
  split.
  - eexists. split; [vm_compute; reflexivity | reflexivity].
  - apply (X21_cleanupExpired_counts_nothing (Demo.env0 Demo.frozen) 1700000000000).
    intros t. reflexivity.
Defined.


Lemma retrieve_by_key_after_store env w ns key payload meta ttl n :
  key <> "__proto__" ->
  files w ns !! key = None ->
  let w1 := after_store env w ns key payload meta ttl in
  let r := stored_record env w ns key payload meta ttl in
  fst (retrieve env ns key (advance n w1))
  = Ret (if expired_at (clock env (tick w1 + n)) r then None else Some r).
Proof.
  intros Hproto Hkey w1 r. rewrite retrieve_spec. cbn [fst].
  unfold live_record, resolve, advance. cbn [files indexFile tick].
  unfold w1 at 1 2, after_store. cbn [files indexFile]. fold r.
  rewrite !fn_lookup_insert.
  destruct (decide (id r = key)) as [Heq|Hne].
  - rewrite <- Heq, lookup_insert_eq.
    rewrite bool_decide_eq_true_2 by eauto.
    unfold read_live. cbn [files tick]. unfold w1 at 1, after_store. cbn [files]. fold r.
    rewrite fn_lookup_insert, lookup_insert_eq. reflexivity.
  - rewrite lookup_insert_ne by done. rewrite Hkey.
    rewrite bool_decide_eq_false_2 by (intros [? ?]; done).
    change (index_lookup _ ns key) with (index_lookup w1 ns key).
    unfold w1 at 1. rewrite index_lookup_after_store by done.
    unfold read_live. cbn [files tick]. unfold w1 at 1, after_store. cbn [files]. fold r.
    rewrite fn_lookup_insert. change (gen_id env key (clock env (tick w))) with (id r).
    rewrite lookup_insert_eq. reflexivity.
Qed.

(** X22.  A record can be read back by its key: after a [store] under an
    ordinary key that is not itself the name of a record file, [retrieve]
    by that key returns the record just stored for as long as it has not
    expired.  The record carries the payload unchanged and the metadata of
    the caller, except that [store] always sets the fields [key] and
    [size]. *)
Theorem X22_store_then_retrieve_by_key (env : Env) (w : World) (ns : StoredType)
    (key : string) (payload : json) (meta : object) (ttl : option Z)
    (id1 : string) (w1 : World) :
  store env ns key payload meta ttl w = (Ret id1, w1) ->
  ordinary_name key ->
  files w ns !! key = None ->
  exists r,
    id r = id1 /\ type r = ns /\ data r = payload /\
    obj_get (metadata r) "key" = Some (JStr key) /\
    obj_get (metadata r) "size" = Some (JNum (stringify_length env payload)) /\
    (forall k, k <> "key" -> k <> "size" -> obj_get (metadata r) k = obj_get meta k) /\
    forall n,
      fst (retrieve env ns key (advance n w1))
      = Ret (if expired_at (clock env (tick w1 + n)) r then None else Some r).
Proof.
  intros Hs Hord Hkey. apply store_inv in Hs as (_ & -> & ->).
  exists (stored_record env w ns key payload meta ttl).
  split; [reflexivity|]. split; [reflexivity|]. split; [reflexivity|].
  unfold stored_record at 1 2 3. cbn [metadata].
  split; [rewrite obj_get_set_ne by done; apply obj_get_set_eq|].
  split; [apply obj_get_set_eq|].
  split; [intros k Hk Hs; by rewrite !obj_get_set_ne by done|].
  intros n. apply retrieve_by_key_after_store; [by apply ordinary_not_proto | done].
Qed.

Lemma X22_store_then_retrieve_by_key_witness :
  exists r,
    id r = "00000144-1700000000000" /\ type r = cache /\ data r = JNum 5 /\
    obj_get (metadata r) "key" = Some (JStr "k") /\
    obj_get (metadata r) "size" = Some (JNum (stringify_length (Demo.env0 Demo.ticking) (JNum 5))) /\
    (forall k, k <> "key" -> k <> "size" ->
       obj_get (metadata r) k = obj_get [("key", JStr "mine")] k) /\
    forall n,
      fst (retrieve (Demo.env0 Demo.ticking) cache "k"
             (advance n (snd (store (Demo.env0 Demo.ticking) cache "k" (JNum 5)
                                [("key", JStr "mine")] None Demo.w0))))
      = Ret (if expired_at
                  (clock (Demo.env0 Demo.ticking)
                     (tick (snd (store (Demo.env0 Demo.ticking) cache "k" (JNum 5)
                                   [("key", JStr "mine")] None Demo.w0)) + n)) r
             then None else Some r).
Proof.
  apply (X22_store_then_retrieve_by_key (Demo.env0 Demo.ticking) Demo.w0 cache "k"
           (JNum 5) [("key", JStr "mine")] None "00000144-1700000000000"
           (snd (store (Demo.env0 Demo.ticking) cache "k" (JNum 5)
                   [("key", JStr "mine")] None Demo.w0))).
  - vm_compute. reflexivity.
  - refine (bool_decide_unpack _ _). vm_compute. exact I.
  - reflexivity.
Defined.

(** X23.  An analysis can be read back by the id [storeAnalysis] returns:
    the record holds the results unchanged, and its metadata names the
    analysis type and the relationships whatever the caller's metadata
    said under those names. *)
Theorem X23_storeAnalysis_round_trip (env : Env) (w : World) (analysisType : string)
    (results : json) (relationships : list string) (meta : object)
    (id1 : string) (w1 : World) :
  storeAnalysis env analysisType results relationships meta w = (Ret id1, w1) ->
  exists r,
    id r = id1 /\ type r = analysis /\ data r = results /\
    obj_get (metadata r) "analysisType" = Some (JStr analysisType) /\
    obj_get (metadata r) "relationships" = Some (JArr (JStr <$> relationships)) /\
    obj_get (metadata r) "timestamp" = Some (JStr (isoString env (clock env (tick w)))) /\
    obj_get (metadata r) "key" = Some (JStr analysisType) /\
    (forall k, k ∉ ["analysisType"; "relationships"; "timestamp"; "key"; "size"] ->
       obj_get (metadata r) k = obj_get meta k) /\
    forall n,
      fst (retrieve env analysis id1 (advance n w1))
      = Ret (if expired_at (clock env (tick w1 + n)) r then None else Some r).
Proof.
  unfold storeAnalysis, bind at 1. unfold Date_now at 1. intros Hs.
  apply store_inv in Hs as (_ & -> & ->).
  set (w0 := mkWorld (files w) (indexFile w) (S (tick w))).
  set (meta' := obj_set (obj_set (obj_set meta "analysisType" (JStr analysisType))
                           "relationships" (JArr (JStr <$> relationships)))
                  "timestamp" (JStr (isoString env (clock env (tick w))))).
  set (r := stored_record env w0 analysis analysisType results meta' None).
  assert (Hm : metadata r
               = obj_set (obj_set meta' "key" (JStr analysisType)) "size"
                   (JNum (stringify_length env results))) by reflexivity.
  exists r.
  split; [reflexivity|]. split; [reflexivity|]. split; [reflexivity|].
  rewrite Hm. unfold meta'.
  split; [rewrite !obj_get_set_ne by done; apply obj_get_set_eq|].
  split; [rewrite !obj_get_set_ne by done; apply obj_get_set_eq|].
  split; [rewrite !obj_get_set_ne by done; apply obj_get_set_eq|].
  split; [rewrite !obj_get_set_ne by done; apply obj_get_set_eq|].
  split.
  - intros k Hk. rewrite !not_elem_of_cons in Hk. destruct Hk as (H1 & H2 & H3 & H4 & H5 & _).
    rewrite (obj_get_set_ne _ "size") by (intros E; by apply H5).
    rewrite (obj_get_set_ne _ "key") by (intros E; by apply H4).
    rewrite (obj_get_set_ne _ "timestamp") by (intros E; by apply H3).
    rewrite (obj_get_set_ne _ "relationships") by (intros E; by apply H2).
    rewrite (obj_get_set_ne _ "analysisType") by (intros E; by apply H1).
    reflexivity.
  - intros n. rewrite (retrieve_stored env analysis _ r).
    + reflexivity.
    + unfold advance, after_store. cbn [files]. rewrite fn_lookup_insert.
      apply lookup_insert_eq.
Qed.

Lemma X23_storeAnalysis_round_trip_witness :
  exists r,
    id r = "a8144213-1700000000001" /\ data r = JNum 95 /\
    obj_get (metadata r) "relationships" = Some (JArr [JStr "session-123"]) /\
    obj_get (metadata r) "project" = Some (JStr "test").
Proof.
  destruct (X23_storeAnalysis_round_trip (Demo.env0 Demo.ticking) Demo.w0
              "quality-check" (JNum 95) ["session-123"] [("project", JStr "test")]
              "a8144213-1700000000001"
              (snd (storeAnalysis (Demo.env0 Demo.ticking) "quality-check" (JNum 95)
                      ["session-123"] [("project", JStr "test")] Demo.w0)))
    as (r & H1 & _ & H3 & _ & H5 & _ & _ & H8 & _).
  - vm_compute. reflexivity.
  - exists r. split; [exact H1|]. split; [exact H3|]. split; [exact H5|].
    rewrite H8; [reflexivity|]. rewrite !not_elem_of_cons. repeat split; try discriminate.
    apply not_elem_of_nil.
Defined.

(** X24.  With a chunk size of zero the loop of [storeDataset] never ends
    on a non-empty dataset: whatever number of turns is allowed, it does
    not return the list of chunk ids, and [storeDataset] never returns a
    dataset id. *)
Theorem X24_chunk_size_zero_never_ends (env : Env) (key : string) (data : list json)
    (meta : object) :
  data <> [] ->
  (forall fuel datasetId chunks w cs,
     fst (storeDataset_loop env fuel key data 0 meta datasetId 0 chunks w) <> Ret (Some cs)) /\
  (forall w datasetId, fst (storeDataset env key data 0 meta w) <> Ret (Some datasetId)).
Proof.
  intros Hne.
  assert (Hlen : (0 < length data)%nat) by (destruct data; [done | simpl; lia]).
  assert (Hloop : forall fuel datasetId chunks w cs,
            fst (storeDataset_loop env fuel key data 0 meta datasetId 0 chunks w)
            <> Ret (Some cs)).
  { induction fuel as [|fuel IH]; intros datasetId chunks w cs; [done|].
    cbn [storeDataset_loop]. rewrite bool_decide_eq_true_2 by done.
    unfold bind at 1.
    destruct (store env cache _ _ _ None w) as [[chunkId|e] w1]; [|done].
    change (0 + 0)%nat with 0%nat. apply IH. }
  split; [exact Hloop|].
  intros w datasetId. unfold storeDataset, bind at 1.
  destruct (generateId env ("dataset-" +:+ key) w) as [[dsid|e] w1]; [|done].
  unfold bind at 1.
  pose proof (Hloop (S (length data)) dsid [] w1) as H.
  destruct (storeDataset_loop env (S (length data)) key data 0 meta dsid 0 [] w1)
    as [[[cs|]|e] w2]; [by specialize (H cs) | done | done].
Qed.

Lemma X24_chunk_size_zero_never_ends_witness :
  fst (storeDataset (Demo.env0 Demo.ticking) "ds" [JNum 1] 0 [] Demo.w0)
  <> Ret (Some "9425f14b-1700000000000").
Proof.
  apply (X24_chunk_size_zero_never_ends (Demo.env0 Demo.ticking) "ds" [JNum 1] []).
  discriminate.
Defined.


Lemma createSession_inv env sessionType initialData w sessionId w1 :
  createSession env sessionType initialData w = (Ret sessionId, w1) ->
  sessionId = gen_id env ("session-" +:+ sessionType) (clock env (tick w)) /\
  w1 = after_store env (mkWorld (files w) (indexFile w) (S (S (tick w)))) session sessionId
         (JObj (session_payload env sessionId sessionType initialData (clock env (S (tick w)))))
         [("sessionType", JStr sessionType)] None.
Proof.
  unfold createSession, generateId, bind at 1 2. unfold Date_now at 1. cbn [ret].
  unfold bind at 1. unfold Date_now at 1. unfold bind at 1.
  destruct (store env session _ _ _ None _) as [[id1|e] w'] eqn:Hs; [|done].
  intros [= <- <-]. apply store_inv in Hs as (_ & _ & ->). done.
Qed.

(** X25.  The life of a session: after [createSession], an [updateSession]
    made before the session expires succeeds; from then on [retrieve] by
    the session id returns the updated record, whose payload is the payload
    written at creation (session id, type, state active, no steps, the
    initial data, the creation date) with the fields of the updates merged
    over it at the top level and [lastUpdated] stamped; the expiry date is
    still the one set at creation: an update does not extend it. *)
Theorem X25_session_update_merges_and_keeps_expiry (env : Env) (w : World)
    (sessionType : string) (initialData updates : json) (n : nat)
    (sessionId : string) (w1 : World) :
  createSession env sessionType initialData w = (Ret sessionId, w1) ->
  files w session !! sessionId = None ->
  clock env (tick w1 + n) <= clock env (tick w + 4) + maxCacheAge env ->
  exists w2 s fields,
    updateSession env sessionId updates (advance n w1) = (Ret tt, w2) /\
    (forall k,
       fst (retrieve env session sessionId (advance k w2))
       = Ret (if expired_at (clock env (tick w2 + k)) s then None else Some s)) /\
    expiresAt s = Some (clock env (tick w + 4) + maxCacheAge env) /\
    data s = JObj fields /\
    obj_get fields "lastUpdated" = Some (JStr (isoString env (clock env (tick w1 + n + 1)))) /\
    (forall k, k <> "lastUpdated" ->
       obj_get fields k
       = match obj_get (reverse (spread updates)) k with
         | Some v => Some v
         | None =>
             obj_get (session_payload env sessionId sessionType initialData
                        (clock env (tick w + 1))) k
         end).
Proof.
  intros Hc Hfree Hlive.
  apply createSession_inv in Hc as [Hid ->].
  set (w0 := mkWorld (files w) (indexFile w) (S (S (tick w)))) in *.
  set (payload := JObj (session_payload env sessionId sessionType initialData
                          (clock env (S (tick w))))) in *.
  set (meta := [("sessionType", JStr sessionType)]) in *.
  set (r0 := stored_record env w0 session sessionId payload meta None).
  set (w1 := after_store env w0 session sessionId payload meta None) in *.
  assert (Htick1 : tick w1 = (tick w + 5)%nat) by (cbn; lia).
  assert (Hexp : expiresAt r0 = Some (clock env (tick w + 4) + maxCacheAge env)).
  { unfold r0, stored_record, lifetime. cbn [expiresAt tick w0].
    replace (S (S (S (S (tick w))))) with (tick w + 4)%nat by lia. reflexivity. }
  assert (Hnot : expired_at (clock env (tick w1 + n)) r0 = false).
  { unfold expired_at. rewrite Hexp. apply Z.ltb_ge. exact Hlive. }
  pose proof (retrieve_by_key_after_store env w0 session sessionId payload meta None n
                (eq_ind_r (fun i => i <> "__proto__") (gen_id_not_proto _ _ _) Hid) Hfree)
    as Hr. cbv zeta in Hr. fold w1 r0 in Hr. rewrite Hnot in Hr.
  rewrite retrieve_spec in Hr. cbn [fst] in Hr. injection Hr as Hr.
  pose proof (updateSession_spec env sessionId updates (advance n w1)) as E.
  cbv zeta in E. rewrite Hr in E.
  set (w1' := after_retrieve env (advance n w1) session sessionId) in *.
  assert (Htick1' : tick w1' = (tick w1 + n + 1)%nat).
  { unfold w1', after_retrieve. unfold live_record in Hr.
    destruct (resolve (advance n w1) session sessionId) as [name|]; [|done].
    unfold read_live in Hr. unfold after_read.
    destruct (files (advance n w1) session !! name) as [[r|]|]; try done.
    destruct (expired_at (clock env (tick (advance n w1))) r) eqn:He; [done|].
    injection Hr as ->. rewrite Hexp. cbn [tick advance]. lia. }
  set (s := merged_session env r0 updates (clock env (tick w1'))) in *.
  eexists _, s, _. split; [exact E|].
  split; [|split; [exact Hexp|]]; [|split; [reflexivity|]]; [|split].
  - intros k. rewrite (retrieve_stored env session sessionId s); [reflexivity|].
    cbn [advance files]. rewrite fn_lookup_insert. apply lookup_insert_eq.
  - rewrite obj_get_set_eq, Htick1'. reflexivity.
  - intros k Hk. rewrite obj_get_set_ne by done. rewrite obj_get_assign.
    replace (tick w + 1)%nat with (S (tick w)) by lia. reflexivity.
Qed.

Lemma X25_session_update_merges_and_keeps_expiry_witness :
  exists w2 s fields,
    updateSession (Demo.env0 Demo.ticking) "d23c52d6-1700000000000"
      (JObj [("additional", JStr "info")])
      (advance 0 (snd (createSession (Demo.env0 Demo.ticking) "t" (JObj []) Demo.w0)))
    = (Ret tt, w2) /\
    expiresAt s = Some (clock (Demo.env0 Demo.ticking) 4
                        + maxCacheAge (Demo.env0 Demo.ticking)) /\
    data s = JObj fields /\
    obj_get fields "additional" = Some (JStr "info") /\
    obj_get fields "data" = Some (JObj []).
Proof.
  destruct (X25_session_update_merges_and_keeps_expiry (Demo.env0 Demo.ticking) Demo.w0
              "t" (JObj []) (JObj [("additional", JStr "info")]) 0
              "d23c52d6-1700000000000"
              (snd (createSession (Demo.env0 Demo.ticking) "t" (JObj []) Demo.w0)))
    as (w2 & s & fields & E & _ & Hexp & Hdata & _ & Hmerge).
  - vm_compute. reflexivity.
  - reflexivity.
  - vm_compute. discriminate.
  - exists w2, s, fields. split; [exact E|]. split; [exact Hexp|]. split; [exact Hdata|].
    split; [rewrite Hmerge by discriminate; reflexivity|].
    rewrite Hmerge by discriminate. reflexivity.
Defined.

(** X26.  The DORA bundle does not depend on the project: for every project
    and date range [calculateDoraMetrics] returns 1.5 deployments a day
    (elite), a lead time of 24 hours (high), 60 minutes to restore (high)
    and a failure rate of 15 per cent (elite), so that the performance
    level computed from it is always elite; the bundle is stored under the
    key dora-metrics-<project> with a lifetime of one hour. *)
Theorem X26_dora_bundle_is_constant (env : Env)
    (bundle_json : MetricsAggregator.DoraMetrics -> json) (w : World)
    (project : string) (dateRange : json) :
  valid_time (clock env (S (S (tick w))) + 3600000) = true ->
  let bundle :=
    bundle_of (1.5, 24, 60, 15)%Q MetricsAggregator.elite MetricsAggregator.high
      MetricsAggregator.high MetricsAggregator.elite in
  exists w' r,
    calculateDoraMetrics env bundle_json project dateRange w = (Ret bundle, w') /\
    HistoricalDataCollector.calculatePerformanceLevel bundle = MetricsAggregator.elite /\
    files w' analysis !! gen_id env ("dora-metrics-" +:+ project) (clock env (tick w))
      = Some (Some r) /\
    data r = bundle_json bundle /\
    expiresAt r = Some (clock env (S (S (tick w))) + 3600000) /\
    obj_get (metadata r) "key" = Some (JStr ("dora-metrics-" +:+ project)).
Proof.
  intros Hv bundle. unfold calculateDoraMetrics, bind.
  rewrite store_spec by exact Hv. cbn [ret].
  eexists _, _. split; [reflexivity|]. split; [reflexivity|].
  split; [cbn [after_store files]; rewrite fn_lookup_insert; apply lookup_insert_eq|].
  split; [reflexivity|]. split; [reflexivity|].
  cbn [stored_record metadata]. rewrite obj_get_set_ne by done. apply obj_get_set_eq.
Qed.

Lemma X26_dora_bundle_is_constant_witness :
  exists w' r,
    calculateDoraMetrics (Demo.env0 Demo.ticking) (fun _ => JNull) "p" JNull Demo.w0
    = (Ret (bundle_of (1.5, 24, 60, 15)%Q MetricsAggregator.elite MetricsAggregator.high
              MetricsAggregator.high MetricsAggregator.elite), w') /\
    HistoricalDataCollector.calculatePerformanceLevel
      (bundle_of (1.5, 24, 60, 15)%Q MetricsAggregator.elite MetricsAggregator.high
         MetricsAggregator.high MetricsAggregator.elite) = MetricsAggregator.elite /\
    files w' analysis
      !! gen_id (Demo.env0 Demo.ticking) ("dora-metrics-" +:+ "p")
           (clock (Demo.env0 Demo.ticking) (tick Demo.w0))
      = Some (Some r) /\
    data r = JNull /\
    expiresAt r = Some (clock (Demo.env0 Demo.ticking) (S (S (tick Demo.w0))) + 3600000) /\
    obj_get (metadata r) "key" = Some (JStr ("dora-metrics-" +:+ "p")).
Proof.
  apply (X26_dora_bundle_is_constant (Demo.env0 Demo.ticking) (fun _ => JNull) Demo.w0
           "p" JNull).
  reflexivity.
Defined.

(** *** Errors and corner cases of the store *)

(** X27.  [store] writes all or nothing: when the expiry date it computes
    is a valid date the record file is written, the index points the key
    at it (for every key but [__proto__], which a new index does not record) and
    the id is returned; otherwise, as with a ttl that leads beyond the
    range of dates, it throws a RangeError and neither a file nor the index
    has changed. *)
Theorem X27_store_writes_all_or_nothing (env : Env) (w : World) (ns : StoredType)
    (key : string) (payload : json) (meta : object) (ttl : option Z) :
  let expiry := clock env (S (S (tick w))) + lifetime env ttl in
  (valid_time expiry = true /\
   exists id1 w1 r,
     store env ns key payload meta ttl w = (Ret id1, w1) /\
     files w1 ns !! id1 = Some (Some r) /\ data r = payload /\
     expiresAt r = Some expiry /\
     (key <> "__proto__" -> index_lookup w1 ns key = Some id1)) \/
  (valid_time expiry = false /\
   exists w1,
     store env ns key payload meta ttl w = (Throw RangeError, w1) /\
     files w1 = files w /\ indexFile w1 = indexFile w).
Proof.
  intros expiry. destruct (valid_time expiry) eqn:Hv; [left | right]; (split; [done|]).
  - rewrite store_spec by exact Hv.
    exists (gen_id env key (clock env (tick w))), (after_store env w ns key payload meta ttl),
      (stored_record env w ns key payload meta ttl).
    split; [reflexivity|]. split.
    { unfold after_store. cbn [files]. rewrite fn_lookup_insert. apply lookup_insert_eq. }
    split; [reflexivity|]. split; [reflexivity|].
    apply index_lookup_after_store.
  - rewrite store_throws by exact Hv. eexists. split; [reflexivity|]. done.
Qed.

(** X28.  A filter on a value that is an array or an object matches no
    record, since the comparison is by identity: [list] then returns the
    empty list, whatever the namespace holds. *)
Theorem X28_filter_on_a_structure_matches_nothing (env : Env) (w : World)
    (ns : StoredType) (filter : object) (k : string) (v : json) :
  (k, v) ∈ filter ->
  (exists l, v = JArr l) \/ (exists o, v = JObj o) ->
  fst (list_records env ns (Some filter) w) = Ret [].
Proof.
  intros Hin Hv. unfold list_records, bind at 1, readdir.
  destruct (list_loop_scan env ns (Some filter) (fst <$> map_to_list (files w ns)) [] w)
    as (new & w' & E & _ & _ & _ & _ & Hsound & _).
  unfold bind at 1. rewrite E. cbn [app fst ret].
  destruct new as [|r new]; [reflexivity|]. exfalso.
  destruct (Hsound r ltac:(apply list_elem_of_here)) as (_ & _ & _ & _ & _ & _ & Hok).
  cbn [filter_ok] in Hok. unfold matches_filter in Hok.
  rewrite forallb_forall in Hok. apply list_elem_of_In in Hin.
  specialize (Hok _ Hin). cbn [fst snd] in Hok.
  destruct (obj_get (metadata r) k) as [v'|]; [|done].
  destruct Hv as [[l ->] | [o ->]]; destruct v'; done.
Qed.

Lemma X28_filter_on_a_structure_matches_nothing_witness :
  fst (list_records (Demo.env0 Demo.ticking) cache (Some [("tags", JArr [])])
         Demo.dataset_world) = Ret [].
Proof.
  apply (X28_filter_on_a_structure_matches_nothing (Demo.env0 Demo.ticking)
           Demo.dataset_world cache [("tags", JArr [])] "tags" (JArr [])).
  - apply list_elem_of_here.
  - left. by exists [].
Defined.



(** *** The order of records of the same millisecond *)

Section Stability.
Context {A : Type} (R : A -> A -> Prop) `{forall x y, Decision (R x y)}.

Lemma insert_stable_split x l :
  exists l1 l2,
    l = l1 ++ l2 /\ insert_stable R x l = l1 ++ x :: l2 /\ Forall (fun y => ~ R x y) l1.
Proof.
  induction l as [|y l (l1 & l2 & -> & E & Hall)].
  - exists [], []. done.
  - cbn [insert_stable]. destruct (decide (R x y)) as [Hxy|Hxy].
    + exists [], (y :: l1 ++ l2). done.
    + exists (y :: l1), l2. rewrite E. split; [done|]. split; [done|]. by constructor.
Qed.

Lemma Array_sort_stable (P : A -> Prop) `{forall x, Decision (P x)} l :
  (forall x y, P x -> P y -> R x y) ->
  filter P (Array_sort R l) = filter P l.
Proof.
  intros HP. induction l as [|x l IH]; [done|].
  cbn [Array_sort foldr]. fold (Array_sort R l).
  destruct (insert_stable_split x (Array_sort R l)) as (l1 & l2 & E1 & E2 & Hall).
  rewrite E2, filter_cons, <- IH, E1, !list.filter_app, filter_cons.
  destruct (decide (P x)) as [Hx|Hx]; [|done].
  assert (Hnone : filter P l1 = []).
  { clear -Hall HP Hx. induction Hall as [|y l1 Hy _ IH]; [done|].
    rewrite filter_cons, decide_False; [exact IH|].
    intros Hpy. apply Hy. by apply HP. }
  rewrite Hnone. reflexivity.
Qed.

End Stability.

(** X30.  Among the records [list] returns, those created in the same
    millisecond come in the order in which the scan of the directory met
    them: the sort by date is stable. *)
Theorem X30_list_keeps_scan_order_within_a_millisecond (env : Env) (w : World)
    (ns : StoredType) (filter : option object) :
  exists scanned items w',
    list_loop env ns filter (fst <$> map_to_list (files w ns)) []
      (snd (readdir ns w)) = (Ret scanned, w') /\
    list_records env ns filter w = (Ret items, w') /\
    Permutation items scanned /\
    forall t,
      base.filter (fun r => timestamp r = t) items
      = base.filter (fun r => timestamp r = t) scanned.
Proof.
  unfold list_records, bind at 1, readdir. cbn [snd].
  destruct (list_loop_scan env ns filter (fst <$> map_to_list (files w ns)) [] w)
    as (new & w' & E & _).
  unfold bind at 1. rewrite E. cbn [app].
  exists new, (Array_sort newest_first new), w'.
  split; [reflexivity|]. split; [reflexivity|].
  split; [apply Array_sort_Permutation|].
  intros t. apply Array_sort_stable. intros x y Hx Hy. unfold newest_first. lia.
Qed.
